(** * tyshemo: the schema engine, the Ty facade and the Tuple type

    A shallow embedding of the class [Schema] (schema.js), of the [Ty]
    facade (ty.js), of the [Tuple] and [List] types (tuple.js, list.js)
    and of the prototype registry (prototype.js), with the properties the
    specification states about them.

    JavaScript values are a first-order datatype.  Functions are named
    and interpreted by a host: a meta function is user code, and all that
    is known of it is that, given its receiver and arguments, it returns a
    value or throws one.  The schema's own effect, reporting to [onError],
    is kept as a trace, so that what was reported, how often and in which
    order can be stated.  Values carry no object identity, except in the
    last part, where [$default] is about identity and every array and
    object has an address. *)

From Stdlib Require Import String Ascii List ZArith Bool Lia.
From Stdlib Require Import DecimalString.
Import ListNotations.
Local Open Scope string_scope.
Local Open Scope Z_scope.
Local Open Scope list_scope.

(* ================================================================== *)
(** ** JavaScript values *)

Set Warnings "-register-all".

(** Numbers are the integers, NaN and the two infinities: no property
    here depends on arithmetic.  A function is its name, and comes in
    three kinds, which ts-fns tells apart by the text of the function: a
    function written in the program (a function expression, an arrow, a
    method, a bound function), a built-in one ([Number], [String],
    [Object.prototype.toString]: its text is [[native code]]), and a
    class.  An instance of a class is the class name and the own
    properties. *)
Inductive val : Type :=
| VUndef
| VNull
| VBool (b : bool)
| VNum (n : Z)
| VNaN
| VInf (negative : bool)
| VStr (s : string)
| VSym (description : string)
| VFun (f : string)
| VArr (items : list val)
| VObj (fields : list (string * val))
| VInst (cls : string) (fields : list (string * val))
| VNative (f : string)
| VClass (c : string).

(** Outcome of a JavaScript call: a returned value or a thrown one. *)
Inductive res (A : Type) : Type :=
| Ret (a : A)
| Throw (e : val).
Arguments Ret {A} a.
Arguments Throw {A} e.

Definition truthy (v : val) : bool :=
  match v with
  | VUndef | VNull | VNaN => false
  | VBool b => b
  | VNum n => negb (n =? 0)
  | VStr s => negb (String.eqb s "")
  | _ => true
  end.

(** [a || b] on values. *)
Definition js_or (a b : val) : val := if truthy a then a else b.

(** *** Own properties *)

Fixpoint lookup (k : string) (fs : list (string * val)) : option val :=
  match fs with
  | [] => None
  | (k', v) :: rest => if String.eqb k k' then Some v else lookup k rest
  end.

(** The array index a property name is, if it is one: the canonical
    decimal text of an integer below 2^32 - 1.  The own properties of an
    object are enumerated with those named by an array index first, in
    ascending order, and the others after them in the order they were
    created; the property list of an object is kept in that order. *)
Definition array_index (k : string) : option N :=
  match NilEmpty.uint_of_string k with
  | Some u =>
      let n := N.of_uint u in
      if String.eqb (NilZero.string_of_uint (N.to_uint n)) k
         && (n <? 4294967295)%N
      then Some n
      else None
  | None => None
  end.

Fixpoint replace_value (fs : list (string * val)) (k : string) (v : val)
  : list (string * val) :=
  match fs with
  | [] => []
  | (k', v') :: rest =>
      if String.eqb k k' then (k', v) :: rest
      else (k', v') :: replace_value rest k v
  end.

(** A new property named by the array index [n] goes before the first
    property that is named by a greater index or by no index. *)
Fixpoint insert_index (fs : list (string * val)) (n : N) (k : string)
  (v : val) : list (string * val) :=
  match fs with
  | [] => [(k, v)]
  | (k', v') :: rest =>
      match array_index k' with
      | Some n' =>
          if (n <? n')%N then (k, v) :: fs
          else (k', v') :: insert_index rest n k v
      | None => (k, v) :: fs
      end
  end.

(** [o[k] = v] on the property list of an object: an existing property
    keeps its position; a new one goes to its place among the array
    indexes, or last. *)
Definition obj_set (fs : list (string * val)) (k : string) (v : val)
  : list (string * val) :=
  match lookup k fs with
  | Some _ => replace_value fs k v
  | None =>
      match array_index k with
      | Some n => insert_index fs n k v
      | None => fs ++ [(k, v)]
      end
  end.

Definition string_of_nat (n : nat) : string :=
  NilZero.string_of_uint (Nat.to_uint n).

Definition string_of_Z (z : Z) : string :=
  NilZero.string_of_int (Z.to_int z).

Fixpoint indexed {A} (i : nat) (xs : list A) : list (string * A) :=
  match xs with
  | [] => []
  | x :: rest => (string_of_nat i, x) :: indexed (S i) rest
  end.

Fixpoint chars (s : string) : list val :=
  match s with
  | EmptyString => []
  | String c rest => VStr (String c EmptyString) :: chars rest
  end.

(** The own enumerable properties [Object.assign] copies from a source. *)
Definition own_props (v : val) : list (string * val) :=
  match v with
  | VObj fs | VInst _ fs => fs
  | VArr xs => indexed 0 xs
  | VStr s => indexed 0 (chars s)
  | _ => []
  end.

(** [Object.assign(target, source)] on property lists. *)
Definition obj_assign (target source : list (string * val))
  : list (string * val) :=
  fold_left (fun acc kv => obj_set acc (fst kv) (snd kv)) source target.

(** [o.k] for a fixed property name [k]; [undefined] when absent. *)
Definition prop (o : val) (k : string) : val :=
  match o with
  | VObj fs | VInst _ fs =>
      match lookup k fs with Some v => v | None => VUndef end
  | _ => VUndef
  end.

(** *** Predicates of ts-fns *)

Definition isObject (v : val) : bool :=
  match v with VObj _ => true | _ => false end.
Definition isArray (v : val) : bool :=
  match v with VArr _ => true | _ => false end.
(** [isFunction] of ts-fns: a function whose text is neither that of a
    built-in nor that of a class. *)
Definition isFunction (v : val) : bool :=
  match v with VFun _ => true | _ => false end.
Definition isBoolean (v : val) : bool :=
  match v with VBool _ => true | _ => false end.
Definition isString (v : val) : bool :=
  match v with VStr _ => true | _ => false end.
Definition isNumber (v : val) : bool :=
  match v with VNum _ | VInf _ => true | _ => false end.
Definition isNaN (v : val) : bool :=
  match v with VNaN => true | _ => false end.
Definition isInfinite (v : val) : bool :=
  match v with VInf _ => true | _ => false end.
Definition isSymbol (v : val) : bool :=
  match v with VSym _ => true | _ => false end.
Definition isUndefined (v : val) : bool :=
  match v with VUndef => true | _ => false end.

Definition isEmpty (v : val) : bool :=
  match v with
  | VUndef | VNull | VNaN => true
  | VStr s => String.eqb s ""
  | VArr xs => match xs with [] => true | _ => false end
  | VObj fs => match fs with [] => true | _ => false end
  | _ => false
  end.

Definition inObject (k : string) (o : val) : bool :=
  match o with
  | VObj fs | VInst _ fs =>
      match lookup k fs with Some _ => true | None => false end
  | _ => false
  end.

(** The class hierarchy: [class Tuple extends Type] and
    [class List extends Type] in the sources, [Dict] and [TyError] as the
    specification describes them, and the built-in errors. *)
Definition superclass (c : string) : option string :=
  if String.eqb c "Tuple" then Some "Type"
  else if String.eqb c "List" then Some "Type"
  else if String.eqb c "Dict" then Some "Type"
  else if String.eqb c "TyError" then Some "TypeError"
  else if String.eqb c "TypeError" then Some "Error"
  else if String.eqb c "ReferenceError" then Some "Error"
  else None.

Fixpoint inherits (depth : nat) (c p : string) : bool :=
  String.eqb c p
  || match depth with
     | O => false
     | S d =>
         match superclass c with
         | Some q => inherits d q p
         | None => false
         end
     end.

Definition isInstanceOf (v : val) (c : string) : bool :=
  match v with
  | VInst cls _ => inherits 3 cls c
  | _ => false
  end.

(** [String(v)] for the primitives; the text of an object, an array or a
    function is left as a tag. *)
Definition to_string (v : val) : string :=
  match v with
  | VUndef => "undefined"
  | VNull => "null"
  | VBool true => "true"
  | VBool false => "false"
  | VNum n => string_of_Z n
  | VNaN => "NaN"
  | VInf false => "Infinity"
  | VInf true => "-Infinity"
  | VStr s => s
  | VSym d => d
  | VFun f | VNative f | VClass f => f
  | VArr _ => "[array]"
  | VObj _ | VInst _ _ => "[object Object]"
  end.

(** [interpolate(template, { key })]: every [{key}] placeholder becomes
    the key. *)
Fixpoint interpolate_from (skip : nat) (template key : string) : string :=
  match template with
  | EmptyString => EmptyString
  | String c rest =>
      match skip with
      | S n => interpolate_from n rest key
      | O =>
          if String.prefix "{key}" template
          then (key ++ interpolate_from 4 rest key)%string
          else String c (interpolate_from 0 rest key)
      end
  end.

Definition interpolate (template key : string) : string :=
  interpolate_from 0 template key.

(* ================================================================== *)
(** ** Effects: the trace of reports, and exceptions *)

Inductive event : Type :=
| Reported (err : val)                    (* this.onError(err) *)
| Scheduled (listener : val) (err : val). (* Promise.resolve().then(...) *)

Definition trace := list event.

(** A computation runs from a trace and ends by returning or throwing;
    what was reported before a throw stays reported. *)
Definition M (A : Type) : Type := trace -> res A * trace.

Definition ret {A} (a : A) : M A := fun t => (Ret a, t).
Definition throw {A} (e : val) : M A := fun t => (Throw e, t).
Definition bind {A B} (m : M A) (k : A -> M B) : M B :=
  fun t =>
    match m t with
    | (Ret a, t') => k a t'
    | (Throw e, t') => (Throw e, t')
    end.
Definition lift {A} (r : res A) : M A := fun t => (r, t).
Definition try_catch {A} (m : M A) (handler : val -> M A) : M A :=
  fun t =>
    match m t with
    | (Ret a, t') => (Ret a, t')
    | (Throw e, t') => handler e t'
    end.
Definition emit (ev : event) : M unit := fun t => (Ret tt, t ++ [ev]).

Declare Scope js_scope.
Delimit Scope js_scope with js.
Notation "x <- m ;; k" := (bind m (fun x => k))
  (at level 61, m at next level, right associativity) : js_scope.
Notation "m ;;; k" := (bind m (fun _ => k))
  (at level 61, right associativity) : js_scope.
Local Open Scope js_scope.

(** [m], run from [t], returns: it does not throw. *)
Definition returns {A} (m : M A) (t : trace) : Prop :=
  exists a t', m t = (Ret a, t').

(** The host: how named functions behave, the [onError] override, and the
    entry points of the type system whose files ([type.js], [dict.js],
    [rule.js], [error.js]) are not among the sources.
    [Schema.prototype.onError] has an empty body; a subclass overrides it,
    and [_trydo] uses what it returns. *)
Class Host : Type := {
  call : string -> val -> list val -> res val;
  onError_hook : val -> val;
  (* this.validate(value, pattern) of type.js on a Rule, a Type, an array
     or an object pattern, and on a pattern that is no prototype token *)
  validate_nested : val -> val -> val -> res val;
  (* type.assert(value) for a Type or Dict instance *)
  assert_other : val -> val -> res unit;
  (* pattern.validate2(value, i, items) of rule.js *)
  Rule_validate2 : val -> val -> nat -> list val -> res val;
  (* makeError(error, info) of error.js *)
  makeError : val -> val -> val;
  (* isConstructor(f) of ts-fns, and regexp.test(string) *)
  isConstructor : string -> bool;
  RegExp_test : val -> string -> bool;
  (* what the prototype chain gives under a name for a value that is no
     plain object: an array, a string, a number, a function, an instance
     of a class *)
  inherited : val -> string -> val;
  (* o[k] for a key that is a symbol, an object, an array or a function *)
  member_other : val -> val -> res val;
  (* the number a string, a symbol, an object, an array or a function is
     turned into by an arithmetic operator *)
  ToNumber_other : val -> res val;
  (* the loop [for (let i = start; i <= end; i ++)] of the validator
     runner for bounds it is not modelled for: a bound that is no number
     and is coerced at every comparison, and a loop that does not end *)
  loop_other : val -> val -> val -> M (list val)
}.

Definition TypeError (msg : string) : val :=
  VInst "TypeError" [("message", VStr msg)].
Definition ReferenceError (msg : string) : val :=
  VInst "ReferenceError" [("message", VStr msg)].

(** [f.call(receiver, ...args)]; calling a class without [new], or what
    is no function, is a TypeError. *)
Definition apply_to {host : Host} (f : val) (receiver : val)
  (args : list val) : res val :=
  match f with
  | VFun name | VNative name => call name receiver args
  | VClass name =>
      Throw (TypeError ("Class constructor " ++ name
                        ++ " cannot be invoked without 'new'"))
  | _ => Throw (TypeError "f.call is not a function")
  end.

Definition invoke {host : Host} (f : val) (receiver : val)
  (args : list val) : M val :=
  lift (apply_to f receiver args).

(** [a === b].  Objects and arrays are compared by reference in
    JavaScript; the values here carry no reference, and two of them are
    never taken for one object. *)
Definition strict_eq (a b : val) : bool :=
  match a, b with
  | VUndef, VUndef | VNull, VNull => true
  | VBool x, VBool y => Bool.eqb x y
  | VNum x, VNum y => x =? y
  | VInf x, VInf y => Bool.eqb x y
  | VStr x, VStr y | VSym x, VSym y | VFun x, VFun y
  | VNative x, VNative y | VClass x, VClass y => String.eqb x y
  | _, _ => false
  end.

(** [xs[i]] and [xs.length] *)
Definition js_index (xs : val) (i : nat) : val :=
  match xs with
  | VArr items => nth i items VUndef
  | VStr s => nth i (chars s) VUndef
  | _ => prop xs (string_of_nat i)
  end.

Definition js_length (xs : val) : val :=
  match xs with
  | VArr items => VNum (Z.of_nat (length items))
  | VStr s => VNum (Z.of_nat (String.length s))
  | _ => prop xs "length"
  end.

(** The function members every object inherits from [Object.prototype]. *)
Definition Object_prototype_functions : list string :=
  ["hasOwnProperty"; "isPrototypeOf"; "propertyIsEnumerable";
   "toLocaleString"; "toString"; "valueOf"; "__defineGetter__";
   "__defineSetter__"; "__lookupGetter__"; "__lookupSetter__"].

(** What a plain object that has no own property [k] gives for [o[k]]:
    the member of [Object.prototype], if there is one. *)
Definition Object_prototype_member (k : string) : val :=
  if String.eqb k "constructor" then VNative "Object"
  else if String.eqb k "__proto__"
  then VObj (("constructor", VNative "Object")
             :: map (fun m => (m, VNative ("Object.prototype." ++ m)%string))
                  Object_prototype_functions)
  else if existsb (String.eqb k) Object_prototype_functions
  then VNative ("Object.prototype." ++ k)
  else VUndef.

(** [o[k]] for a property name computed at run time, on a value that is
    neither null nor undefined: an own property, or else what the
    prototype chain gives.  No prototype has a property named by an array
    index. *)
Definition js_get {host : Host} (o : val) (k : string) : val :=
  match o with
  | VObj fs =>
      match lookup k fs with
      | Some v => v
      | None => Object_prototype_member k
      end
  | VInst _ fs =>
      match lookup k fs with
      | Some v => v
      | None => inherited o k
      end
  | VArr items =>
      match array_index k with
      | Some n =>
          if (n <? N.of_nat (length items))%N
          then nth (N.to_nat n) items VUndef
          else VUndef
      | None =>
          if String.eqb k "length" then js_length o else inherited o k
      end
  | VStr s =>
      match array_index k with
      | Some n =>
          if (n <? N.of_nat (String.length s))%N
          then nth (N.to_nat n) (chars s) VUndef
          else VUndef
      | None =>
          if String.eqb k "length" then js_length o else inherited o k
      end
  | _ => inherited o k
  end.

(** [o[k]] for any key; reading a property of null or undefined
    throws.  A number names the element of an array or the character of a
    string at that index. *)
Definition member {host : Host} (o : val) (k : val) : res val :=
  match o with
  | VUndef | VNull =>
      Throw (TypeError ("Cannot read properties of " ++ to_string o))
  | _ =>
      match k with
      | VStr name => Ret (js_get o name)
      | VNum z =>
          match o with
          | VArr _ | VStr _ =>
              if z <? 0 then Ret VUndef else Ret (js_index o (Z.to_nat z))
          | _ => Ret (js_get o (string_of_Z z))
          end
      | VUndef | VNull | VBool _ | VNaN | VInf _ =>
          Ret (js_get o (to_string k))
      | _ => member_other o k
      end
  end.

(** [x - 1] *)
Definition minus_one {host : Host} (x : val) : res val :=
  let pred (n : val) : val :=
    match n with
    | VNum z => VNum (z - 1)
    | VInf b => VInf b
    | _ => VNaN
    end in
  match x with
  | VNum _ | VInf _ | VNaN => Ret (pred x)
  | VUndef => Ret VNaN
  | VNull => Ret (VNum (-1))
  | VBool b => Ret (VNum (if b then 0 else -1))
  | _ =>
      match ToNumber_other x with
      | Ret n => Ret (pred n)
      | Throw e => Throw e
      end
  end.

(* ================================================================== *)
(** ** The prototype registry (prototype.js) *)

Module Prototype.

(** An entry [{ proto, validate }] of the module's [prototypes] table. *)
Definition item : Type := (val * (val -> bool))%type.

Definition find (prototypes : list item) (proto : val) : option item :=
  List.find (fun it => strict_eq (fst it) proto) prototypes.

Fixpoint replace (prototypes : list item) (proto : val)
  (validate : val -> bool) : list item :=
  match prototypes with
  | [] => []
  | it :: rest =>
      if strict_eq (fst it) proto then (fst it, validate) :: rest
      else it :: replace rest proto validate
  end.

Definition register (prototypes : list item) (proto : val)
  (validate : val -> bool) : list item :=
  match find prototypes proto with
  | Some _ => replace prototypes proto validate
  | None => prototypes ++ [(proto, validate)]
  end.

(** The table after the module's own eight registrations. *)
Definition prototypes : list item :=
  let t := register [] (VNative "Number") isNumber in
  let t := register t (VNative "String") isString in
  let t := register t (VNative "Boolean") isBoolean in
  let t := register t (VNative "Object") isObject in
  let t := register t (VNative "Array") isArray in
  let t := register t (VNative "Function") isFunction in
  let t := register t (VNative "Symbol") isSymbol in
  register t (VInf false) isInfinite.

Section WithHost.
Context {host : Host}.

(** [proto.validate(value)] of a [Prototype] instance *)
Definition validate (this value : val) : res bool :=
  match prop this "_validate" with
  | VFun f =>
      match call f this [value] with
      | Ret r => Ret (truthy r)
      | Throw e => Throw e
      end
  | VNative f =>
      match call f this [value] with
      | Ret r => Ret (truthy r)
      | Throw e => Throw e
      end
  | _ => Throw (TypeError "this._validate.call is not a function")
  end.

Definition is_constructor (proto : val) : bool :=
  match proto with
  | VFun f | VNative f | VClass f => isConstructor f
  | _ => false
  end.

(** [Prototype.is(proto).existing()] *)
Definition is_existing (proto : val) : bool :=
  isInstanceOf proto "Prototype" || isNaN proto
  || isInstanceOf proto "RegExp" || is_constructor proto
  || match find prototypes proto with Some _ => true | None => false end.

(** [Prototype.is(proto).typeof(value)] *)
Definition is_typeof (proto value : val) : res bool :=
  if isInstanceOf proto "Prototype" then validate proto value
  else
    match find prototypes proto with
    | Some it => Ret (snd it value)
    | None =>
        if isNaN proto then Ret (isNaN value)
        else if isInstanceOf proto "RegExp" then
          Ret (match value with
               | VStr s => RegExp_test proto s
               | _ => false
               end)
        else
          match proto with
          | VFun f | VNative f | VClass f =>
              if isConstructor f then Ret (isInstanceOf value f)
              else Ret false
          | _ => Ret false
          end
    end.

(** [Prototype.is(proto).equal(value)] *)
Definition is_equal (proto value : val) : bool := strict_eq proto value.

End WithHost.
End Prototype.

(* ================================================================== *)
(** ** Types: TyError, Type, List (list.js) and Tuple (tuple.js) *)

Module Types.

(** Modelled from the spec: the class [TyError] of error.js, which is
    not among the sources.  "Structured error with kind, value, pattern,
    path": an instance keeps its kind tag under [type] and the info
    record it was built from. *)
Definition new_TyError (kind : string) (info : list (string * val)) : val :=
  VInst "TyError" [("type", VStr kind); ("info", VObj info)].

Definition kind_of (e : val) : val := prop e "type".

(** Modelled from the spec: the constructor of [Type] in type.js, which
    is not among the sources.  A type "carries: name, pattern, mode";
    the mode is strict or loose, and a new type is loose. *)
Definition new_Type (pattern : val) : val :=
  VInst "Type"
    [("pattern", pattern); ("mode", VStr "loose"); ("name", VStr "Type")].

(** A subclass constructor: [super(pattern); this.name = name]. *)
Definition subtype (cls : string) (pattern : val) : val :=
  match new_Type pattern with
  | VInst _ fs => VInst cls (obj_set fs "name" (VStr cls))
  | v => v
  end.

(** The instance with its mode set. *)
Definition with_mode (t : val) (mode : string) : val :=
  match t with
  | VInst cls fs => VInst cls (obj_set fs "mode" (VStr mode))
  | v => v
  end.

(** Modelled from the spec: [clone()] of type.js, "deep copy of the
    pattern tree", the mode being inherited.  Values carry no reference,
    so the copy is the value. *)
Definition clone (t : val) : val := t.

(** Modelled from the spec: [new Dict(pattern)] of dict.js, which is not
    among the sources; [Dict] is one of the "structural types built on
    Type". *)
Definition new_Dict (pattern : val) : val := subtype "Dict" pattern.

(** [new List(pattern)] *)
Definition new_List (pattern : val) : res val :=
  if negb (isArray pattern) then
    Throw (new_TyError "List pattern should be an array." [])
  else
    let pattern := if isEmpty pattern then VNative "Array" else pattern in
    Ret (subtype "List" pattern).

(** [new Tuple(pattern)] *)
Definition new_Tuple (pattern : val) : res val :=
  if negb (isArray pattern) then
    Throw (new_TyError "Tuple pattern should be an array." [])
  else Ret (subtype "Tuple" pattern).

Section WithHost.
Context {host : Host}.

(** Modelled from the spec: [Type.prototype.validate(value, pattern)] of
    type.js, which is not among the sources.  It returns an error or
    null.  A prototype token is checked with [Prototype.is(pattern)
    .typeof(value)], and a failure is a [mistaken] error.  What it makes
    of a Rule, a Type, an array or an object pattern, and of a pattern
    that is none of these and no token (a plain value, [undefined]), is
    stated nowhere and left to the host. *)
Definition Type_validate (this value pattern : val) : res val :=
  let info := [("value", value); ("pattern", pattern); ("type", this);
               ("level", VStr "type"); ("action", VStr "validate")] in
  if isInstanceOf pattern "Rule" || isInstanceOf pattern "Type"
     || isArray pattern || isObject pattern
  then validate_nested this value pattern
  else if Prototype.is_existing pattern then
    match Prototype.is_typeof pattern value with
    | Ret true => Ret VNull
    | Ret false => Ret (new_TyError "mistaken" info)
    | Throw e => Throw e
    end
  else validate_nested this value pattern.

(** [List.prototype.assert(value)] *)
Definition List_assert (this value : val) : res unit :=
  let pattern := prop this "pattern" in
  let info := [("value", value); ("pattern", pattern); ("type", this);
               ("level", VStr "type"); ("action", VStr "assert")] in
  if negb (isArray value) then Throw (new_TyError "mistaken" info)
  else
    match Type_validate this value pattern with
    | Throw e => Throw e
    | Ret error =>
        if truthy error then Throw (makeError error (VObj info)) else Ret tt
    end.

(** The loop of [Tuple.prototype.assert]:
    [for (let i = 0; i < itemCount; i ++)], at index [i] with [rest] the
    items from [i] on. *)
Fixpoint Tuple_items (this : val) (info : list (string * val))
  (patterns : val) (items : list val) (i : nat) (rest : list val)
  : res unit :=
  match rest with
  | [] => Ret tt
  | value :: rest' =>
      let pattern := js_index patterns i in
      let _info :=
        obj_set (obj_set (obj_set info "index" (VNum (Z.of_nat i)))
                   "value" value) "pattern" pattern in
      let checked :=
        if isInstanceOf pattern "Rule"
        then Rule_validate2 pattern value i items
        else Type_validate this value pattern in
      match checked with
      | Throw e => Throw e
      | Ret error =>
          if truthy error then Throw (makeError error (VObj _info))
          else Tuple_items this info patterns items (S i) rest'
      end
  end.

(** [Tuple.prototype.assert(value)] *)
Definition Tuple_assert (this value : val) : res unit :=
  let pattern := prop this "pattern" in
  let info := [("value", value); ("pattern", pattern); ("type", this);
               ("level", VStr "type"); ("action", VStr "assert")] in
  match value with
  | VArr items =>
      let patterns := pattern in
      let patternCount := js_length patterns in
      let itemCount := VNum (Z.of_nat (length items)) in
      if strict_eq (prop this "mode") (VStr "strict")
         && negb (strict_eq itemCount patternCount)
      then Throw (new_TyError "dirty" (obj_set info "length" patternCount))
      else Tuple_items this info patterns items 0 items
  | _ => Throw (new_TyError "mistaken" info)
  end.

(** [type.assert(value)], by the class of [type]. *)
Definition assert (type value : val) : res unit :=
  match type with
  | VInst cls _ =>
      if String.eqb cls "Tuple" then Tuple_assert type value
      else if String.eqb cls "List" then List_assert type value
      else assert_other type value
  | _ => assert_other type value
  end.

(** Modelled from the spec: [Type.prototype.catch(value)] of type.js,
    which is not among the sources: the "non-throwing wrapper returning
    the TyError or null" around [assert]. *)
Definition catch (type value : val) : val :=
  match assert type value with
  | Ret _ => VNull
  | Throw e => e
  end.

End WithHost.
End Types.

(* ================================================================== *)
(** ** The Ty facade (ty.js) *)

Module Ty.

(** The fields of a [Ty] instance. *)
Record instance : Type := {
  _listeners : list val;
  _silent : bool
}.

(** [new Ty()] *)
Definition new : instance := {| _listeners := []; _silent := false |}.

Definition bind (this : instance) (fn : val) : instance :=
  if isFunction fn
  then {| _listeners := _listeners this ++ [fn]; _silent := _silent this |}
  else this.

Definition silent (this : instance) (value : val) : instance :=
  {| _listeners := _listeners this; _silent := truthy value |}.

(** [splice(i, 1)] *)
Definition splice1 (i : nat) (items : list val) : list val :=
  firstn i items ++ skipn (S i) items.

(** The [forEach] of [unbind(fn)], at index [i] with [rounds] indices
    still to visit: [forEach] visits the indices below the length the
    array had at the start, and passes over an index that the array, made
    shorter by [splice], no longer has. *)
Fixpoint unbind_from (rounds i : nat) (listeners : list val) (fn : val)
  : list val :=
  match rounds with
  | O => listeners
  | S rounds' =>
      match nth_error listeners i with
      | Some item =>
          if strict_eq item fn
          then unbind_from rounds' (S i) (splice1 i listeners) fn
          else unbind_from rounds' (S i) listeners fn
      | None => unbind_from rounds' (S i) listeners fn
      end
  end.

(** [unbind(fn)] *)
Definition unbind (this : instance) (fn : val) : instance :=
  {| _listeners :=
       unbind_from (length (_listeners this)) 0 (_listeners this) fn;
     _silent := _silent this |}.

(** [dispatch(error)]: every listener is put on the microtask queue;
    none runs before the caller returns. *)
Fixpoint notify (listeners : list val) (error : val) : M unit :=
  match listeners with
  | [] => ret tt
  | fn :: rest => emit (Scheduled fn error) ;;; notify rest error
  end.

Definition dispatch (this : instance) (error : val) : M unit :=
  notify (_listeners this) error.

(** [throw(error)] *)
Definition throw_ (this : instance) (error : val) : M unit :=
  dispatch this error ;;;
  if negb (_silent this) then throw error else ret tt.

Section WithHost.
Context {host : Host}.

(** [Ty.create(type)] *)
Definition create (type : val) : res val :=
  if isObject type then Ret (Types.new_Dict type)
  else if isArray type then Types.new_List type
  else if isInstanceOf type "Type" then Ret (Types.clone type)
  else Ret (Types.new_Type type).

(** [this.expect(value).to.match(type)] *)
Definition expect_to_match (this : instance) (value type : val) : M val :=
  type <- lift (create type) ;;
  try_catch
    (lift (Types.assert type value) ;;; ret (VBool true))
    (fun e => throw_ this e ;;; ret (VBool false)).

(** [this.catch(value).by(type)] *)
Definition catch_by (this : instance) (value type : val) : M val :=
  type <- lift (create type) ;;
  let error := Types.catch type value in
  (if truthy error then dispatch this error else ret tt) ;;;
  ret error.

(** [this.is(type).typeof(value)] *)
Definition is_typeof (this : instance) (type value : val) : M val :=
  type <- lift (create type) ;;
  let error := Types.catch type value in
  (if truthy error then dispatch this error else ret tt) ;;;
  ret (VBool (negb (truthy error))).

(** The module's own instance, [const ty = new Ty()], and the static
    entry points bound to it: [Ty.expect = ty.expect.bind(ty)],
    [Ty.catch = ty.catch.bind(ty)].  The instance is not exported, so
    it is never silenced and never given a listener. *)
Definition ty : instance := new.
Definition catch (value type : val) : M val := catch_by ty value type.

End WithHost.
End Ty.

(* ================================================================== *)
(** ** The rules (rules.js) *)

Module Rules.

(** [create(type)] *)
Definition create (type : val) : res val :=
  if isInstanceOf type "Type" then Ret (Types.clone type)
  else if isObject type then Ret (Types.new_Dict type)
  else if isArray type then Types.new_List type
  else Ret (Types.new_Type type).

End Rules.

(* ================================================================== *)
(** ** The schema engine (schema.js) *)

Module Schema.

(** A schema instance: its own enumerable properties, one per field
    definition, in enumeration order.  The constructor keeps the
    definitions that are plain objects. *)
Definition schema : Type := list (string * list (string * val)).

Definition new (defs : list (string * val)) : schema :=
  flat_map
    (fun kd => match snd kd with
               | VObj def => [(fst kd, def)]
               | _ => []
               end)
    defs.

Fixpoint own (this : schema) (key : string) : option (list (string * val)) :=
  match this with
  | [] => None
  | (k, def) :: rest => if String.eqb key k then Some def else own rest key
  end.

(** The members of the class, found on [Schema.prototype]. *)
Definition methods : list string :=
  ["$has"; "$default"; "$message"; "$determine"; "required"; "disabled";
   "readonly"; "get"; "$set"; "set"; "$validate"; "validate"; "parse";
   "export"; "_trydo"; "onError"].

(** The function members every object inherits from [Object.prototype]. *)
Definition Object_prototype : list string :=
  ["hasOwnProperty"; "isPrototypeOf"; "propertyIsEnumerable";
   "toLocaleString"; "toString"; "valueOf"; "__defineGetter__";
   "__defineSetter__"; "__lookupGetter__"; "__lookupSetter__"].

(** [this[key]]: an own field definition, or else what the prototype
    chain of the instance gives under that name. *)
Definition field (this : schema) (key : string) : val :=
  match own this key with
  | Some def => VObj def
  | None =>
      if existsb (String.eqb key) methods
      then VFun ("Schema.prototype." ++ key)
      else if String.eqb key "constructor" then VClass "Schema"
      else if String.eqb key "__proto__"
      then VObj (("constructor", VClass "Schema")
                 :: map (fun m => (m, VFun ("Schema.prototype." ++ m)%string))
                      methods)
      else if existsb (String.eqb key) Object_prototype
      then VNative ("Object.prototype." ++ key)
      else VUndef
  end.

(** [Schema.defualtMessages] *)
Definition defualtMessages : list (string * string) :=
  [("type", "{key} does not match type.");
   ("compute",
    "{key} can not be set new value because it is a computed property.");
   ("required", "{key} is required, but receive empty.");
   ("readonly", "{key} can not be set new value because of readonly.");
   ("disabled", "{key} can not be set new value because of disabled.")].

Fixpoint template_of (meta : string) (table : list (string * string))
  : option string :=
  match table with
  | [] => None
  | (m, t) :: rest => if String.eqb meta m then Some t else template_of meta rest
  end.

(** [this.m(...)]: the member [m] is looked up on the instance, where an
    own property (a field of that name) comes before the method of the
    class; a field is a plain object, and calling it is a TypeError.
    [body] is the method of the class applied to the arguments, which
    are evaluated before the call is made. *)
Definition method {A} (this : schema) (m : string) (body : M A) : M A :=
  match own this m with
  | Some _ => throw (TypeError ("this." ++ m ++ " is not a function"))
  | None => body
  end.

Section WithHost.
Context {host : Host}.

(** [onError(err)], the method of the class or of a subclass *)
Definition onError (err : val) : M val :=
  emit (Reported err) ;;; ret (onError_hook err).

(** [_trydo(fn, fallback, basic, force)] *)
Definition _trydo (this : schema) (fn : M val) (fallback : val -> M val)
  (basic : list (string * val)) (force : val) : M val :=
  if truthy force then fn
  else
    try_catch fn
      (fun error =>
         let err := VObj (obj_set basic "error" error) in
         r <- method this "onError" (onError err) ;;
         let e := js_or r err in
         fallback e).

(** The fallback every call site passes to [_trydo]:
    [(error) => isFunction(handle) && handle.call(context, error) || dflt] *)
Definition catch_or (handle context error dflt : val) : M val :=
  if isFunction handle
  then r <- invoke handle context [error] ;; ret (js_or r dflt)
  else ret dflt.

(** [$has(key)] *)
Definition dollar_has (this : schema) (key : string) : bool :=
  truthy (field this key).

(** [$message(key, meta, context)(givenMessage)] *)
Definition dollar_message (this : schema) (key meta : string) (context : val)
  (givenMessage : val) : M val :=
  let def := field this key in
  if negb (truthy def) then ret (VStr "")
  else
    let node := prop def meta in
    if negb (truthy node) then ret (VStr "")
    else
      let defualtMessage :=
        VStr (interpolate
                match template_of meta defualtMessages with
                | Some t => t
                | None => ("{key} " ++ meta ++ " error.")%string
                end key) in
      let handle := prop def "catch" in
      if isString givenMessage then ret givenMessage
      else if isBoolean node then ret defualtMessage
      else if isString node then ret node
      else if isFunction node then ret defualtMessage
      else if isObject node && truthy (prop node "message") then
        let message := prop node "message" in
        if isFunction message then
          method this "_trydo"
            (_trydo this (invoke message context [VStr meta])
               (fun error => catch_or handle context error defualtMessage)
               [("key", VStr key); ("meta", VStr "message")] VUndef)
        else if isString message then ret message
        else ret defualtMessage
      else ret defualtMessage.

(** [$determine(key, meta, context)(fallbackRes)] *)
Definition dollar_determine (this : schema) (key meta : string)
  (context : val) (fallbackRes : val) : M val :=
  let def := field this key in
  if negb (truthy def) then ret fallbackRes
  else if negb (inObject meta def) then ret fallbackRes
  else
    let node := prop def meta in
    let handle := prop def "catch" in
    if isObject node then
      let determine := prop node "determine" in
      if isFunction determine then
        method this "_trydo"
          (_trydo this (invoke determine context [])
             (fun error => catch_or handle context error fallbackRes)
             [("key", VStr key); ("meta", VStr meta)] VUndef)
      else ret determine
    else if isFunction node then
      method this "_trydo"
        (_trydo this (invoke node context [])
           (fun error => catch_or handle context error fallbackRes)
           [("key", VStr key); ("meta", VStr meta)] VUndef)
    else ret node.

Definition required (this : schema) (key : string) (context : val) : M val :=
  method this "$determine"
    (dollar_determine this key "required" context (VBool false)).

Definition disabled (this : schema) (key : string) (context : val) : M val :=
  method this "$determine"
    (dollar_determine this key "disabled" context (VBool false)).

Definition readonly (this : schema) (key : string) (context : val) : M val :=
  method this "$determine"
    (dollar_determine this key "readonly" context (VBool false)).

(** [get(key, value, context)] *)
Definition get (this : schema) (key : string) (value context : val) : M val :=
  let def := field this key in
  if negb (truthy def) then ret value
  else
    let getter := prop def "getter" in
    let compute := prop def "compute" in
    let handle := prop def "catch" in
    if isFunction compute then invoke compute context []
    else if isFunction getter then
      method this "_trydo"
        (_trydo this (invoke getter context [value])
           (fun error => catch_or handle context error value)
           [("key", VStr key); ("meta", VStr "getter")] VUndef)
    else ret value.

(** The type check that [$set], [validate] and [parse] each spell out:
    a Rule is checked against [{ [key]: value }], any other type
    against the bare value. *)
Definition type_error (key : string) (value type : val) : M val :=
  let target :=
    if isUndefined value then [] else obj_assign [] [(key, value)] in
  if isInstanceOf type "Rule"
  then Ty.catch (VObj target) (VObj [(key, type)])
  else Ty.catch value type.

(** [this.onError({ ..., message: this.$message(key, meta, context)(given) })]:
    the message is resolved while the argument is built, before the call
    of [onError] is made. *)
Definition report (this : schema) (key meta : string) (context given : val)
  (err : val -> val) : M unit :=
  m <- method this "$message" (dollar_message this key meta context given) ;;
  method this "onError" (onError (err m)) ;;;
  ret tt.

(** The type check of [$set] and of [parse], which differ in the
    [action] they report: a value the type rejects is reported, with the
    error and the resolved message, and the operation goes on. *)
Definition type_step (this : schema) (key : string) (context def : val)
  (action : string) (value : val) : M unit :=
  let type := prop def "type" in
  let message := prop def "message" in
  if truthy type then
    error <- type_error key value type ;;
    if truthy error then
      report this key "type" context message
        (fun m => VObj [("key", VStr key); ("action", VStr action);
                        ("value", value); ("type", VBool true);
                        ("error", error); ("message", m)])
    else ret tt
  else ret tt.

(** [$set(key, value, context)] *)
Definition dollar_set (this : schema) (key : string) (value context : val)
  : M val :=
  let def := field this key in
  if negb (truthy def) then ret value
  else
    let setter := prop def "setter" in
    let compute := prop def "compute" in
    let handle := prop def "catch" in
    if truthy compute then
      report this key "compute" context VUndef
        (fun m => VObj [("key", VStr key); ("action", VStr "$set");
                        ("value", value); ("compute", VBool true);
                        ("message", m)]) ;;;
      invoke compute context []
    else
      value <- (if isFunction setter then
                  method this "_trydo"
                    (_trydo this (invoke setter context [value])
                       (fun error => catch_or handle context error value)
                       [("key", VStr key); ("meta", VStr "setter")] VUndef)
                else ret value) ;;
      type_step this key context def "$set" value ;;;
      ret value.

(** The object a refused [set] reports. *)
Definition refusal (key : string) (next prev : val) (meta : string)
  (message : val) : val :=
  VObj [("key", VStr key); ("action", VStr "set"); ("next", next);
        ("prev", prev); (meta, VBool true); ("message", message)].

(** [set(key, next, prev, context)] *)
Definition set (this : schema) (key : string) (next prev context : val)
  : M val :=
  let def := field this key in
  if negb (truthy def) then ret next
  else
    disabled_ <- method this "disabled" (disabled this key context) ;;
    if truthy disabled_ then
      report this key "disabled" context disabled_
        (refusal key next prev "disabled") ;;;
      ret prev
    else
      readonly_ <- method this "readonly" (readonly this key context) ;;
      if truthy readonly_ then
        report this key "readonly" context readonly_
          (refusal key next prev "readonly") ;;;
        ret prev
      else method this "$set" (dollar_set this key next context).

Definition typeof_object (v : val) : bool :=
  match v with
  | VNull | VArr _ | VObj _ | VInst _ _ => true
  | _ => false
  end.

Section Validators.
Variables (this : schema) (key : string) (value context handle : val).

Definition validator_meta (index : val) (part : string) : list (string * val) :=
  [("key", VStr key);
   ("meta", VStr ("validators[" ++ to_string index ++ "]." ++ part))].

(** Whether the inner [validate(validator, index, dontTry)] returns
    before it runs the validator: [determine] is [false], or a function
    that answers falsy. *)
Definition validator_skipped (validator index dontTry : val) : M bool :=
  let determine := js_get validator "determine" in
  if isBoolean determine && negb (truthy determine) then ret true
  else if isFunction determine then
    bool <- method this "_trydo"
              (_trydo this (invoke determine context [value; VStr key])
                 (fun error => catch_or handle context error (VBool false))
                 (validator_meta index "determine") dontTry) ;;
    ret (negb (truthy bool))
  else ret false.

(** [res], the outcome of the validator's [validate] function. *)
Definition validator_result (validator index dontTry : val) : M val :=
  method this "_trydo"
    (_trydo this
       (invoke (js_get validator "validate") context [value; VStr key])
       (fun error => catch_or handle context error (VBool true))
       (validator_meta index "validate") dontTry).

(** [msg], the message of the error made of a result [res]. *)
Definition validator_message (validator index dontTry res : val) : M val :=
  let message := js_get validator "message" in
  let msg :=
    if isInstanceOf res "Error" then js_get res "message" else VStr "" in
  msg <- (if isFunction message then
            method this "_trydo"
              (_trydo this (invoke message context [value; VStr key; res])
                 (fun error =>
                    catch_or handle context error
                      (js_or msg
                         (VStr (key ++ " did not pass validators["
                                    ++ to_string index ++ "]"))))
                 (validator_meta index "message") dontTry)
          else ret msg) ;;
  ret (if negb (truthy msg) && isString message then message else msg).

(** The inner [validate(validator, index, dontTry)] of [$validate]; it
    returns an error object or undefined.  The name [errors] it pushes
    an array result to is bound in no enclosing scope (it is a local of
    [validateByRange] and [validateByIndexes] and a parameter of
    [runOne]), so evaluating it is a ReferenceError. *)
Definition run_validator (validator index dontTry : val) : M val :=
  skipped <- validator_skipped validator index dontTry ;;
  if (skipped : bool) then ret VUndef
  else
    res <- validator_result validator index dontTry ;;
    if isBoolean res && truthy res then ret VUndef
    else if isArray res then
      throw (ReferenceError "errors is not defined")
    else
      msg <- validator_message validator index dontTry res ;;
      ret (VObj [("key", VStr key); ("value", value); ("at", index);
                 ("message", msg)]).

(** [runOne(dontTry, validators, i, errors)]; the list returned is
    [errors] after the call. *)
Definition runOne (dontTry validators i : val) (errors : list val)
  : M (list val) :=
  validator <- lift (member validators i) ;;
  if negb (truthy validator) then ret errors
  else
    error <- run_validator validator i dontTry ;;
    if truthy error then ret (errors ++ [error]) else ret errors.

(** [for (let i = start; i <= end; i ++) runOne(...)], with [n] rounds
    left. *)
Fixpoint range_loop (dontTry validators : val) (n : nat) (i : Z)
  (errors : list val) : M (list val) :=
  match n with
  | O => ret errors
  | S n' =>
      errors' <- runOne dontTry validators (VNum i) errors ;;
      range_loop dontTry validators n' (i + 1) errors'
  end.

(** [validateByRange(dontTry, validators, [start = 0, end =
    validators.length - 1])].  Between numbers the loop runs from [start]
    to [end], and not at all when the first comparison is false, as every
    comparison with NaN is.  A bound that is no number, and a loop that
    goes on for ever (to [Infinity], or from [-Infinity]), are left to the
    host. *)
Definition validateByRange (dontTry validators range : val) : M (list val) :=
  let start :=
    match js_index range 0 with VUndef => VNum 0 | v => v end in
  end_ <- match js_index range 1 with
          | VUndef =>
              len <- lift (member validators (VStr "length")) ;;
              lift (minus_one len)
          | v => ret v
          end ;;
  match start, end_ with
  | VNum a, VNum b => range_loop dontTry validators (Z.to_nat (b - a + 1)) a []
  | VNum _, VNaN | VNum _, VInf true => ret []
  | VNaN, VNum _ | VNaN, VNaN | VNaN, VInf _ => ret []
  | VInf false, VNum _ | VInf false, VNaN | VInf false, VInf true => ret []
  | VInf true, VNaN => ret []
  | _, _ => loop_other validators start end_
  end.

(** [validateByIndexes(dontTry, validators, ...indexes)] *)
Fixpoint each_index (dontTry validators : val) (indexes : list val)
  (errors : list val) : M (list val) :=
  match indexes with
  | [] => ret errors
  | i :: rest =>
      errors' <- runOne dontTry validators i errors ;;
      each_index dontTry validators rest errors'
  end.

Definition validateByIndexes (dontTry validators : val) (indexes : list val)
  : M (list val) :=
  each_index dontTry validators indexes [].

End Validators.

(** [$validate(key, value, context)(...args)]: the selector, applied. *)
Definition dollar_validate (this : schema) (key : string)
  (value context : val) (args : list val) : M (list val) :=
  let def := field this key in
  match def with
  | VUndef | VNull => throw (TypeError "Cannot destructure 'def'")
  | _ =>
      let handle := prop def "catch" in
      let validators :=
        match prop def "validators" with VUndef => VArr [] | v => v end in
      d <- method this "disabled" (disabled this key context) ;;
      if truthy d then ret []
      else
        let first := nth 0 args VUndef in
        if isArray first && truthy (js_index first 0)
           && typeof_object (js_index first 0)
        then validateByRange this key value context handle (VNum 1) first
               (VArr [])
        else if isArray first
        then validateByRange this key value context handle (VNum 0)
               validators first
        else if isNumber first
        then validateByIndexes this key value context handle (VNum 0)
               validators args
        else ret []
  end.

(** The type check of [validate]: the errors it pushes, none or one. *)
Definition type_errors (this : schema) (key : string) (value context : val)
  (def : val) : M (list val) :=
  let type := prop def "type" in
  let message := prop def "message" in
  if truthy type then
    error <- type_error key value type ;;
    if truthy error then
      m <- method this "$message"
             (dollar_message this key "type" context message) ;;
      ret [VObj [("key", VStr key); ("value", value); ("type", VBool true);
                 ("error", error); ("message", m)]]
    else ret []
  else ret [].

(** [validate(key, value, context)] *)
Definition validate (this : schema) (key : string) (value context : val)
  : M val :=
  let def := field this key in
  if negb (truthy def) then
    ret (VArr [VObj [("key", VStr key); ("value", value);
                     ("message",
                      VStr (key ++ " is not existing in schema."))]])
  else
    d <- method this "disabled" (disabled this key context) ;;
    if truthy d then ret (VArr [])
    else
      required_ <- method this "required" (required this key context) ;;
      if truthy required_ && isEmpty value then
        m <- method this "$message"
               (dollar_message this key "required" context required_) ;;
        ret (VArr [VObj [("key", VStr key); ("value", value);
                         ("required", VBool true); ("message", m)]])
      else
        errors <- type_errors this key value context def ;;
        errs <- method this "$validate"
                  (dollar_validate this key value context [VArr []]) ;;
        ret (VArr (errors ++ errs)).

Section ExportField.
Variables (this : schema) (data context : val) (key : string)
  (def : list (string * val)) (value : val).

(** The [flat] step of [export]: the patch after
    [Object.assign(patch, res)]. *)
Definition export_flat (patch : list (string * val)) : M (list (string * val)) :=
  let flat := prop (VObj def) "flat" in
  let handle := prop (VObj def) "catch" in
  if isFunction flat then
    res <- method this "_trydo"
             (_trydo this
                (r <- invoke flat context [value; VStr key; data] ;;
                 ret (js_or r (VObj [])))
                (fun error => catch_or handle context error (VObj []))
                [("key", VStr key); ("meta", VStr "flat")] VUndef) ;;
    ret (obj_assign patch (own_props res))
  else ret patch.

(** The [drop] step: whether the round returns without emitting. *)
Definition export_drop : M bool :=
  let drop := prop (VObj def) "drop" in
  let handle := prop (VObj def) "catch" in
  if isBoolean drop && truthy drop then ret true
  else if isFunction drop then
    bool <- method this "_trydo"
              (_trydo this (invoke drop context [value; VStr key; data])
                 (fun error => catch_or handle context error (VBool false))
                 [("key", VStr key); ("meta", VStr "drop")] VUndef) ;;
    ret (truthy bool)
  else ret false.

(** The [map] step: the value stored under [output[key]]. *)
Definition export_map : M val :=
  let map := prop (VObj def) "map" in
  let handle := prop (VObj def) "catch" in
  if isFunction map then
    method this "_trydo"
      (_trydo this (invoke map context [value; VStr key; data])
         (fun error => catch_or handle context error value)
         [("key", VStr key); ("meta", VStr "map")] VUndef)
  else ret value.

End ExportField.

(** One round of the [each(this, (def, key) => ...)] of [export], on the
    patch and the output built so far. *)
Definition export_field (this : schema) (data context : val) (key : string)
  (def : list (string * val))
  (acc : list (string * val) * list (string * val))
  : M (list (string * val) * list (string * val)) :=
  let (patch, output) := acc in
  value <- lift (member data (VStr key)) ;;
  patch <- export_flat this data context key def value patch ;;
  d <- method this "disabled" (disabled this key context) ;;
  if truthy d then ret (patch, output)
  else
    dropped <- export_drop this data context key def value ;;
    if (dropped : bool) then ret (patch, output)
    else
      res <- export_map this data context key def value ;;
      ret (patch, obj_set output key res).

Fixpoint export_fields (this : schema) (data context : val)
  (fields : schema) (acc : list (string * val) * list (string * val))
  : M (list (string * val) * list (string * val)) :=
  match fields with
  | [] => ret acc
  | (key, def) :: rest =>
      acc' <- export_field this data context key def acc ;;
      export_fields this data context rest acc'
  end.

(** [export(data, context)] *)
Definition export (this : schema) (data context : val) : M val :=
  acc <- export_fields this data context this ([], []) ;;
  ret (VObj (obj_assign (snd acc) (fst acc))).

(** [clone(value)] of ts-fns, on values that carry no reference: the
    copy is the value. *)
Definition clone (value : val) : val := value.

(** [$default(key)] *)
Definition dollar_default (this : schema) (key : string) : M val :=
  let def := field this key in
  match def with
  | VUndef | VNull => throw (TypeError "Cannot destructure 'def'")
  | _ =>
      let defaultValue := prop def "default" in
      if isFunction defaultValue then invoke defaultValue VUndef []
      else if isObject defaultValue || isArray defaultValue
      then ret (clone defaultValue)
      else ret defaultValue
  end.

(** One round of the [map(this, (def, key) => ...)] of [parse]: the
    value the field gets. *)
Definition parse_field (this : schema) (data context : val) (key : string)
  (def : list (string * val)) : M val :=
  let create := prop (VObj def) "create" in
  let handle := prop (VObj def) "catch" in
  value <- lift (member data (VStr key)) ;;
  coming <- (if isFunction create then
               method this "_trydo"
                 (_trydo this (invoke create context [data; VStr key; value])
                    (fun error => catch_or handle context error value)
                    [("key", VStr key); ("meta", VStr "create")] VUndef)
             else ret value) ;;
  coming <- (if isUndefined coming
             then method this "$default" (dollar_default this key)
             else ret coming) ;;
  type_step this key context (VObj def) "parse" coming ;;;
  ret coming.

Fixpoint parse_fields (this : schema) (data context : val) (fields : schema)
  : M (list (string * val)) :=
  match fields with
  | [] => ret []
  | (key, def) :: rest =>
      coming <- parse_field this data context key def ;;
      output <- parse_fields this data context rest ;;
      ret ((key, coming) :: output)
  end.

(** [parse(data, context)] *)
Definition parse (this : schema) (data context : val) : M val :=
  output <- parse_fields this data context this ;;
  ret (VObj output).

End WithHost.
End Schema.

(* ================================================================== *)
(** ** Default values and object identity ([Schema.$default]) *)

(** Whether two calls of [$default] hand out one object is a question
    about references, so the values here name the address of every array
    and object, and a computation runs from the next free address. *)
Module Refs.

Definition loc : Type := nat.

Inductive rval : Type :=
| RUndef
| RNull
| RBool (b : bool)
| RNum (n : Z)
| RStr (s : string)
| RFun (f : string)
| RArr (address : loc) (items : list rval)
| RObj (address : loc) (fields : list (string * rval))
| RInst (address : loc) (cls : string)    (* an object that is not plain *)
| RNative (f : string)                    (* a built-in function *)
| RClass (c : string).                    (* a class *)

Definition alloc (A : Type) : Type := loc -> A * loc.

(** [isFunction] of ts-fns: a function of the program; a built-in
    function or a class is none.  [isObject]: a plain object. *)
Definition isFunction (v : rval) : bool :=
  match v with RFun _ => true | _ => false end.
Definition isObject (v : rval) : bool :=
  match v with RObj _ _ => true | _ => false end.
Definition isArray (v : rval) : bool :=
  match v with RArr _ _ => true | _ => false end.

(** The elements of an array, and the members of an object, copied one
    after the other by [copy]. *)
Definition clone_items (copy : rval -> loc -> rval * loc)
  : list rval -> loc -> list rval * loc :=
  fix each (xs : list rval) (n : loc) : list rval * loc :=
    match xs with
    | [] => ([], n)
    | x :: rest =>
        let (x', n1) := copy x n in
        let (rest', n2) := each rest n1 in
        (x' :: rest', n2)
    end.

Definition clone_fields (copy : rval -> loc -> rval * loc)
  : list (string * rval) -> loc -> list (string * rval) * loc :=
  fix each (xs : list (string * rval)) (n : loc)
    : list (string * rval) * loc :=
    match xs with
    | [] => ([], n)
    | (k, x) :: rest =>
        let (x', n1) := copy x n in
        let (rest', n2) := each rest n1 in
        ((k, x') :: rest', n2)
    end.

(** [clone(value)] of ts-fns: a deep copy, in which every array and
    every plain object is a new one; anything else is kept as it is. *)
Fixpoint clone (v : rval) (next : loc) : rval * loc :=
  match v with
  | RArr _ items =>
      let copy := clone_items clone items (S next) in
      (RArr next (fst copy), snd copy)
  | RObj _ fields =>
      let copy := clone_fields clone fields (S next) in
      (RObj next (fst copy), snd copy)
  | _ => (v, next)
  end.

(** The addresses of the arrays and plain objects of a value. *)
Fixpoint addresses (v : rval) : list loc :=
  match v with
  | RArr a items => a :: flat_map addresses items
  | RObj a fields => a :: flat_map (fun kv => addresses (snd kv)) fields
  | _ => []
  end.

(** The value without its addresses of arrays and plain objects: what
    deep equality compares. *)
Fixpoint content (v : rval) : rval :=
  match v with
  | RArr _ items => RArr 0%nat (map content items)
  | RObj _ fields =>
      RObj 0%nat (map (fun kv => (fst kv, content (snd kv))) fields)
  | _ => v
  end.

(** The reference a value is, if it is an object. *)
Definition reference (v : rval) : option loc :=
  match v with
  | RArr a _ | RObj a _ | RInst a _ => Some a
  | _ => None
  end.

(** Induction on values, through the items of arrays and the members of
    objects. *)
Fixpoint rval_induction (P : rval -> Prop)
  (Hundef : P RUndef) (Hnull : P RNull) (Hbool : forall b, P (RBool b))
  (Hnum : forall n, P (RNum n)) (Hstr : forall s, P (RStr s))
  (Hfun : forall f, P (RFun f))
  (Harr : forall a items, Forall P items -> P (RArr a items))
  (Hobj : forall a fields,
      Forall (fun kv => P (snd kv)) fields -> P (RObj a fields))
  (Hinst : forall a c, P (RInst a c))
  (Hnative : forall f, P (RNative f)) (Hclass : forall c, P (RClass c))
  (v : rval) {struct v} : P v :=
  let rec := rval_induction P Hundef Hnull Hbool Hnum Hstr Hfun Harr Hobj
               Hinst Hnative Hclass in
  match v with
  | RUndef => Hundef
  | RNull => Hnull
  | RBool b => Hbool b
  | RNum n => Hnum n
  | RStr s => Hstr s
  | RFun f => Hfun f
  | RArr a items =>
      Harr a items
        ((fix all (xs : list rval) : Forall P xs :=
            match xs with
            | [] => Forall_nil P
            | x :: rest => Forall_cons x (rec x) (all rest)
            end) items)
  | RObj a fields =>
      Hobj a fields
        ((fix all (xs : list (string * rval))
            : Forall (fun kv => P (snd kv)) xs :=
            match xs with
            | [] => Forall_nil _
            | kv :: rest => Forall_cons kv (rec (snd kv)) (all rest)
            end) fields)
  | RInst a c => Hinst a c
  | RNative f => Hnative f
  | RClass c => Hclass c
  end.

Definition schema : Type := list (string * list (string * rval)).

Fixpoint own (this : schema) (key : string) : option (list (string * rval)) :=
  match this with
  | [] => None
  | (k, def) :: rest => if String.eqb key k then Some def else own rest key
  end.

Fixpoint rprop (def : list (string * rval)) (k : string) : rval :=
  match def with
  | [] => RUndef
  | (k', v) :: rest => if String.eqb k k' then v else rprop rest k
  end.

Section WithFunctions.
(** [f()] for a function a definition gives as its default. *)
Variable call : string -> alloc (res rval).

(** [$default(key)] *)
Definition dollar_default (this : schema) (key : string) : alloc (res rval) :=
  fun next =>
    match own this key with
    | Some def =>
        let defaultValue := rprop def "default" in
        match defaultValue with
        | RFun f => call f next
        | _ =>
            if isObject defaultValue || isArray defaultValue
            then let (copy, next') := clone defaultValue next in
                 (Ret copy, next')
            else (Ret defaultValue, next)
        end
    | None =>
        (* a member found on the prototype chain has no [default];
           nothing at all cannot be destructured *)
        match Schema.field [] key with
        | VUndef => (Throw (TypeError "Cannot destructure 'def'"), next)
        | _ => (Ret RUndef, next)
        end
    end.

End WithFunctions.
End Refs.

(* ================================================================== *)
(** ** A host and a schema to run the model on *)

Module Demo.

(** The functions the definitions below name. *)
Definition functions (name : string) (receiver : val) (args : list val)
  : res val :=
  if String.eqb name "boom" then Throw (VStr "boom")
  else if String.eqb name "rethrow" then Throw (VStr "handler failed")
  else if String.eqb name "yes" then Ret (VBool true)
  else if String.eqb name "no" then Ret (VBool false)
  else if String.eqb name "fullName" then Ret (VStr "Ada Lovelace")
  else if String.eqb name "nested" then
    Ret (VArr [VObj [("key", VStr "age"); ("message", VStr "too young")]])
  else if String.eqb name "names" then
    Ret (VObj [("firstName", VStr "Ada"); ("lastName", VStr "Lovelace")])
  else if String.eqb name "upper" then Ret (VStr "ADA")
  else if String.eqb name "String" then Ret (VStr (to_string (nth 0 args VUndef)))
  else Ret VUndef.

Definition host : Host := {|
  call := functions;
  onError_hook := fun _ => VUndef;
  validate_nested := fun _ _ _ => Ret VNull;
  assert_other := fun _ _ => Ret tt;
  Rule_validate2 := fun _ _ _ _ => Ret VNull;
  makeError := fun error _ => error;
  isConstructor := fun _ => false;
  RegExp_test := fun _ _ => false;
  inherited := fun _ _ => VUndef;
  member_other := fun _ _ => Ret VUndef;
  ToNumber_other := fun _ => Ret VNaN;
  loop_other := fun _ _ _ => ret []
|}.

Definition person : Schema.schema :=
  Schema.new
    [("name", VObj [("default", VStr "");
                    ("validators",
                     VArr [VObj [("validate", VFun "no");
                                 ("message", VStr "too long")]])]);
     ("full", VObj [("compute", VFun "fullName")]);
     ("frozen", VObj [("default", VNum 0); ("disabled", VBool true)]);
     ("fixed", VObj [("default", VNum 0); ("readonly", VStr "no edits")]);
     ("locked", VObj [("disabled",
                       VObj [("determine", VBool true);
                             ("message", VFun "boom")]);
                      ("catch", VFun "rethrow")]);
     ("guarded", VObj [("disabled", VFun "boom"); ("catch", VFun "rethrow")]);
     ("flaky", VObj [("disabled", VFun "boom"); ("catch", VFun "no")]);
     ("children", VObj [("validators", VArr [VObj [("validate", VFun "nested")]])]);
     ("version", VNum 3)].

(** The serialization scenario of the specification. *)
Definition account : Schema.schema :=
  Schema.new
    [("password", VObj [("drop", VBool true)]);
     ("profile", VObj [("flat", VFun "names"); ("drop", VBool true)]);
     ("nick", VObj [("map", VFun "upper")]);
     ("age", VObj [("default", VNum 0)])].

Definition account_data : val :=
  VObj [("password", VStr "secret");
        ("profile", VObj [("f", VStr "Ada"); ("l", VStr "Lovelace")]);
        ("nick", VStr "ada");
        ("age", VNum 36)].

Definition context : val := VObj [].

(** [new Tuple([Number, String])] *)
Definition pair : val :=
  Types.subtype "Tuple" (VArr [VNative "Number"; VNative "String"]).

End Demo.

(** A schema whose [tags] field has an array for default, with the
    objects of that default at the addresses 0 to 2. *)
Module RefsDemo.

Definition tags : Refs.rval :=
  Refs.RArr 0%nat
    [Refs.RStr "new";
     Refs.RObj 1%nat [("label", Refs.RStr "draft");
                      ("marks", Refs.RArr 2%nat [Refs.RNum 1])]].

Definition article : Refs.schema :=
  [("title", [("default", Refs.RStr "")]);
   ("tags", [("default", tags)]);
   ("stamp", [("default", Refs.RFun "now")])].

(** [Number()] is 0; any other function here gives a new Date. *)
Definition functions (f : string) : Refs.alloc (res Refs.rval) :=
  fun next =>
    if String.eqb f "Number" then (Ret (Refs.RNum 0), next)
    else (Ret (Refs.RInst next "Date"), S next).

(** [{ kind: { default: Number }, born: { default: new Date() } }], the
    Date at the address 0. *)
Definition record : Refs.schema :=
  [("kind", [("default", Refs.RNative "Number")]);
   ("born", [("default", Refs.RInst 0%nat "Date")])].

End RefsDemo.

(** A second schema, a form: a required field, a field with three
    validators, a typed field with a setter, fields that are read-only,
    disabled, computed or have a getter, and one whose validator
    throws. *)
Module Form.

Definition functions (name : string) (receiver : val) (args : list val)
  : res val :=
  if String.eqb name "fail" then Throw (VStr "broken")
  else if String.eqb name "reject" then Ret (VBool false)
  else if String.eqb name "accept" then Ret (VBool true)
  else if String.eqb name "count" then Ret (VNum 3)
  else if String.eqb name "total" then Ret (VNum 42)
  else if String.eqb name "now" then Ret (VNum 1700)
  else Ret VUndef.

(** [assert] of a Type that is neither a Tuple nor a List throws the
    error that validating the value against its pattern gives. *)
Definition host : Host := {|
  call := functions;
  onError_hook := fun _ => VUndef;
  validate_nested := fun _ _ _ => Ret VNull;
  assert_other :=
    fun type value =>
      match Types.Type_validate (host := Demo.host) type value
              (prop type "pattern") with
      | Ret error => if truthy error then Throw error else Ret tt
      | Throw e => Throw e
      end;
  Rule_validate2 := fun _ _ _ _ => Ret VNull;
  makeError := fun error _ => error;
  isConstructor := fun _ => false;
  RegExp_test := fun _ _ => false;
  inherited := fun _ _ => VUndef;
  member_other := fun _ _ => Ret VUndef;
  ToNumber_other := fun _ => Ret VNaN;
  loop_other := fun _ _ _ => ret []
|}.

Definition checks : list val :=
  [VObj [("validate", VFun "reject"); ("message", VStr "first")];
   VObj [("validate", VFun "accept"); ("message", VStr "second")];
   VObj [("validate", VFun "reject"); ("message", VStr "third")]].

Definition breaking : val := VObj [("validate", VFun "fail")].

Definition defs : list (string * val) :=
  [("email", VObj [("default", VStr ""); ("required", VStr "Fill it in")]);
   ("code", VObj [("default", VStr "x"); ("validators", VArr checks)]);
   ("nick", VObj [("default", VStr ""); ("setter", VFun "count");
                  ("type", VNative "String");
                  ("message", VStr "it should be a string")]);
   ("seal", VObj [("default", VStr ""); ("readonly", VBool true)]);
   ("gone", VObj [("default", VStr ""); ("disabled", VStr "switched off")]);
   ("shown", VObj [("default", VStr ""); ("getter", VFun "fail")]);
   ("sum", VObj [("compute", VFun "total")]);
   ("stamp", VObj [("compute", VNative "now")]);
   ("risky", VObj [("default", VStr ""); ("validators", VArr [breaking])]);
   ("held", VObj [("default", VStr "");
                  ("disabled", VObj [("determine", VFun "accept");
                                     ("message", VStr "held back")])]);
   ("note", VStr "not a definition")].

Definition form : Schema.schema := Schema.new defs.

(** A schema of plain definitions, and data for it. *)
Definition card : Schema.schema :=
  Schema.new
    [("title", VObj [("default", VStr "untitled")]);
     ("size", VObj [("default", VNum 1)])].

Definition card_data : val :=
  VObj [("size", VNum 3); ("colour", VStr "red")].

Definition context : val := VObj [].

Definition listeners : Ty.instance :=
  {| Ty._listeners := [VFun "log"; VFun "warn"]; Ty._silent := true |}.

End Form.

(** Schemas with a field that has the name of a method of the class,
    and schemas whose metas are not what the class takes them for. *)
Module Shadow.

(** A field [disabled] beside a field [name]. *)
Definition switch : Schema.schema :=
  Schema.new
    [("name", VObj [("default", VStr "")]);
     ("disabled", VObj [("default", VBool false)])].

(** A field [onError] beside a computed field and a field whose getter
    throws. *)
Definition log : Schema.schema :=
  Schema.new
    [("full", VObj [("compute", VFun "fullName")]);
     ("shown", VObj [("getter", VFun "boom")]);
     ("onError", VObj [("default", VNull)])].

(** [drop: 1], and [map: String], the built-in function. *)
Definition kept : Schema.schema :=
  Schema.new
    [("a", VObj [("drop", VNum 1)]);
     ("b", VObj [("map", VNative "String")])].

Definition kept_data : val := VObj [("a", VNum 5); ("b", VNum 6)].


End Shadow.

(* ================================================================== *)
(** ** Vocabulary of the statements *)

(** [m] returns [a] from every trace, adding [delta] to it. *)
Definition settles {A} (m : M A) (a : A) (delta : trace) : Prop :=
  forall t, m t = (Ret a, t ++ delta).

(** [m] ends the same way from every trace, adding the same events. *)
Definition steady {A} (m : M A) : Prop :=
  exists r delta, forall t, m t = (r, t ++ delta).

(** The field's [catch] handler, when it is a function, returns for
    every error it is given. *)
Definition handler_returns {host : Host} (handle context : val) : Prop :=
  match handle with
  | VFun h => forall error, exists r, call h context [error] = Ret r
  | _ => True
  end.

(** What becomes of an error [e] thrown by the meta function [meta] of
    the field [key], in the words of the error routing contract: it is
    put in an object with the key and the meta name, that object is
    reported to [onError] once, what [onError] returns takes its place
    unless it is falsy, and the result is given to the field's [catch]
    handler when that is a function; the value is what the handler
    returns, or [dflt] when there is no handler or its result is
    falsy. *)
Definition routed {host : Host} (key meta : string)
  (handle context e dflt : val) : M val :=
  fun t =>
    let err := VObj [("key", VStr key); ("meta", VStr meta); ("error", e)] in
    let e' := js_or (onError_hook err) err in
    if isFunction handle then
      match apply_to handle context [e'] with
      | Ret r => (Ret (js_or r dflt), t ++ [Reported err])
      | Throw x => (Throw x, t ++ [Reported err])
      end
    else (Ret dflt, t ++ [Reported err]).

(** The validators the runner takes from a definition:
    [validators = []] stands in for a meta that is absent. *)
Definition validators_of (def : val) : val :=
  match prop def "validators" with VUndef => VArr [] | v => v end.

(** [validators[i]] *)
Definition entry {host : Host} (validators : val) (i : nat) : val :=
  match member validators (VNum (Z.of_nat i)) with
  | Ret v => v
  | Throw _ => VUndef
  end.

(** What the loop over all the validators reads: the entries at the
    indexes from 0 to [end_]; none when [end_], which is
    [validators.length - 1], is NaN or below 0. *)
Definition entries {host : Host} (validators end_ : val) : list val :=
  match end_ with
  | VNum b => map (entry validators) (seq 0 (Z.to_nat (b + 1)))
  | _ => []
  end.

(** The validators of a list run one after the other, the first at index
    [i], each error joining [errors]; an entry that is falsy is passed
    over. *)
Fixpoint in_order {host : Host} (this : Schema.schema) (key : string)
  (value context handle : val) (validators : list val) (i : Z)
  (errors : list val) : M (list val) :=
  match validators with
  | [] => ret errors
  | validator :: rest =>
      errors' <- (if truthy validator then
                    error <- Schema.run_validator this key value context
                               handle validator (VNum i) (VNum 0) ;;
                    ret (if truthy error then errors ++ [error] else errors)
                  else ret errors) ;;
      in_order this key value context handle rest (i + 1) errors'
  end.

(** What a copy is: the same content, at addresses that were free. *)
Definition fresh_copy (v : Refs.rval) (n : Refs.loc) (v' : Refs.rval)
  (n' : Refs.loc) : Prop :=
  (n <= n')%nat
  /\ Refs.content v' = Refs.content v
  /\ Forall (fun a => (n <= a < n')%nat) (Refs.addresses v').

(** What [unbind] comes to, read along the list: an item identical to
    [fn] is taken out, and the item that follows it, moved into the index
    just visited, is kept without being looked at. *)
Fixpoint unbind_skipping (listeners : list val) (fn : val) : list val :=
  match listeners with
  | [] => []
  | item :: rest =>
      if strict_eq item fn then
        match rest with
        | [] => []
        | next :: rest' => next :: unbind_skipping rest' fn
        end
      else item :: unbind_skipping rest fn
  end.

(** No two listeners in a row are both identical to [fn]. *)
Fixpoint apart (listeners : list val) (fn : val) : Prop :=
  match listeners with
  | [] => True
  | item :: rest =>
      match rest with
      | [] => True
      | next :: _ =>
          (strict_eq item fn = true -> strict_eq next fn = false)
          /\ apart rest fn
      end
  end.

(** The check [Tuple.prototype.assert] makes on the item at index [i]:
    [pattern.validate2(value, i, items)] for a Rule, and
    [this.validate(value, pattern)] otherwise, with [pattern] being
    [patterns[i]]. *)
Definition item_check {host : Host} (this patterns : val) (items : list val)
  (i : nat) (value : val) : res val :=
  let pattern := js_index patterns i in
  if isInstanceOf pattern "Rule" then Rule_validate2 pattern value i items
  else Types.Type_validate this value pattern.

(** The check returns, and what it returns is no error. *)
Definition item_passes {host : Host} (this patterns : val) (items : list val)
  (i : nat) (value : val) : Prop :=
  exists error,
    item_check this patterns items i value = Ret error
    /\ truthy error = false.

(** A meta given as a plain value: neither a function nor an object
    with a [determine] member. *)
Definition plain_meta (node : val) : Prop :=
  isObject node = false /\ isFunction node = false.

(** The message a refusal or a [required] error carries for a meta given
    as a plain value: the value itself when it is a string, the default
    message of the meta otherwise. *)
Definition plain_message (node : val) (default : string) : val :=
  if isString node then node else VStr default.

(** A definition [parse] takes the stored value or the default for:
    no [create] function, no default function, no type. *)
Definition plain_for_parse (def : list (string * val)) : Prop :=
  isFunction (prop (VObj def) "create") = false
  /\ isFunction (prop (VObj def) "default") = false
  /\ truthy (prop (VObj def) "type") = false.


(** What [parse] gives a field of a plain definition: what the data has
    under the key, as an own property or from its prototype chain, or the
    default when that is undefined. *)
Definition stored_or_default {host : Host} (data : val)
  (kd : string * list (string * val)) : string * val :=
  (fst kd,
   if isUndefined (js_get data (fst kd)) then prop (VObj (snd kd)) "default"
   else js_get data (fst kd)).



(** No field of the schema has the name of one of the methods [names]:
    each call [this.m(...)] with [m] among them reaches the method of the
    class. *)
Definition unshadowed (this : Schema.schema) (names : list string) : bool :=
  forallb (fun m => match Schema.own this m with
                    | None => true
                    | Some _ => false
                    end) names.

(** No string occurs twice. *)
Fixpoint distinct (keys : list string) : bool :=
  match keys with
  | [] => true
  | k :: rest => negb (existsb (String.eqb k) rest) && distinct rest
  end.

(* ================================================================== *)
(** * Properties *)

(** ** The monad *)

Lemma bind_Ret {A B} (m : M A) (k : A -> M B) t a t' :
  m t = (Ret a, t') -> bind m k t = k a t'.
Proof. intros H. unfold bind. now rewrite H. Qed.

Lemma bind_Throw {A B} (m : M A) (k : A -> M B) t e t' :
  m t = (Throw e, t') -> bind m k t = (Throw e, t').
Proof. intros H. unfold bind. now rewrite H. Qed.

Lemma bind_ret {A B} (a : A) (k : A -> M B) t : bind (ret a) k t = k a t.
Proof. reflexivity. Qed.

Lemma bind_congr {A B} (m m' : M A) (k k' : A -> M B) t :
  m t = m' t -> (forall a t', k a t' = k' a t') -> bind m k t = bind m' k' t.
Proof.
  intros Hm Hk. unfold bind. rewrite Hm.
  destruct (m' t) as [[a | e] t']; auto.
Qed.

Lemma bind_inv {A B} (m : M A) (k : A -> M B) t b t2 :
  bind m k t = (Ret b, t2) ->
  exists a t1, m t = (Ret a, t1) /\ k a t1 = (Ret b, t2).
Proof.
  unfold bind. destruct (m t) as [[a | e] t1]; intros H.
  - now exists a, t1.
  - discriminate.
Qed.

(** ** The schema *)

Section SchemaFacts.
Context {host : Host}.

Lemma field_own this key def :
  Schema.own this key = Some def -> Schema.field this key = VObj def.
Proof. intros H. unfold Schema.field. now rewrite H. Qed.

(** A call through [this]: it reaches the method of the class unless a
    field has the name, and then it throws. *)
Lemma method_run {A} this m (body : M A) :
  Schema.own this m = None -> Schema.method this m body = body.
Proof. intros H. unfold Schema.method. now rewrite H. Qed.

Lemma method_shadowed {A} this m def (body : M A) t :
  Schema.own this m = Some def ->
  Schema.method this m body t
  = (Throw (TypeError ("this." ++ m ++ " is not a function")), t).
Proof. intros H. unfold Schema.method. now rewrite H. Qed.

Lemma unshadowed_own this names m :
  unshadowed this names = true -> In m names -> Schema.own this m = None.
Proof.
  unfold unshadowed. rewrite forallb_forall. intros H Hin.
  specialize (H m Hin). now destruct (Schema.own this m).
Qed.

Lemma unshadowed_sub this names names' :
  unshadowed this names = true ->
  (forall m, In m names' -> In m names) ->
  unshadowed this names' = true.
Proof.
  unfold unshadowed. rewrite !forallb_forall. intros H Hsub m Hin.
  apply H. now apply Hsub.
Qed.

Lemma onError_run err t :
  Schema.onError err t = (Ret (onError_hook err), t ++ [Reported err]).
Proof. reflexivity. Qed.

Lemma bind_ret_r {A} (m : M A) t : bind m ret t = m t.
Proof. unfold bind, ret. now destruct (m t) as [[a | e] t']. Qed.

(** [{ ...basic, error }] *)
Lemma basic_error key meta e :
  obj_set [("key", VStr key); ("meta", VStr meta)] "error" e
  = [("key", VStr key); ("meta", VStr meta); ("error", e)].
Proof. reflexivity. Qed.

(** What [_trydo] does, case by case. *)
Lemma trydo_force this fn fallback basic force t :
  truthy force = true -> Schema._trydo this fn fallback basic force t = fn t.
Proof. intros H. unfold Schema._trydo. now rewrite H. Qed.

Lemma trydo_Ret this fn fallback basic force t a t' :
  fn t = (Ret a, t') ->
  Schema._trydo this fn fallback basic force t = (Ret a, t').
Proof.
  intros H. unfold Schema._trydo, try_catch.
  destruct (truthy force); now rewrite H.
Qed.

Lemma trydo_Throw this fn fallback basic force t e t' :
  Schema.own this "onError" = None ->
  truthy force = false ->
  fn t = (Throw e, t') ->
  Schema._trydo this fn fallback basic force t
  = fallback (js_or (onError_hook (VObj (obj_set basic "error" e)))
                (VObj (obj_set basic "error" e)))
      (t' ++ [Reported (VObj (obj_set basic "error" e))]).
Proof.
  intros Ho Hf H. unfold Schema._trydo, try_catch. rewrite Hf, H.
  rewrite (method_run _ _ _ Ho). reflexivity.
Qed.

(** With a field named [onError], the error is not routed: the call of
    the field throws. *)
Lemma trydo_shadowed this fn fallback basic force t e t' def :
  Schema.own this "onError" = Some def ->
  truthy force = false ->
  fn t = (Throw e, t') ->
  Schema._trydo this fn fallback basic force t
  = (Throw (TypeError "this.onError is not a function"), t').
Proof.
  intros Ho Hf H. unfold Schema._trydo, try_catch. rewrite Hf, H.
  unfold bind. now rewrite (method_shadowed _ _ _ _ _ Ho).
Qed.

(** Every call site gives [_trydo] a fallback built from the field's
    [catch] handler: the thrown error is routed. *)
Lemma trydo_routes this key meta handle context dflt fn force t e t' :
  Schema.own this "onError" = None ->
  truthy force = false ->
  fn t = (Throw e, t') ->
  Schema._trydo this fn
    (fun error => Schema.catch_or handle context error dflt)
    [("key", VStr key); ("meta", VStr meta)] force t
  = routed key meta handle context e dflt t'.
Proof.
  intros Ho Hf H.
  rewrite (trydo_Throw this fn _ _ force t e t' Ho Hf H).
  rewrite basic_error. unfold routed, Schema.catch_or.
  destruct (isFunction handle); [| reflexivity].
  unfold bind, invoke, lift, ret.
  now destruct (apply_to handle context _).
Qed.

(** A report: the message is resolved, then [onError] is called. *)
Lemma report_run this key meta context given err m t t' :
  unshadowed this ["$message"; "onError"] = true ->
  Schema.dollar_message this key meta context given t = (Ret m, t') ->
  Schema.report this key meta context given err t
  = (Ret tt, t' ++ [Reported (err m)]).
Proof.
  intros Hun Hm. unfold Schema.report.
  rewrite (method_run this "$message")
    by (apply (unshadowed_own _ _ _ Hun); cbn; tauto).
  rewrite (bind_Ret _ _ _ _ _ Hm).
  rewrite (method_run this "onError")
    by (apply (unshadowed_own _ _ _ Hun); cbn; tauto).
  now rewrite (bind_Ret _ _ _ _ _ (onError_run _ _)).
Qed.

(** [$set] on a field whose [compute] is a function: the error is
    reported, then the function is called. *)
Lemma dollar_set_compute this key def f value context t :
  Schema.own this key = Some def ->
  (prop (VObj def) "compute" = VFun f
   \/ prop (VObj def) "compute" = VNative f) ->
  unshadowed this ["$message"; "onError"] = true ->
  Schema.dollar_set this key value context t
  = (call f context [],
     t ++ [Reported
             (VObj [("key", VStr key); ("action", VStr "$set");
                    ("value", value); ("compute", VBool true);
                    ("message",
                     VStr (key ++ " can not be set new value because it is a computed property."))])]).
Proof.
  intros Hown Hcompute Hun.
  assert (Hm : Schema.dollar_message this key "compute" context VUndef t
               = (Ret (VStr (key ++ " can not be set new value because it is a computed property.")),
                  t)).
  { unfold Schema.dollar_message. rewrite (field_own _ _ _ Hown).
    destruct Hcompute as [-> | ->]; reflexivity. }
  unfold Schema.dollar_set. rewrite (field_own _ _ _ Hown).
  cbn [truthy negb].
  replace (truthy (prop (VObj def) "compute")) with true
    by (destruct Hcompute as [-> | ->]; reflexivity).
  rewrite (bind_Ret _ _ _ _ _ (report_run _ _ _ _ _ _ _ _ _ Hun Hm)).
  unfold invoke, lift, apply_to.
  destruct Hcompute as [-> | ->]; reflexivity.
Qed.

Lemma invoke_Throw f name receiver args e t :
  f = VFun name -> call name receiver args = Throw e ->
  invoke f receiver args t = (Throw e, t).
Proof. intros -> H. unfold invoke, lift, apply_to. now rewrite H. Qed.

Lemma invoke_Ret f name receiver args r t :
  f = VFun name -> call name receiver args = Ret r ->
  invoke f receiver args t = (Ret r, t).
Proof. intros -> H. unfold invoke, lift, apply_to. now rewrite H. Qed.

End SchemaFacts.

Section SchemaClaims.
Context {host : Host}.

(** C5, as amended.  On a schema that has no field named [_trydo] or
    [onError], every meta function the class calls through [_trydo] is
    routed when it throws: the getter in [get], the setter in [$set], the
    [create] function in [parse], the [flat], [drop] and [map] functions
    in [export], the function of a [required], [disabled] or [readonly]
    meta (the meta itself or its [determine] member) in [$determine], the
    [message] function of such a meta in [$message], and the [determine],
    [validate] and [message] functions of a validator.  The error is put
    in an object with the key and the meta name, that object is reported
    to [onError] exactly once, what [onError] returns takes its place
    unless it is falsy, and the result is given to the field's [catch]
    handler when that is a function; the value the call site goes on with
    is what the handler returns, or the default of the call site when
    there is no handler or its result is falsy.  With the force flag,
    which the validator runner alone passes on, the function runs bare
    and its exception reaches the caller. *)
Theorem trydo_routes_thrown_error :
  forall (this : Schema.schema) (key : string) (def : list (string * val))
         (f : string) (e context : val) (t : trace),
    Schema.own this key = Some def ->
    unshadowed this ["_trydo"; "onError"] = true ->
    let handle := prop (VObj def) "catch" in
    (* the wrapper *)
    (forall fn fallback meta force t',
        fn t = (Throw e, t') ->
        let err :=
          VObj [("key", VStr key); ("meta", VStr meta); ("error", e)] in
        Schema._trydo this fn fallback
          [("key", VStr key); ("meta", VStr meta)] force t
        = if truthy force then (Throw e, t')
          else fallback (js_or (onError_hook err) err) (t' ++ [Reported err]))
    (* determine *)
    /\ (forall meta fallbackRes,
           (prop (VObj def) meta = VFun f
            \/ (isObject (prop (VObj def) meta) = true
                /\ prop (prop (VObj def) meta) "determine" = VFun f)) ->
           call f context [] = Throw e ->
           Schema.dollar_determine this key meta context fallbackRes t
           = routed key meta handle context e fallbackRes t)
    (* message *)
    /\ (forall meta given,
           isObject (prop (VObj def) meta) = true ->
           prop (prop (VObj def) meta) "message" = VFun f ->
           isString given = false ->
           call f context [VStr meta] = Throw e ->
           Schema.dollar_message this key meta context given t
           = routed key "message" handle context e
               (VStr (interpolate
                        match Schema.template_of meta Schema.defualtMessages
                        with
                        | Some template => template
                        | None => ("{key} " ++ meta ++ " error.")%string
                        end key)) t)
    (* getter *)
    /\ (forall value,
           isFunction (prop (VObj def) "compute") = false ->
           prop (VObj def) "getter" = VFun f ->
           call f context [value] = Throw e ->
           Schema.get this key value context t
           = routed key "getter" handle context e value t)
    (* setter *)
    /\ (forall value,
           truthy (prop (VObj def) "compute") = false ->
           prop (VObj def) "setter" = VFun f ->
           call f context [value] = Throw e ->
           Schema.dollar_set this key value context t
           = (v <- routed key "setter" handle context e value ;;
              Schema.type_step this key context (VObj def) "$set" v ;;;
              ret v) t)
    (* create *)
    /\ (forall data value,
           member data (VStr key) = Ret value ->
           prop (VObj def) "create" = VFun f ->
           call f context [data; VStr key; value] = Throw e ->
           Schema.parse_field this data context key def t
           = (coming <- routed key "create" handle context e value ;;
              coming <- (if isUndefined coming
                         then Schema.method this "$default"
                                (Schema.dollar_default this key)
                         else ret coming) ;;
              Schema.type_step this key context (VObj def) "parse" coming ;;;
              ret coming) t)
    (* flat, drop, map *)
    /\ (forall data value patch,
           prop (VObj def) "flat" = VFun f ->
           call f context [value; VStr key; data] = Throw e ->
           Schema.export_flat this data context key def value patch t
           = (res <- routed key "flat" handle context e (VObj []) ;;
              ret (obj_assign patch (own_props res))) t)
    /\ (forall data value,
           prop (VObj def) "drop" = VFun f ->
           call f context [value; VStr key; data] = Throw e ->
           Schema.export_drop this data context key def value t
           = (bool <- routed key "drop" handle context e (VBool false) ;;
              ret (truthy bool)) t)
    /\ (forall data value,
           prop (VObj def) "map" = VFun f ->
           call f context [value; VStr key; data] = Throw e ->
           Schema.export_map this data context key def value t
           = routed key "map" handle context e value t)
    (* validators, and the force flag *)
    /\ (forall validator index dontTry value,
           let part := fun p =>
             ("validators[" ++ to_string index ++ "]." ++ p)%string in
           (js_get validator "determine" = VFun f ->
            call f context [value; VStr key] = Throw e ->
            Schema.validator_skipped this key value context handle validator
              index dontTry t
            = if truthy dontTry then (Throw e, t)
              else (bool <- routed key (part "determine") handle context e
                              (VBool false) ;;
                    ret (negb (truthy bool))) t)
           /\ (apply_to (js_get validator "validate") context
                 [value; VStr key] = Throw e ->
               Schema.validator_result this key value context handle
                 validator index dontTry t
               = if truthy dontTry then (Throw e, t)
                 else routed key (part "validate") handle context e
                        (VBool true) t)
           /\ (forall res,
                  js_get validator "message" = VFun f ->
                  call f context [value; VStr key; res] = Throw e ->
                  Schema.validator_message this key value context handle
                    validator index dontTry res t
                  = if truthy dontTry then (Throw e, t)
                    else routed key (part "message") handle context e
                           (js_or (if isInstanceOf res "Error"
                                   then js_get res "message" else VStr "")
                              (VStr (key ++ " did not pass validators["
                                         ++ to_string index ++ "]"))) t)).
Proof.
  intros this key def f e context t Hown Hun handle.
  assert (Htry : Schema.own this "_trydo" = None)
    by (apply (unshadowed_own _ _ _ Hun); cbn; tauto).
  assert (Herr : Schema.own this "onError" = None)
    by (apply (unshadowed_own _ _ _ Hun); cbn; tauto).
  split; [| split; [| split; [| split; [| split; [| split; [| split;
    [| split; [| split]]]]]]]].
  - intros fn fallback meta force t' Hfn err.
    destruct (truthy force) eqn:Hforce.
    + now rewrite trydo_force.
    + rewrite (trydo_Throw this fn fallback _ force t e t' Herr Hforce Hfn).
      now rewrite basic_error.
  - intros meta fallbackRes Hnode Hcall. unfold Schema.dollar_determine.
    rewrite (field_own _ _ _ Hown).
    assert (Hin : inObject meta (VObj def) = true).
    { unfold prop in Hnode. unfold inObject.
      destruct (lookup meta def); [reflexivity |].
      destruct Hnode as [H | [H _]]; discriminate. }
    rewrite Hin. cbn [truthy negb]. rewrite !(method_run _ _ _ Htry).
    destruct Hnode as [Hnode | [Hobj Hdet]].
    + rewrite Hnode. cbn [isObject isFunction].
      apply trydo_routes; auto. now apply invoke_Throw with (name := f).
    + rewrite Hobj, Hdet. cbn [isFunction].
      apply trydo_routes; auto. now apply invoke_Throw with (name := f).
  - intros meta given Hobj Hmsg Hgiven Hcall. unfold Schema.dollar_message.
    rewrite (field_own _ _ _ Hown). cbn [truthy negb].
    destruct (prop (VObj def) meta) as [| | | | | | | | | | node | | |] eqn:Hnode;
      try discriminate.
    cbn [truthy negb isBoolean isString isFunction isObject andb].
    rewrite Hgiven, Hmsg. cbn [truthy isFunction].
    rewrite !(method_run _ _ _ Htry).
    apply trydo_routes; auto. now apply invoke_Throw with (name := f).
  - intros value Hcompute Hgetter Hcall. unfold Schema.get.
    rewrite (field_own _ _ _ Hown). cbn [truthy negb].
    rewrite Hcompute, Hgetter. cbn [isFunction].
    rewrite !(method_run _ _ _ Htry).
    apply trydo_routes; auto. now apply invoke_Throw with (name := f).
  - intros value Hcompute Hsetter Hcall. unfold Schema.dollar_set.
    rewrite (field_own _ _ _ Hown). cbn [truthy negb].
    rewrite Hcompute, Hsetter. cbn [isFunction].
    rewrite !(method_run _ _ _ Htry).
    apply bind_congr; [| reflexivity].
    apply trydo_routes; auto. now apply invoke_Throw with (name := f).
  - intros data value Hvalue Hcreate Hcall. unfold Schema.parse_field.
    rewrite (bind_Ret _ _ t value t) by (unfold lift; now rewrite Hvalue).
    rewrite Hcreate. cbn [isFunction]. rewrite !(method_run _ _ _ Htry).
    apply bind_congr; [| reflexivity].
    apply trydo_routes; auto. now apply invoke_Throw with (name := f).
  - intros data value patch Hflat Hcall. unfold Schema.export_flat.
    rewrite Hflat. cbn [isFunction]. rewrite !(method_run _ _ _ Htry).
    apply bind_congr; [| reflexivity].
    apply trydo_routes; auto. apply bind_Throw.
    now apply invoke_Throw with (name := f).
  - intros data value Hdrop Hcall. unfold Schema.export_drop.
    rewrite Hdrop. cbn [isBoolean isFunction andb].
    rewrite !(method_run _ _ _ Htry).
    apply bind_congr; [| reflexivity].
    apply trydo_routes; auto. now apply invoke_Throw with (name := f).
  - intros data value Hmap Hcall. unfold Schema.export_map.
    rewrite Hmap. cbn [isFunction]. rewrite !(method_run _ _ _ Htry).
    apply trydo_routes; auto. now apply invoke_Throw with (name := f).
  - intros validator index dontTry value part.
    assert (Hbare : forall fn fallback basic,
      fn t = (Throw e, t) -> truthy dontTry = true ->
      Schema._trydo this fn fallback basic dontTry t = (Throw e, t)).
    { intros fn fallback basic Hfn Hforce. now rewrite trydo_force. }
    split; [| split].
    + intros Hdet Hcall. unfold Schema.validator_skipped.
      rewrite Hdet. cbn [isBoolean isFunction andb].
      rewrite !(method_run _ _ _ Htry).
      assert (Hfn : invoke (VFun f) context [value; VStr key] t = (Throw e, t))
        by now apply invoke_Throw with (name := f).
      destruct (truthy dontTry) eqn:Hforce.
      * apply bind_Throw. now apply Hbare.
      * apply bind_congr; [| reflexivity].
        unfold Schema.validator_meta. now apply trydo_routes.
    + intros Hcall. unfold Schema.validator_result.
      rewrite !(method_run _ _ _ Htry).
      assert (Hfn : invoke (js_get validator "validate") context
                      [value; VStr key] t = (Throw e, t))
        by (unfold invoke, lift; now rewrite Hcall).
      destruct (truthy dontTry) eqn:Hforce.
      * now apply Hbare.
      * unfold Schema.validator_meta. now apply trydo_routes.
    + intros res Hmsg Hcall. unfold Schema.validator_message.
      rewrite Hmsg. cbn [isFunction isString andb].
      rewrite !(method_run _ _ _ Htry).
      assert (Hfn : invoke (VFun f) context [value; VStr key; res] t
                    = (Throw e, t))
        by now apply invoke_Throw with (name := f).
      destruct (truthy dontTry) eqn:Hforce.
      * apply bind_Throw. now apply Hbare.
      * etransitivity;
          [apply bind_congr;
           [reflexivity
           | intros msg t'; rewrite Bool.andb_false_r; reflexivity] |].
        rewrite bind_ret_r. unfold Schema.validator_meta.
        now apply trydo_routes.
Qed.

(** C6, as amended.  [$set] on a field whose [compute] meta is a function
    (one written in the program or a built-in one), on a schema that has
    no field named [$message] or [onError]: one error is reported, tagged
    [compute] and carrying the default message of the key, and then what
    the compute function gives for the context is returned (or what it
    throws is thrown); the value passed in has no part in the outcome. *)
Theorem dollar_set_computed_field :
  forall (this : Schema.schema) (key : string) (def : list (string * val))
         (f : string) (value context : val) (t : trace),
    Schema.own this key = Some def ->
    (prop (VObj def) "compute" = VFun f
     \/ prop (VObj def) "compute" = VNative f) ->
    unshadowed this ["$message"; "onError"] = true ->
    Schema.dollar_set this key value context t
    = (call f context [],
       t ++ [Reported
               (VObj [("key", VStr key); ("action", VStr "$set");
                      ("value", value); ("compute", VBool true);
                      ("message",
                       VStr (key ++ " can not be set new value because it is a computed property."))])])
    /\ forall value', fst (Schema.dollar_set this key value' context t)
                      = fst (Schema.dollar_set this key value context t).
Proof.
  intros this key def f value context t Hown Hcompute Hun.
  split.
  - now apply dollar_set_compute with (def := def).
  - intros value'.
    now rewrite !(dollar_set_compute this key def f _ context t Hown
                    Hcompute Hun).
Qed.

(** C10.  For a key under which the schema has nothing ([$has(key)] is
    false), [validate] returns one error, whose message says that the key
    is not existing in the schema; nothing is reported and nothing is
    thrown. *)
Theorem validate_unknown_key :
  forall (this : Schema.schema) (key : string) (value context : val)
         (t : trace),
    Schema.dollar_has this key = false ->
    Schema.validate this key value context t
    = (Ret (VArr [VObj [("key", VStr key); ("value", value);
                        ("message",
                         VStr (key ++ " is not existing in schema."))]]),
       t).
Proof.
  intros this key value context t Hhas.
  unfold Schema.validate. unfold Schema.dollar_has in Hhas. now rewrite Hhas.
Qed.

End SchemaClaims.

(** ** Computations that return whatever the trace *)

Section Settling.
Context {host : Host}.

Lemma settles_ret {A} (a : A) : settles (ret a) a [].
Proof. intros t. unfold ret. now rewrite app_nil_r. Qed.


Lemma settles_onError err :
  settles (Schema.onError err) (onError_hook err) [Reported err].
Proof. intros t. reflexivity. Qed.

Lemma settles_steady {A} (m : M A) a delta : settles m a delta -> steady m.
Proof. intros H. now exists (Ret a), delta. Qed.

Lemma steady_lift {A} (r : res A) : steady (lift r).
Proof. exists r, []. intros t. unfold lift. now rewrite app_nil_r. Qed.

Lemma steady_invoke f receiver args : steady (invoke f receiver args).
Proof. apply steady_lift. Qed.

Lemma steady_bind {A B} (m : M A) (k : A -> M B) :
  steady m -> (forall a, steady (k a)) -> steady (bind m k).
Proof.
  intros [r [d Hm]] Hk. destruct r as [a | e].
  - destruct (Hk a) as [r' [d' Hka]]. exists r', (d ++ d').
    intros t. unfold bind. rewrite Hm, Hka. now rewrite app_assoc.
  - exists (Throw e), d. intros t. unfold bind. now rewrite Hm.
Qed.

Lemma catch_or_settles handle context error dflt :
  handler_returns handle context ->
  exists r, settles (Schema.catch_or handle context error dflt) r [].
Proof.
  intros Hh. unfold Schema.catch_or.
  destruct handle as [| | | | | | | | h | | | | |]; cbn [isFunction];
    try (exists dflt; apply settles_ret).
  destruct (Hh error) as [r Hr]. exists (js_or r dflt).
  intros t. unfold bind, invoke, lift, apply_to, ret. rewrite Hr.
  now rewrite app_nil_r.
Qed.

(** Without the force flag, with a handler that returns and no field
    named [onError], [_trydo] returns. *)
Lemma trydo_settles this fn handle context dflt basic force :
  Schema.own this "onError" = None ->
  truthy force = false ->
  steady fn ->
  handler_returns handle context ->
  exists r delta,
    settles (Schema._trydo this fn
               (fun error => Schema.catch_or handle context error dflt)
               basic force) r delta.
Proof.
  intros Ho Hforce [r [d Hfn]] Hh. destruct r as [a | e].
  - exists a, d. intros t. apply trydo_Ret. apply Hfn.
  - set (err := VObj (obj_set basic "error" e)).
    destruct (catch_or_settles handle context (js_or (onError_hook err) err)
                dflt Hh) as [v Hv].
    exists v, (d ++ [Reported err]). intros t.
    rewrite (trydo_Throw _ _ _ _ _ _ _ _ Ho Hforce (Hfn t)). fold err.
    rewrite Hv. now rewrite app_nil_r, app_assoc.
Qed.

Lemma determine_settles this key def meta context fallbackRes :
  Schema.own this key = Some def ->
  unshadowed this ["_trydo"; "onError"] = true ->
  handler_returns (prop (VObj def) "catch") context ->
  exists r delta,
    settles (Schema.dollar_determine this key meta context fallbackRes) r delta.
Proof.
  intros Hown Hun Hh. unfold Schema.dollar_determine.
  assert (Htry : Schema.own this "_trydo" = None)
    by (apply (unshadowed_own _ _ _ Hun); cbn; tauto).
  assert (Herr : Schema.own this "onError" = None)
    by (apply (unshadowed_own _ _ _ Hun); cbn; tauto).
  rewrite (field_own _ _ _ Hown). cbn [truthy negb].
  rewrite !(method_run _ _ _ Htry).
  destruct (inObject meta (VObj def)); cbn [negb].
  2:{ exists fallbackRes, []. apply settles_ret. }
  destruct (isObject (prop (VObj def) meta)).
  - destruct (isFunction (prop (prop (VObj def) meta) "determine")).
    + apply trydo_settles; auto using steady_invoke.
    + eexists _, []. apply settles_ret.
  - destruct (isFunction (prop (VObj def) meta)).
    + apply trydo_settles; auto using steady_invoke.
    + eexists _, []. apply settles_ret.
Qed.

Lemma message_settles this key def meta context givenMessage :
  Schema.own this key = Some def ->
  unshadowed this ["_trydo"; "onError"] = true ->
  handler_returns (prop (VObj def) "catch") context ->
  exists m delta,
    settles (Schema.dollar_message this key meta context givenMessage) m delta.
Proof.
  intros Hown Hun Hh. unfold Schema.dollar_message.
  assert (Htry : Schema.own this "_trydo" = None)
    by (apply (unshadowed_own _ _ _ Hun); cbn; tauto).
  assert (Herr : Schema.own this "onError" = None)
    by (apply (unshadowed_own _ _ _ Hun); cbn; tauto).
  rewrite (field_own _ _ _ Hown). cbn [truthy negb].
  rewrite !(method_run _ _ _ Htry).
  repeat match goal with
         | |- context [if ?c then _ else _] =>
             destruct c; try (eexists _, []; apply settles_ret)
         end.
  apply trydo_settles; auto using steady_invoke.
Qed.

End Settling.

Section SetClaim.
Context {host : Host}.

(** C1, as amended.  For a field with a definition whose [catch] handler
    (if any) returns, on a schema that has no field named after a method
    [set] calls on the way ([disabled], [readonly], [$determine],
    [$message], [onError], [_trydo], [$set]): [set] evaluates [disabled]
    first; when that is truthy it resolves the message, reports the
    refusal to [onError] and returns [prev]; otherwise it evaluates
    [readonly] and does the same for it; and when both are falsy the call
    is [$set(key, next, context)], run after what the two evaluations
    reported.  On none of these paths does a refusal throw. *)
Theorem set_checks_disabled_then_readonly :
  forall (this : Schema.schema) (key : string) (def : list (string * val))
         (next prev context : val),
    Schema.own this key = Some def ->
    handler_returns (prop (VObj def) "catch") context ->
    unshadowed this ["disabled"; "readonly"; "$determine"; "$message";
                     "onError"; "_trydo"; "$set"] = true ->
    exists d delta1,
      settles (Schema.disabled this key context) d delta1
      /\ if truthy d then
           exists m delta2,
             settles (Schema.dollar_message this key "disabled" context d)
               m delta2
             /\ settles (Schema.set this key next prev context) prev
                  (delta1 ++ delta2
                   ++ [Reported (Schema.refusal key next prev "disabled" m)])
         else
           exists r delta2,
             settles (Schema.readonly this key context) r delta2
             /\ if truthy r then
                  exists m delta3,
                    settles
                      (Schema.dollar_message this key "readonly" context r)
                      m delta3
                    /\ settles (Schema.set this key next prev context) prev
                         (delta1 ++ delta2 ++ delta3
                          ++ [Reported
                                (Schema.refusal key next prev "readonly" m)])
                else
                  forall t,
                    Schema.set this key next prev context t
                    = Schema.dollar_set this key next context
                        (t ++ delta1 ++ delta2).
Proof.
  intros this key def next prev context Hown Hh Hun.
  assert (Hnone : forall m,
    In m ["disabled"; "readonly"; "$determine"; "$message"; "onError";
          "_trydo"; "$set"] -> Schema.own this m = None)
    by (intros m; apply (unshadowed_own _ _ _ Hun)).
  assert (Hun2 : unshadowed this ["_trydo"; "onError"] = true).
  { unfold unshadowed. cbn [forallb].
    rewrite (Hnone "_trydo"), (Hnone "onError") by (cbn; tauto).
    reflexivity. }
  assert (Hun3 : unshadowed this ["$message"; "onError"] = true).
  { unfold unshadowed. cbn [forallb].
    rewrite (Hnone "$message"), (Hnone "onError") by (cbn; tauto).
    reflexivity. }
  assert (Hdet : forall meta,
    exists r delta,
      settles (Schema.method this "$determine"
                 (Schema.dollar_determine this key meta context (VBool false)))
        r delta).
  { intros meta. rewrite (method_run this "$determine")
      by (apply Hnone; cbn; tauto).
    now apply determine_settles with (def := def). }
  destruct (Hdet "disabled") as [d [delta1 Hd]].
  exists d, delta1. split; [exact Hd |].
  assert (Hset : forall t,
    Schema.set this key next prev context t
    = (if truthy d then
         Schema.report this key "disabled" context d
           (Schema.refusal key next prev "disabled") ;;;
         ret prev
       else
         readonly_ <- Schema.readonly this key context ;;
         if truthy readonly_ then
           Schema.report this key "readonly" context readonly_
             (Schema.refusal key next prev "readonly") ;;;
           ret prev
         else Schema.dollar_set this key next context) (t ++ delta1)).
  { intros t. unfold Schema.set. rewrite (field_own _ _ _ Hown).
    cbn [truthy negb].
    rewrite (method_run this "disabled"), (method_run this "readonly"),
      (method_run this "$set") by (apply Hnone; cbn; tauto).
    now rewrite (bind_Ret _ _ _ _ _ (Hd t)). }
  destruct (truthy d).
  - destruct (message_settles this key def "disabled" context d Hown Hun2 Hh)
      as [m [delta2 Hm]].
    exists m, delta2. split; [exact Hm |].
    intros t. rewrite Hset.
    rewrite (bind_Ret _ _ _ _ _
               (report_run this key "disabled" context d _ m _ _ Hun3
                  (Hm (t ++ delta1)))).
    unfold ret. now rewrite <- !app_assoc.
  - destruct (Hdet "readonly") as [r [delta2 Hr]].
    exists r, delta2. split; [exact Hr |].
    destruct (truthy r) eqn:Htr.
    + destruct (message_settles this key def "readonly" context r Hown Hun2
                  Hh) as [m [delta3 Hm]].
      exists m, delta3. split; [exact Hm |].
      intros t. rewrite Hset. unfold Schema.readonly in *.
      rewrite (bind_Ret _ _ _ _ _ (Hr (t ++ delta1))). rewrite Htr.
      rewrite (bind_Ret _ _ _ _ _
                 (report_run this key "readonly" context r _ m _ _ Hun3
                    (Hm ((t ++ delta1) ++ delta2)))).
      unfold ret. now rewrite <- !app_assoc.
    + intros t. rewrite Hset. unfold Schema.readonly in *.
      rewrite (bind_Ret _ _ _ _ _ (Hr (t ++ delta1))). rewrite Htr.
      now rewrite <- app_assoc.
Qed.

End SetClaim.

(** ** Concrete runs *)

(** The theorem on [_trydo] at the field [flaky] of the demo schema: its
    [disabled] function throws and its handler answers [false]. *)
Lemma trydo_routes_thrown_error_witness :
  let err := VObj [("key", VStr "flaky"); ("meta", VStr "disabled");
                   ("error", VStr "boom")] in
  Schema._trydo (host := Demo.host) Demo.person
    (invoke (host := Demo.host) (VFun "boom") Demo.context []) ret
    [("key", VStr "flaky"); ("meta", VStr "disabled")] VUndef []
  = (Ret err, [Reported err])
  /\ Schema.dollar_determine (host := Demo.host) Demo.person "flaky"
       "disabled" Demo.context (VBool false) []
     = (Ret (VBool false), [Reported err]).
Proof.
  pose proof (@trydo_routes_thrown_error Demo.host Demo.person "flaky"
                [("disabled", VFun "boom"); ("catch", VFun "no")] "boom"
                (VStr "boom") Demo.context [] eq_refl eq_refl) as H.
  cbv zeta in H. destruct H as [H1 [H2 _]].
  split.
  - exact (H1 (invoke (host := Demo.host) (VFun "boom") Demo.context []) ret
             "disabled" VUndef [] eq_refl).
  - exact (H2 "disabled" (VBool false) (or_introl eq_refl) eq_refl).
Defined.

(** C5, the claim as stated, fails on a schema that has a field named
    [onError]: the getter of the field [shown] throws, and what [get]
    does with the error is call the field; that throws a TypeError, and
    the error of the getter is neither reported nor turned into a
    fallback value. *)
Lemma trydo_shadowed_onError :
  Schema.get (host := Demo.host) Shadow.log "shown" (VStr "x") Demo.context []
  = (Throw (TypeError "this.onError is not a function"), [])
  /\ ~ (forall (host : Host) (this : Schema.schema) (key : string)
               (def : list (string * val)) (f : string)
               (e value context : val) (t : trace),
           Schema.own this key = Some def ->
           isFunction (prop (VObj def) "compute") = false ->
           prop (VObj def) "getter" = VFun f ->
           call f context [value] = Throw e ->
           Schema.get this key value context t
           = routed key "getter" (prop (VObj def) "catch") context e value t).
Proof.
  split; [reflexivity |].
  intros H.
  specialize (H Demo.host Shadow.log "shown" [("getter", VFun "boom")] "boom"
                (VStr "boom") (VStr "x") Demo.context []
                eq_refl eq_refl eq_refl eq_refl).
  discriminate H.
Qed.

Lemma dollar_set_computed_field_witness :
  Schema.dollar_set (host := Demo.host) Demo.person "full" (VStr "Grace")
    Demo.context []
  = (Ret (VStr "Ada Lovelace"),
     [Reported
        (VObj [("key", VStr "full"); ("action", VStr "$set");
               ("value", VStr "Grace"); ("compute", VBool true);
               ("message",
                VStr "full can not be set new value because it is a computed property.")])])
  /\ forall value',
       fst (Schema.dollar_set (host := Demo.host) Demo.person "full" value'
              Demo.context [])
       = fst (Schema.dollar_set (host := Demo.host) Demo.person "full"
                (VStr "Grace") Demo.context []).
Proof.
  exact (@dollar_set_computed_field Demo.host Demo.person "full"
           [("compute", VFun "fullName")] "fullName" (VStr "Grace")
           Demo.context [] eq_refl (or_introl eq_refl) eq_refl).
Defined.

(** C6, the claim as stated, fails on a schema that has a field named
    [onError]: [$set] on the computed field [full] calls the field to
    report the error, which throws a TypeError; nothing is reported and
    the computed value is not returned. *)
Lemma dollar_set_shadowed_onError :
  Schema.dollar_set (host := Demo.host) Shadow.log "full" (VStr "Grace")
    Demo.context []
  = (Throw (TypeError "this.onError is not a function"), [])
  /\ call (Host := Demo.host) "fullName" Demo.context []
     = Ret (VStr "Ada Lovelace").
Proof. split; reflexivity. Qed.

Lemma validate_unknown_key_witness :
  Schema.validate (host := Demo.host) Demo.person "nickname" (VStr "al")
    Demo.context []
  = (Ret (VArr [VObj [("key", VStr "nickname"); ("value", VStr "al");
                      ("message",
                       VStr "nickname is not existing in schema.")]]),
     []).
Proof.
  exact (@validate_unknown_key Demo.host Demo.person "nickname" (VStr "al")
           Demo.context [] eq_refl).
Defined.

(** The theorem on [set] at the disabled field [frozen]. *)
Lemma set_checks_disabled_then_readonly_witness :
  exists d delta1,
    settles (Schema.disabled (host := Demo.host) Demo.person "frozen"
               Demo.context) d delta1
    /\ if truthy d then
         exists m delta2,
           settles (Schema.dollar_message (host := Demo.host) Demo.person
                      "frozen" "disabled" Demo.context d) m delta2
           /\ settles (Schema.set (host := Demo.host) Demo.person "frozen"
                         (VNum 7) (VNum 0) Demo.context) (VNum 0)
                (delta1 ++ delta2
                 ++ [Reported (Schema.refusal "frozen" (VNum 7) (VNum 0)
                                 "disabled" m)])
       else
         exists r delta2,
           settles (Schema.readonly (host := Demo.host) Demo.person "frozen"
                      Demo.context) r delta2
           /\ if truthy r then
                exists m delta3,
                  settles (Schema.dollar_message (host := Demo.host)
                             Demo.person "frozen" "readonly" Demo.context r)
                    m delta3
                  /\ settles (Schema.set (host := Demo.host) Demo.person
                                "frozen" (VNum 7) (VNum 0) Demo.context)
                       (VNum 0)
                       (delta1 ++ delta2 ++ delta3
                        ++ [Reported (Schema.refusal "frozen" (VNum 7)
                                        (VNum 0) "readonly" m)])
              else
                forall t,
                  Schema.set (host := Demo.host) Demo.person "frozen"
                    (VNum 7) (VNum 0) Demo.context t
                  = Schema.dollar_set (host := Demo.host) Demo.person
                      "frozen" (VNum 7) Demo.context (t ++ delta1 ++ delta2).
Proof.
  exact (@set_checks_disabled_then_readonly Demo.host Demo.person "frozen"
           [("default", VNum 0); ("disabled", VBool true)]
           (VNum 7) (VNum 0) Demo.context eq_refl I eq_refl).
Defined.

(** C1, the claim as stated, fails.  The field [locked] is disabled, its
    message function throws, and its [catch] handler throws in turn; [set]
    then throws what the handler threw instead of returning [prev].  And
    on a schema that has a field named [disabled], [set] on the field
    [name] calls that field, which throws a TypeError. *)
Lemma set_refusal_can_throw :
  Schema.disabled (host := Demo.host) Demo.person "locked" Demo.context []
  = (Ret (VBool true), [])
  /\ Schema.set (host := Demo.host) Demo.person "locked" (VNum 7) (VNum 0)
       Demo.context []
     = (Throw (VStr "handler failed"),
        [Reported (VObj [("key", VStr "locked"); ("meta", VStr "message");
                         ("error", VStr "boom")])])
  /\ ~ (forall (host : Host) (this : Schema.schema) (key : string)
               (def : list (string * val)) (next prev context : val)
               (t : trace) (d : val) (t1 : trace),
           Schema.own this key = Some def ->
           Schema.disabled this key context t = (Ret d, t1) ->
           truthy d = true ->
           exists t2, Schema.set this key next prev context t = (Ret prev, t2))
  /\ Schema.set (host := Demo.host) Shadow.switch "name" (VStr "Ada")
       (VStr "") Demo.context []
     = (Throw (TypeError "this.disabled is not a function"), []).
Proof.
  split; [reflexivity | split; [reflexivity | split; [| reflexivity]]].
  intros H.
  destruct (H Demo.host Demo.person "locked"
              [("disabled", VObj [("determine", VBool true);
                                  ("message", VFun "boom")]);
               ("catch", VFun "rethrow")]
              (VNum 7) (VNum 0) Demo.context [] (VBool true) []
              eq_refl eq_refl eq_refl) as [t2 Ht2].
  discriminate Ht2.
Qed.

(** ** Validation *)

Section ValidateClaims.
Context {host : Host}.


Lemma create_returns type : exists T, Ty.create type = Ret T.
Proof.
  unfold Ty.create.
  destruct (isObject type); [eauto |].
  destruct (isArray type) eqn:Harr.
  - unfold Types.new_List. rewrite Harr. cbn [negb]. eauto.
  - destruct (isInstanceOf type "Type"); eauto.
Qed.

(** The static [Ty.catch(value).by(type)] returns, and schedules nothing:
    the module's instance has no listener. *)
Lemma Ty_catch_settles value type :
  exists T, Ty.create type = Ret T
            /\ settles (Ty.catch value type) (Types.catch T value) [].
Proof.
  destruct (create_returns type) as [T HT]. exists T. split; [exact HT |].
  intros t. unfold Ty.catch, Ty.catch_by.
  rewrite (bind_Ret _ _ t T t) by (unfold lift; now rewrite HT).
  unfold Ty.dispatch, Ty.ty, Ty.new. cbn [Ty._listeners Ty.notify].
  rewrite app_nil_r. now destruct (truthy (Types.catch T value)).
Qed.

Lemma type_error_settles key value type :
  exists error, settles (Schema.type_error key value type) error [].
Proof.
  unfold Schema.type_error.
  destruct (isInstanceOf type "Rule");
    match goal with
    | |- context [Ty.catch ?v ?p] =>
        destruct (Ty_catch_settles v p) as [T [_ H]]; eauto
    end.
Qed.


Section OneValidator.
Variables (this : Schema.schema) (key : string) (value context handle : val).
Hypothesis handler_ok : handler_returns handle context.
Hypothesis trydo_own : Schema.own this "_trydo" = None.
Hypothesis onError_own : Schema.own this "onError" = None.




End OneValidator.

Section Loops.
Variables (this : Schema.schema) (key : string) (value context handle : val).

(** One round of the loop is one step of the validators run in order. *)
Lemma runOne_in_order validators i validator errors t :
  member validators (VNum i) = Ret validator ->
  Schema.runOne this key value context handle (VNum 0) validators (VNum i)
    errors t
  = (if truthy validator then
       error <- Schema.run_validator this key value context handle
                  validator (VNum i) (VNum 0) ;;
       ret (if truthy error then errors ++ [error] else errors)
     else ret errors) t.
Proof.
  intros Hmember. unfold Schema.runOne.
  rewrite (bind_Ret _ _ t validator t) by (unfold lift; now rewrite Hmember).
  destruct (truthy validator); cbn [negb]; [| reflexivity].
  apply bind_congr; [reflexivity |].
  intros e t'. now destruct (truthy e).
Qed.

(** The loop of [validateByRange] over a whole array is the validators
    run in order. *)
Lemma range_loop_in_order rest :
  forall before errors t,
    Schema.range_loop this key value context handle (VNum 0)
      (VArr (before ++ rest)) (length rest) (Z.of_nat (length before))
      errors t
    = in_order this key value context handle rest (Z.of_nat (length before))
        errors t.
Proof.
  induction rest as [| validator rest IH]; intros before errors t.
  - reflexivity.
  - cbn [length Schema.range_loop in_order].
    assert (Hmember :
      member (VArr (before ++ validator :: rest))
        (VNum (Z.of_nat (length before))) = Ret validator).
    { unfold member.
      destruct (Z.of_nat (length before) <? 0) eqn:Hneg;
        [apply Z.ltb_lt in Hneg; lia |].
      rewrite Nat2Z.id. unfold js_index.
      rewrite app_nth2 by lia. now rewrite Nat.sub_diag. }
    assert (Hnext : forall errors' t',
      Schema.range_loop this key value context handle (VNum 0)
        (VArr (before ++ validator :: rest)) (length rest)
        (Z.of_nat (length before) + 1) errors' t'
      = in_order this key value context handle rest
          (Z.of_nat (length before) + 1) errors' t').
    { intros errors' t'.
      specialize (IH (before ++ [validator]) errors' t').
      rewrite <- app_assoc in IH. cbn [app] in IH.
      rewrite length_app in IH. cbn [length] in IH.
      replace (Z.of_nat (length before + 1)) with (Z.of_nat (length before) + 1)
        in IH by lia.
      exact IH. }
    apply bind_congr; [| exact Hnext].
    now apply runOne_in_order.
Qed.

(** The loop over anything that can be indexed: the entries it reads,
    run in order. *)
Lemma range_loop_entries validators n :
  validators <> VUndef -> validators <> VNull ->
  forall a errors t,
    Schema.range_loop this key value context handle (VNum 0) validators n
      (Z.of_nat a) errors t
    = in_order this key value context handle
        (map (entry validators) (seq a n)) (Z.of_nat a) errors t.
Proof.
  intros Hu Hn. induction n as [| n IH]; intros a errors t; [reflexivity |].
  cbn [seq map Schema.range_loop in_order].
  assert (Hmember : member validators (VNum (Z.of_nat a))
                    = Ret (entry validators a)).
  { unfold entry.
    destruct (member validators (VNum (Z.of_nat a))) as [v | e] eqn:E;
      [reflexivity |].
    unfold member in E.
    destruct validators; try congruence;
      try (destruct (Z.of_nat a <? 0)); discriminate. }
  apply bind_congr; [now apply runOne_in_order |].
  intros errors' t'.
  replace (Z.of_nat a + 1) with (Z.of_nat (S a)) by lia.
  apply IH.
Qed.

End Loops.

End ValidateClaims.

Section ValidateTheorem.
Context {host : Host}.

Lemma map_nth_seq (vs : list val) :
  map (fun i => nth i vs VUndef) (seq 0 (length vs)) = vs.
Proof.
  induction vs as [| v vs IH]; [reflexivity |].
  cbn [length seq map nth]. f_equal.
  rewrite <- seq_shift, map_map. exact IH.
Qed.

(** Of an array, the loop over all the validators reads the items. *)
Lemma entries_array (vs : list val) :
  entries (VArr vs) (VNum (Z.of_nat (length vs) - 1)) = vs.
Proof.
  unfold entries.
  replace (Z.to_nat (Z.of_nat (length vs) - 1 + 1)) with (length vs) by lia.
  etransitivity; [| exact (map_nth_seq vs)]. apply map_ext. intros i.
  unfold entry, member.
  destruct (Z.of_nat i <? 0) eqn:E; [apply Z.ltb_lt in E; lia |].
  unfold js_index. now rewrite Nat2Z.id.
Qed.

(** [x - 1] is a number. *)
Lemma minus_one_number x y :
  minus_one x = Ret y ->
  (exists b, y = VNum b) \/ y = VNaN \/ (exists n, y = VInf n).
Proof.
  assert (Hpred : forall n,
    (exists b, match n with
               | VNum z => VNum (z - 1)
               | VInf b => VInf b
               | _ => VNaN
               end = VNum b)
    \/ match n with
       | VNum z => VNum (z - 1)
       | VInf b => VInf b
       | _ => VNaN
       end = VNaN
    \/ (exists m, match n with
                  | VNum z => VNum (z - 1)
                  | VInf b => VInf b
                  | _ => VNaN
                  end = VInf m))
    by (intros n; destruct n; eauto).
  unfold minus_one.
  destruct x; try (intros H; injection H as <-; eauto; apply Hpred);
    destruct (ToNumber_other _) as [n | e]; try discriminate;
    intros H; injection H as <-; apply Hpred.
Qed.

(** [$validate(key, value, context)([])] on an enabled field, when
    [validators.length - 1] is a number other than Infinity, is the
    entries of [validators] run in order, after [disabled] has been
    evaluated once more. *)
Lemma dollar_validate_all this key def value context d delta1 len end_ :
  Schema.own this key = Some def ->
  Schema.own this "disabled" = None ->
  settles (Schema.disabled this key context) d delta1 ->
  truthy d = false ->
  member (validators_of (VObj def)) (VStr "length") = Ret len ->
  minus_one len = Ret end_ ->
  end_ <> VInf false ->
  forall t,
    Schema.dollar_validate this key value context [VArr []] t
    = in_order this key value context (prop (VObj def) "catch")
        (entries (validators_of (VObj def)) end_) 0 [] (t ++ delta1).
Proof.
  intros Hown Hdis Hd Htd Hlen Hend Hinf t. unfold Schema.dollar_validate.
  rewrite (field_own _ _ _ Hown). rewrite (method_run _ _ _ Hdis).
  rewrite (bind_Ret _ _ _ _ _ (Hd t)). rewrite Htd.
  cbn [nth isArray js_index truthy andb].
  fold (validators_of (VObj def)).
  set (validators := validators_of (VObj def)) in *.
  unfold Schema.validateByRange. cbn [js_index nth].
  rewrite (bind_Ret _ _ _ end_ (t ++ delta1)).
  2:{ rewrite (bind_Ret _ _ _ len (t ++ delta1))
        by (unfold lift; now rewrite Hlen).
      unfold lift. now rewrite Hend. }
  destruct (minus_one_number _ _ Hend) as [[b ->] | [-> | [n ->]]].
  - unfold entries.
    replace (Z.to_nat (b - 0 + 1)) with (Z.to_nat (b + 1)) by lia.
    apply (range_loop_entries this key value context _ validators
             (Z.to_nat (b + 1))) with (a := 0%nat);
      intros E; rewrite E in Hlen; discriminate.
  - reflexivity.
  - destruct n; [reflexivity | now contradiction Hinf].
Qed.

(** The same for validators that are an array. *)
Lemma dollar_validate_all_array this key def value context vs d delta1 :
  Schema.own this key = Some def ->
  Schema.own this "disabled" = None ->
  validators_of (VObj def) = VArr vs ->
  settles (Schema.disabled this key context) d delta1 ->
  truthy d = false ->
  forall t,
    Schema.dollar_validate this key value context [VArr []] t
    = in_order this key value context (prop (VObj def) "catch") vs 0 []
        (t ++ delta1).
Proof.
  intros Hown Hdis Hvs Hd Htd t.
  assert (Hlen : member (validators_of (VObj def)) (VStr "length")
                 = Ret (VNum (Z.of_nat (length vs))))
    by (rewrite Hvs; reflexivity).
  rewrite (dollar_validate_all this key def value context d delta1
             (VNum (Z.of_nat (length vs)))
             (VNum (Z.of_nat (length vs) - 1)) Hown Hdis Hd Htd Hlen
             eq_refl ltac:(discriminate)).
  rewrite Hvs. now rewrite entries_array.
Qed.


(** The slip of the validator runner: a validator that is run and whose
    [validate] function returns an array ends in a ReferenceError, the
    array is not spliced into any error list. *)
Lemma run_validator_array_result this key value context handle validator
  index dontTry f xs t :
  Schema.own this "_trydo" = None ->
  isBoolean (js_get validator "determine") = false ->
  isFunction (js_get validator "determine") = false ->
  js_get validator "validate" = VFun f ->
  call f context [value; VStr key] = Ret (VArr xs) ->
  Schema.run_validator this key value context handle validator index dontTry t
  = (Throw (ReferenceError "errors is not defined"), t).
Proof.
  intros Htry Hb Hf Hvalidate Hcall. unfold Schema.run_validator.
  rewrite (bind_Ret _ _ t false t).
  2:{ unfold Schema.validator_skipped. now rewrite Hb, Hf. }
  rewrite (bind_Ret _ _ t (VArr xs) t).
  - reflexivity.
  - unfold Schema.validator_result. rewrite (method_run _ _ _ Htry).
    apply trydo_Ret.
    rewrite Hvalidate. unfold invoke, lift, apply_to. now rewrite Hcall.
Qed.

End ValidateTheorem.

(** C7.  The field [children] has one validator, whose [validate] function
    returns an array of nested errors; [validate] throws a ReferenceError
    where the array was to be spliced into the error list. *)
Theorem validate_array_result_is_ReferenceError :
  Schema.validate (host := Demo.host) Demo.person "children" (VArr [])
    Demo.context []
  = (Throw (ReferenceError "errors is not defined"), [])
  /\ Schema.dollar_validate (host := Demo.host) Demo.person "children"
       (VArr []) Demo.context [VNum 0] []
     = (Throw (ReferenceError "errors is not defined"), []).
Proof. split; reflexivity. Qed.



(** ** Export *)

Section ObjectFacts.

Lemma lookup_replace_value fs k k' v :
  lookup k (replace_value fs k' v)
  = match lookup k' fs with
    | Some _ => if String.eqb k k' then Some v else lookup k fs
    | None => lookup k fs
    end.
Proof.
  induction fs as [| [k0 v0] rest IH]; cbn [replace_value lookup];
    [reflexivity |].
  destruct (String.eqb k' k0) eqn:E0.
  - apply String.eqb_eq in E0. subst k0. cbn [lookup].
    destruct (String.eqb k k'); reflexivity.
  - cbn [lookup]. rewrite IH.
    destruct (String.eqb k k0) eqn:E1; [| reflexivity].
    apply String.eqb_eq in E1. subst k0.
    destruct (lookup k' rest); [| reflexivity].
    now rewrite String.eqb_sym, E0.
Qed.

Lemma lookup_insert_index fs n k k' v :
  lookup k' fs = None ->
  lookup k (insert_index fs n k' v)
  = if String.eqb k k' then Some v else lookup k fs.
Proof.
  induction fs as [| [k0 v0] rest IH]; cbn [insert_index lookup];
    [reflexivity |].
  destruct (String.eqb k' k0) eqn:E0; [discriminate |]. intros Hk'.
  destruct (array_index k0) as [n0 |]; [destruct (n <? n0)%N |];
    cbn [lookup]; try reflexivity.
  rewrite (IH Hk').
  destruct (String.eqb k k0) eqn:E1; [| reflexivity].
  destruct (String.eqb k k') eqn:E2; [| reflexivity].
  apply String.eqb_eq in E1, E2. subst. now rewrite String.eqb_refl in E0.
Qed.

Lemma lookup_app_last fs k k' v :
  lookup k (fs ++ [(k', v)])
  = match lookup k fs with
    | Some w => Some w
    | None => if String.eqb k k' then Some v else None
    end.
Proof.
  induction fs as [| [k0 v0] rest IH]; cbn [app lookup]; [reflexivity |].
  now destruct (String.eqb k k0).
Qed.

Lemma lookup_obj_set fs k k' v :
  lookup k (obj_set fs k' v)
  = if String.eqb k k' then Some v else lookup k fs.
Proof.
  unfold obj_set. destruct (lookup k' fs) as [w |] eqn:Hk'.
  - rewrite lookup_replace_value, Hk'. reflexivity.
  - destruct (array_index k') as [n |].
    + now apply lookup_insert_index.
    + rewrite lookup_app_last.
      destruct (String.eqb k k') eqn:E.
      * apply String.eqb_eq in E. subst k'. now rewrite Hk'.
      * now destruct (lookup k fs).
Qed.

Lemma lookup_None_not_In k (fs : list (string * val)) :
  ~ In k (map fst fs) -> lookup k fs = None.
Proof.
  induction fs as [| [k0 v0] rest IH]; intros Hnot; cbn [lookup].
  - reflexivity.
  - cbn [map fst In] in Hnot.
    destruct (String.eqb k k0) eqn:E.
    + apply String.eqb_eq in E. subst. exfalso. apply Hnot. now left.
    + apply IH. tauto.
Qed.

Lemma lookup_In k (fs : list (string * val)) v :
  lookup k fs = Some v -> In k (map fst fs).
Proof.
  induction fs as [| [k0 v0] rest IH]; cbn [lookup map fst In];
    [discriminate |].
  destruct (String.eqb k k0) eqn:E.
  - apply String.eqb_eq in E. now left.
  - intros H. right. now apply IH.
Qed.

(** [Object.assign(target, source)]: the source wins on every key it has. *)
Lemma lookup_obj_assign source :
  NoDup (map fst source) ->
  forall target k,
    lookup k (obj_assign target source)
    = match lookup k source with
      | Some v => Some v
      | None => lookup k target
      end.
Proof.
  unfold obj_assign.
  induction source as [| [k0 v0] rest IH]; intros Hnd target k.
  - reflexivity.
  - cbn [map fst] in Hnd. apply NoDup_cons_iff in Hnd as [Hnotin Hrest].
    cbn [fold_left fst snd lookup].
    rewrite (IH Hrest). rewrite lookup_obj_set.
    destruct (String.eqb k k0) eqn:E.
    + apply String.eqb_eq in E. subst k0.
      now rewrite (lookup_None_not_In k rest Hnotin).
    + reflexivity.
Qed.

Lemma keys_replace_value fs k v :
  map fst (replace_value fs k v) = map fst fs.
Proof.
  induction fs as [| [k0 v0] rest IH]; cbn [replace_value map fst];
    [reflexivity |].
  destruct (String.eqb k k0); cbn [map fst]; [reflexivity |].
  now rewrite IH.
Qed.

Lemma keys_insert_index fs n k v :
  exists before after,
    map fst fs = before ++ after
    /\ map fst (insert_index fs n k v) = before ++ k :: after.
Proof.
  induction fs as [| [k0 v0] rest IH]; cbn [insert_index map fst].
  - now exists [], [].
  - destruct (array_index k0) as [n0 |]; [destruct (n <? n0)%N |];
      try (now exists [], (k0 :: map fst rest)).
    destruct IH as [before [after [H1 H2]]].
    exists (k0 :: before), after. cbn [map fst app].
    now rewrite H1, H2.
Qed.

(** The keys after [o[k] = v]: those there were, and [k] if it is new. *)
Lemma keys_obj_set fs k v :
  (In k (map fst fs) /\ map fst (obj_set fs k v) = map fst fs)
  \/ (~ In k (map fst fs)
      /\ exists before after,
          map fst fs = before ++ after
          /\ map fst (obj_set fs k v) = before ++ k :: after).
Proof.
  unfold obj_set. destruct (lookup k fs) as [w |] eqn:Hk.
  - left. split; [now apply lookup_In in Hk | apply keys_replace_value].
  - right. split.
    + intros Hin. apply in_map_iff in Hin as [[k0 v0] [E Hin]].
      cbn [fst] in E. subst k0. clear -Hk Hin.
      induction fs as [| [k1 v1] rest IH]; [contradiction |].
      cbn [lookup] in Hk. destruct (String.eqb k k1) eqn:E; [discriminate |].
      destruct Hin as [Heq | Hin]; [| now apply IH].
      injection Heq as -> _. now rewrite String.eqb_refl in E.
    + destruct (array_index k) as [n |].
      * apply keys_insert_index.
      * exists (map fst fs), []. rewrite app_nil_r, map_app. now split.
Qed.

Lemma In_keys_obj_set fs k v k' :
  In k' (map fst (obj_set fs k v)) -> k' = k \/ In k' (map fst fs).
Proof.
  destruct (keys_obj_set fs k v) as [[_ ->] | [_ [b [a [-> ->]]]]].
  - now right.
  - intros H. apply in_app_or in H as [H | [<- | H]]; [| now left |];
      right; apply in_or_app; tauto.
Qed.

Lemma NoDup_obj_set fs k v :
  NoDup (map fst fs) -> NoDup (map fst (obj_set fs k v)).
Proof.
  destruct (keys_obj_set fs k v) as [[_ ->] | [Hnot [b [a [E ->]]]]];
    [trivial |].
  rewrite E in *. intros Hnd. apply NoDup_Add with (a := k) (l := b ++ a).
  - apply Add_app.
  - now constructor.
Qed.

Lemma NoDup_obj_assign source target :
  NoDup (map fst target) -> NoDup (map fst (obj_assign target source)).
Proof.
  unfold obj_assign. revert target.
  induction source as [| [k v] rest IH]; intros target Hnd; cbn [fold_left].
  - exact Hnd.
  - apply IH. now apply NoDup_obj_set.
Qed.

End ObjectFacts.

Section ExportClaim.
Context {host : Host}.

Lemma export_field_patch_NoDup this data context key def patch output t r t' :
  NoDup (map fst patch) ->
  Schema.export_field this data context key def (patch, output) t
  = (Ret r, t') ->
  NoDup (map fst (fst r)).
Proof.
  intros Hnd H. unfold Schema.export_field in H.
  apply bind_inv in H. destruct H as [value [t1 [_ H]]].
  apply bind_inv in H. destruct H as [patch' [t2 [Hflat H]]].
  assert (Hnd' : NoDup (map fst patch')).
  { unfold Schema.export_flat in Hflat.
    destruct (isFunction (prop (VObj def) "flat")).
    - apply bind_inv in Hflat. destruct Hflat as [res [t3 [_ Hret]]].
      unfold ret in Hret. inversion Hret; subst.
      now apply NoDup_obj_assign.
    - unfold ret in Hflat. now inversion Hflat; subst. }
  apply bind_inv in H. destruct H as [d [t3 [_ H]]].
  destruct (truthy d).
  { unfold ret in H. now inversion H; subst. }
  apply bind_inv in H. destruct H as [dropped [t4 [_ H]]].
  destruct dropped.
  { unfold ret in H. now inversion H; subst. }
  apply bind_inv in H. destruct H as [res [t5 [_ H]]].
  unfold ret in H. now inversion H; subst.
Qed.

Lemma export_fields_patch_NoDup this data context fields :
  forall acc t r t',
    NoDup (map fst (fst acc)) ->
    Schema.export_fields this data context fields acc t = (Ret r, t') ->
    NoDup (map fst (fst r)).
Proof.
  induction fields as [| [key def] rest IH]; intros acc t r t' Hnd H;
    cbn [Schema.export_fields] in H.
  - unfold ret in H. now inversion H; subst.
  - apply bind_inv in H. destruct H as [acc' [t1 [Hfield H]]].
    destruct acc as [patch output].
    eapply IH; [| exact H].
    eapply export_field_patch_NoDup; eauto.
Qed.

(** C3, as amended.  [export] runs one round per field, in the order of
    the fields, from an empty patch and an empty output, and returns the
    output with the patch assigned onto it: on every key of the patch the
    patch's value, elsewhere the output's; an exception of a round is the
    exception of [export].  One round, on a schema with no field named
    [disabled], [$determine], [_trydo] or [onError]: the [flat] function,
    when there is one, is called first and what it returns (or [{}] when
    that is falsy) is assigned to the patch; the patch so extended is
    part of the round's result whether the field is then skipped or
    emitted.  The field is skipped when [disabled] is truthy, when [drop]
    is [true], or when [drop] is a function and returns a truthy value;
    any other [drop], truthy or not, skips nothing.  Otherwise
    [output[key]] becomes what the [map] function returns, or the stored
    value when [map] is no function.  A function is what [isFunction] of
    ts-fns takes for one: a built-in function or a class is none. *)
Theorem export_flattens_skips_emits_merges :
  forall (this : Schema.schema) (data context : val) (key : string)
         (def : list (string * val)) (value : val)
         (patch output : list (string * val)) (t : trace),
    member data (VStr key) = Ret value ->
    unshadowed this ["disabled"; "$determine"; "_trydo"; "onError"] = true ->
    let flat := prop (VObj def) "flat" in
    let drop := prop (VObj def) "drop" in
    let map_ := prop (VObj def) "map" in
    (* flat *)
    (isFunction flat = false ->
     Schema.export_flat this data context key def value patch t
     = (Ret patch, t))
    /\ (forall r,
           isFunction flat = true ->
           apply_to flat context [value; VStr key; data] = Ret r ->
           Schema.export_flat this data context key def value patch t
           = (Ret (obj_assign patch (own_props (js_or r (VObj [])))), t))
    (* the round: flat, then disabled, then drop, then map *)
    /\ (forall patch' t1 d t2,
           Schema.export_flat this data context key def value patch t
           = (Ret patch', t1) ->
           Schema.disabled this key context t1 = (Ret d, t2) ->
           Schema.export_field this data context key def (patch, output) t
           = if truthy d then (Ret (patch', output), t2)
             else
               match
                 Schema.export_drop this data context key def value t2
               with
               | (Ret true, t3) => (Ret (patch', output), t3)
               | (Ret false, t3) =>
                   match
                     Schema.export_map this data context key def value t3
                   with
                   | (Ret res, t4) => (Ret (patch', obj_set output key res), t4)
                   | (Throw e, t4) => (Throw e, t4)
                   end
               | (Throw e, t3) => (Throw e, t3)
               end)
    (* drop *)
    /\ (drop = VBool true ->
        Schema.export_drop this data context key def value t = (Ret true, t))
    /\ (forall b,
           isFunction drop = true ->
           apply_to drop context [value; VStr key; data] = Ret b ->
           Schema.export_drop this data context key def value t
           = (Ret (truthy b), t))
    /\ (isFunction drop = false -> drop <> VBool true ->
        Schema.export_drop this data context key def value t = (Ret false, t))
    (* map *)
    /\ (forall r,
           isFunction map_ = true ->
           apply_to map_ context [value; VStr key; data] = Ret r ->
           Schema.export_map this data context key def value t = (Ret r, t))
    /\ (isFunction map_ = false ->
        Schema.export_map this data context key def value t = (Ret value, t))
    (* the rounds, one per field and in order *)
    /\ (forall acc, Schema.export_fields this data context [] acc t
                    = (Ret acc, t))
    /\ (forall rest acc,
           Schema.export_fields this data context ((key, def) :: rest) acc t
           = match Schema.export_field this data context key def acc t with
             | (Ret acc', t1) =>
                 Schema.export_fields this data context rest acc' t1
             | (Throw e, t1) => (Throw e, t1)
             end)
    (* the end: Object.assign(output, patch) *)
    /\ Schema.export this data context t
       = match Schema.export_fields this data context this ([], []) t with
         | (Ret (patch_, output_), t') =>
             (Ret (VObj (obj_assign output_ patch_)), t')
         | (Throw e, t') => (Throw e, t')
         end
    /\ (forall patch_ output_ t',
           Schema.export_fields this data context this ([], []) t
           = (Ret (patch_, output_), t') ->
           forall k,
             lookup k (obj_assign output_ patch_)
             = match lookup k patch_ with
               | Some v => Some v
               | None => lookup k output_
               end).
Proof.
  intros this data context key def value patch output t Hvalue Hun
    flat drop map_.
  assert (Htry : Schema.own this "_trydo" = None)
    by (apply (unshadowed_own _ _ _ Hun); cbn; tauto).
  assert (Hdis : Schema.own this "disabled" = None)
    by (apply (unshadowed_own _ _ _ Hun); cbn; tauto).
  repeat match goal with |- _ /\ _ => split end.
  - intros Hflat. unfold Schema.export_flat. fold flat. now rewrite Hflat.
  - intros r Hflat Hcall. unfold Schema.export_flat. fold flat.
    rewrite Hflat. rewrite (method_run _ _ _ Htry).
    rewrite (bind_Ret _ _ t (js_or r (VObj [])) t); [reflexivity |].
    apply trydo_Ret. unfold invoke, lift. fold flat.
    now rewrite (bind_Ret _ _ t r t) by now rewrite Hcall.
  - intros patch' t1 d t2 Hflat Hd. unfold Schema.export_field.
    rewrite (bind_Ret _ _ t value t) by (unfold lift; now rewrite Hvalue).
    rewrite (bind_Ret _ _ _ _ _ Hflat).
    rewrite (method_run _ _ _ Hdis).
    rewrite (bind_Ret _ _ _ _ _ Hd).
    destruct (truthy d); [reflexivity |].
    unfold bind at 1.
    destruct (Schema.export_drop this data context key def value t2)
      as [[[|] | e] t3]; [reflexivity | | reflexivity].
    unfold bind, ret.
    now destruct (Schema.export_map this data context key def value t3)
      as [[res | e] t4].
  - intros Hdrop. unfold Schema.export_drop. fold drop. now rewrite Hdrop.
  - intros b Hdrop Hcall. unfold Schema.export_drop. fold drop.
    rewrite Hdrop.
    destruct drop; try discriminate. cbn [isBoolean andb].
    rewrite (method_run _ _ _ Htry).
    rewrite (bind_Ret _ _ t b t); [reflexivity |].
    apply trydo_Ret. unfold invoke, lift. now rewrite Hcall.
  - intros Hfun Hnot. unfold Schema.export_drop. fold drop.
    rewrite Hfun.
    destruct drop as [| | [|] | | | | | | | | | | |]; try reflexivity.
    now contradiction Hnot.
  - intros r Hmap Hcall. unfold Schema.export_map. fold map_.
    rewrite Hmap. rewrite (method_run _ _ _ Htry).
    apply trydo_Ret. unfold invoke, lift. now rewrite Hcall.
  - intros Hmap. unfold Schema.export_map. fold map_. now rewrite Hmap.
  - reflexivity.
  - intros rest acc. cbn [Schema.export_fields]. unfold bind.
    now destruct (Schema.export_field this data context key def acc t)
      as [[acc' | e] t1].
  - unfold Schema.export, bind, ret.
    now destruct (Schema.export_fields this data context this ([], []) t)
      as [[[patch_ output_] | e] t'].
  - intros patch_ output_ t' H k. apply lookup_obj_assign.
    apply (export_fields_patch_NoDup this data context this ([], []) t
             (patch_, output_) t'); [constructor | exact H].
Qed.

End ExportClaim.

(** The serialization scenario of the specification: [password] is
    dropped, [profile] is dropped but its [flat] result is inlined,
    [nick] goes through [map], [age] is emitted as stored. *)
Lemma export_account :
  Schema.export (host := Demo.host) Demo.account Demo.account_data
    Demo.context []
  = (Ret (VObj [("nick", VStr "ADA"); ("age", VNum 36);
                ("firstName", VStr "Ada"); ("lastName", VStr "Lovelace")]),
     []).
Proof. reflexivity. Qed.

(** C3, the claim as stated, fails.  The field [a] has [drop: 1], which
    is truthy, and is emitted; the field [b] has [map: String], which is
    a function, and its stored value is emitted where [String(6)] is
    ['6'].  On a schema with a field named [disabled], [export] throws. *)
Lemma export_emits_truthy_drop :
  truthy (prop (Schema.field Shadow.kept "a") "drop") = true
  /\ apply_to (host := Demo.host) (prop (Schema.field Shadow.kept "b") "map")
       Demo.context [VNum 6; VStr "b"; Shadow.kept_data]
     = Ret (VStr "6")
  /\ Schema.export (host := Demo.host) Shadow.kept Shadow.kept_data
       Demo.context []
     = (Ret (VObj [("a", VNum 5); ("b", VNum 6)]), [])
  /\ Schema.export (host := Demo.host) Shadow.switch (VObj []) Demo.context []
     = (Throw (TypeError "this.disabled is not a function"), []).
Proof. repeat split. Qed.

(** The theorem on [export] at the field [profile] of the account
    schema: its [flat] result goes to the patch and the field is dropped. *)
Lemma export_flattens_skips_emits_merges_witness :
  let def := [("flat", VFun "names"); ("drop", VBool true)] in
  let value := VObj [("f", VStr "Ada"); ("l", VStr "Lovelace")] in
  Schema.export_flat (host := Demo.host) Demo.account Demo.account_data
    Demo.context "profile" def value [] []
  = (Ret [("firstName", VStr "Ada"); ("lastName", VStr "Lovelace")], [])
  /\ Schema.export_drop (host := Demo.host) Demo.account Demo.account_data
       Demo.context "profile" def value []
     = (Ret true, []).
Proof.
  intros def value.
  destruct (@export_flattens_skips_emits_merges Demo.host Demo.account
              Demo.account_data Demo.context "profile" def value [] [] []
              eq_refl eq_refl)
    as [_ [Hflat [_ [Hdrop _]]]].
  split.
  - exact (Hflat _ eq_refl eq_refl).
  - exact (Hdrop eq_refl).
Defined.
(** ** Types and the Ty facade *)

Section TypeClaims.
Context {host : Host}.

Lemma Number_matches this n :
  Types.Type_validate this (VNum n) (VNative "Number") = Ret VNull.
Proof.
  unfold Types.Type_validate, Prototype.is_existing.
  cbn [isInstanceOf isArray isObject isNaN orb Prototype.is_constructor].
  destruct (isConstructor "Number"); reflexivity.
Qed.

Lemma String_matches this s :
  Types.Type_validate this (VStr s) (VNative "String") = Ret VNull.
Proof.
  unfold Types.Type_validate, Prototype.is_existing.
  cbn [isInstanceOf isArray isObject isNaN orb Prototype.is_constructor].
  destruct (isConstructor "String"); reflexivity.
Qed.

(** [expect] on any instance that is not silenced: it returns [true]
    when [assert] passes and throws what [assert] threw otherwise, after
    putting the listeners on the queue. *)
Lemma expect_to_match_run this value type T t :
  Ty.create type = Ret T ->
  Ty.expect_to_match this value type t
  = match Types.assert T value with
    | Ret _ => (Ret (VBool true), t)
    | Throw e =>
        match Ty.dispatch this e t with
        | (_, t') =>
            if Ty._silent this then (Ret (VBool false), t')
            else (Throw e, t')
        end
    end.
Proof.
  intros HT. unfold Ty.expect_to_match.
  rewrite (bind_Ret _ _ t T t) by (unfold lift; now rewrite HT).
  unfold try_catch, bind, lift, Ty.throw_, ret, throw.
  destruct (Types.assert T value) as [[] | e]; [reflexivity |].
  assert (Hd : exists t', Ty.dispatch this e t = (Ret tt, t')).
  { unfold Ty.dispatch. generalize t.
    induction (Ty._listeners this) as [| fn rest IH]; intros t0.
    - now exists t0.
    - cbn [Ty.notify]. unfold bind, emit. apply IH. }
  destruct Hd as [t' Hd]. unfold bind. rewrite Hd.
  now destruct (Ty._silent this).
Qed.


(** A silenced instance does not throw on a mismatch: it returns
    [false]. *)
Lemma expect_silenced_returns this value type t :
  Ty._silent this = true -> returns (Ty.expect_to_match this value type) t.
Proof.
  intros Hs. destruct (create_returns type) as [T HT]. unfold returns.
  rewrite (expect_to_match_run this value type T t HT).
  destruct (Types.assert T value) as [[] | e].
  - now exists (VBool true), t.
  - destruct (Ty.dispatch this e t) as [r t']. rewrite Hs.
    now exists (VBool false), t'.
Qed.

End TypeClaims.


(** ** Default values *)

Section RefsFacts.
Import Refs.
Local Open Scope nat_scope.

Lemma Forall_range_weaken (l : list loc) a b a' b' :
  a' <= a -> b <= b' ->
  Forall (fun x => a <= x < b) l -> Forall (fun x => a' <= x < b') l.
Proof.
  intros Ha Hb H. eapply Forall_impl; [| exact H].
  cbn. intros x Hx. lia.
Qed.

Lemma clone_items_fresh items :
  Forall (fun v => forall n, fresh_copy v n (fst (clone v n)) (snd (clone v n)))
    items ->
  forall n,
    n <= snd (clone_items clone items n)
    /\ map content (fst (clone_items clone items n)) = map content items
    /\ Forall (fun a => n <= a < snd (clone_items clone items n))
         (flat_map addresses (fst (clone_items clone items n))).
Proof.
  induction 1 as [| x rest Hx _ IH]; intros n; cbn [clone_items].
  - cbn. repeat split; auto.
  - destruct (Hx n) as [Hle [Hcontent Haddr]].
    destruct (clone x n) as [x' n1]. cbn [fst snd] in *.
    destruct (IH n1) as [Hle' [Hcontent' Haddr']].
    fold (clone_items clone) in *.
    destruct (clone_items clone rest n1) as [rest' n2]. cbn [fst snd] in *.
    repeat split.
    + lia.
    + cbn [map]. now rewrite Hcontent, Hcontent'.
    + cbn [flat_map]. apply Forall_app. split.
      * eapply Forall_range_weaken; [| | exact Haddr]; lia.
      * eapply Forall_range_weaken; [| | exact Haddr']; lia.
Qed.

Lemma clone_fields_fresh fields :
  Forall (fun kv => forall n,
              fresh_copy (snd kv) n (fst (clone (snd kv) n))
                (snd (clone (snd kv) n)))
    fields ->
  forall n,
    n <= snd (clone_fields clone fields n)
    /\ map (fun kv => (fst kv, content (snd kv)))
         (fst (clone_fields clone fields n))
       = map (fun kv => (fst kv, content (snd kv))) fields
    /\ Forall (fun a => n <= a < snd (clone_fields clone fields n))
         (flat_map (fun kv => addresses (snd kv))
            (fst (clone_fields clone fields n))).
Proof.
  induction 1 as [| [k x] rest Hx _ IH]; intros n; cbn [clone_fields].
  - cbn. repeat split; auto.
  - cbn [snd] in Hx. destruct (Hx n) as [Hle [Hcontent Haddr]].
    destruct (clone x n) as [x' n1]. cbn [fst snd] in *.
    destruct (IH n1) as [Hle' [Hcontent' Haddr']].
    fold (clone_fields clone) in *.
    destruct (clone_fields clone rest n1) as [rest' n2]. cbn [fst snd] in *.
    repeat split.
    + lia.
    + cbn [map fst snd]. now rewrite Hcontent, Hcontent'.
    + cbn [flat_map snd]. apply Forall_app. split.
      * eapply Forall_range_weaken; [| | exact Haddr]; lia.
      * eapply Forall_range_weaken; [| | exact Haddr']; lia.
Qed.

(** [clone] gives a fresh copy. *)
Lemma clone_fresh v :
  forall next, fresh_copy v next (fst (clone v next)) (snd (clone v next)).
Proof.
  induction v as [| | b | z | s | f | a items IH | a fields IH | a c | f | c]
    using rval_induction; intros next;
    try (cbn; unfold fresh_copy; repeat split; auto; fail).
  - destruct (clone_items_fresh items IH (S next))
      as [Hle [Hcontent Haddr]].
    cbn [clone fst snd]. unfold fresh_copy. repeat split.
    + lia.
    + cbn [content]. now rewrite Hcontent.
    + cbn [addresses]. constructor; [lia |].
      eapply Forall_range_weaken; [| | exact Haddr]; lia.
  - destruct (clone_fields_fresh fields IH (S next))
      as [Hle [Hcontent Haddr]].
    cbn [clone fst snd]. unfold fresh_copy. repeat split.
    + lia.
    + cbn [content]. now rewrite Hcontent.
    + cbn [addresses]. constructor; [lia |].
      eapply Forall_range_weaken; [| | exact Haddr]; lia.
Qed.

(** The copy of an array or of a plain object is a new object, at the
    first free address. *)
Lemma clone_reference v next :
  isObject v || isArray v = true ->
  reference (fst (clone v next)) = Some next /\ next < snd (clone v next).
Proof.
  destruct v as [| | b | z | s | f | a items | a fields | a c | f | c];
    try discriminate; intros _; cbn [clone fst snd reference].
  - split; [reflexivity |].
    destruct (clone_items_fresh items
                (proj2 (Forall_forall _ _) (fun v _ => clone_fresh v))
                (S next)) as [Hle _]. lia.
  - split; [reflexivity |].
    destruct (clone_fields_fresh fields
                (proj2 (Forall_forall _ _)
                   (fun kv _ => clone_fresh (snd kv)))
                (S next)) as [Hle _]. lia.
Qed.

End RefsFacts.

Section DefaultClaim.
Import Refs.
Local Open Scope nat_scope.
Variable call : string -> alloc (res rval).

Lemma dollar_default_copy this key def next :
  own this key = Some def ->
  isObject (rprop def "default") || isArray (rprop def "default") = true ->
  dollar_default call this key next
  = (Ret (fst (clone (rprop def "default") next)),
     snd (clone (rprop def "default") next)).
Proof.
  intros Hown Hkind. unfold dollar_default. rewrite Hown.
  destruct (rprop def "default")
    as [| | b | z | s | f | a items | a fields | a c | f' | c'];
    try discriminate; cbn [isObject isArray orb];
    now destruct (clone _ next).
Qed.

(** C8, as amended.  For a field with a definition, [$default] returns
    what the default gives when called, if it is a function of the
    program; the default itself if it is neither such a function, a plain
    object nor an array, which a built-in function, a class and an object
    that is not plain (a Date) are: these are returned as they are, the
    same reference at every call; and otherwise a deep copy: a value of
    the same content whose arrays and plain objects are all new.  A later
    call, from whatever the allocator has reached by then, returns
    another such copy, a different reference from the first, sharing no
    array or plain object with it; and neither shares one with the
    default kept in the definition. *)
Theorem dollar_default_value_or_fresh_copy :
  forall (this : schema) (key : string) (def : list (string * rval))
         (next : loc),
    own this key = Some def ->
    let defaultValue := rprop def "default" in
    (forall f, defaultValue = RFun f ->
               dollar_default call this key next = call f next)
    /\ (isFunction defaultValue = false ->
        isObject defaultValue || isArray defaultValue = false ->
        dollar_default call this key next = (Ret defaultValue, next))
    /\ (forall f, defaultValue = RNative f \/ defaultValue = RClass f ->
                  dollar_default call this key next = (Ret defaultValue, next))
    /\ (forall a c, defaultValue = RInst a c ->
                    forall later,
                      dollar_default call this key later
                      = (Ret (RInst a c), later))
    /\ (isObject defaultValue || isArray defaultValue = true ->
        exists copy next',
          dollar_default call this key next = (Ret copy, next')
          /\ content copy = content defaultValue
          /\ reference copy = Some next
          /\ next < next'
          /\ Forall (fun a => next <= a < next') (addresses copy)
          /\ (Forall (fun a => a < next) (addresses defaultValue) ->
              forall a, In a (addresses copy) ->
                        ~ In a (addresses defaultValue))
          /\ forall later,
              next' <= later ->
              exists copy' later',
                dollar_default call this key later = (Ret copy', later')
                /\ content copy' = content defaultValue
                /\ reference copy' = Some later
                /\ reference copy' <> reference copy
                /\ forall a, In a (addresses copy) ->
                             ~ In a (addresses copy')).
Proof.
  intros this key def next Hown defaultValue.
  split; [| split; [| split; [| split]]].
  - intros f Hf. unfold dollar_default. rewrite Hown.
    fold defaultValue. now rewrite Hf.
  - intros Hfun Hkind. unfold dollar_default. rewrite Hown.
    fold defaultValue. rewrite Hkind.
    now destruct defaultValue.
  - intros f Hf. unfold dollar_default. rewrite Hown.
    fold defaultValue. now destruct Hf as [-> | ->].
  - intros a c Hd later. unfold dollar_default. rewrite Hown.
    fold defaultValue. now rewrite Hd.
  - intros Hkind.
    destruct (clone_fresh defaultValue next) as [Hle [Hcontent Haddr]].
    destruct (clone_reference defaultValue next Hkind) as [Href Hlt].
    exists (fst (clone defaultValue next)), (snd (clone defaultValue next)).
    split; [now apply dollar_default_copy |].
    split; [exact Hcontent |]. split; [exact Href |]. split; [exact Hlt |].
    split; [exact Haddr |]. split.
    + intros Hold a Hin Hin'.
      rewrite Forall_forall in Haddr, Hold.
      specialize (Haddr a Hin). specialize (Hold a Hin'). lia.
    + intros later Hlater.
      destruct (clone_fresh defaultValue later) as [Hle' [Hcontent' Haddr']].
      destruct (clone_reference defaultValue later Hkind) as [Href' Hlt'].
      exists (fst (clone defaultValue later)), (snd (clone defaultValue later)).
      split; [now apply dollar_default_copy |].
      split; [exact Hcontent' |]. split; [exact Href' |]. split.
      * rewrite Href, Href'. intros Heq. inversion Heq. lia.
      * intros a Hin Hin'.
        rewrite Forall_forall in Haddr, Haddr'.
        specialize (Haddr a Hin). specialize (Haddr' a Hin'). lia.
Qed.

End DefaultClaim.

(** The theorem on [$default] at the field [tags], whose default is an
    array: two calls in a row give the copies at the addresses 3 to 5 and
    6 to 8. *)
Lemma dollar_default_value_or_fresh_copy_witness :
  Refs.dollar_default RefsDemo.functions RefsDemo.article "tags" 3%nat
  = (Ret (Refs.RArr 3%nat
            [Refs.RStr "new";
             Refs.RObj 4%nat [("label", Refs.RStr "draft");
                              ("marks", Refs.RArr 5%nat [Refs.RNum 1])]]),
     6%nat)
  /\ exists copy next',
      Refs.dollar_default RefsDemo.functions RefsDemo.article "tags" 3%nat
      = (Ret copy, next')
      /\ Refs.content copy = Refs.content RefsDemo.tags
      /\ Refs.reference copy = Some 3%nat
      /\ (3 < next')%nat
      /\ Forall (fun a => (3 <= a < next')%nat) (Refs.addresses copy)
      /\ (Forall (fun a => (a < 3)%nat) (Refs.addresses RefsDemo.tags) ->
          forall a, In a (Refs.addresses copy) ->
                    ~ In a (Refs.addresses RefsDemo.tags))
      /\ forall later,
          (next' <= later)%nat ->
          exists copy' later',
            Refs.dollar_default RefsDemo.functions RefsDemo.article "tags"
              later = (Ret copy', later')
            /\ Refs.content copy' = Refs.content RefsDemo.tags
            /\ Refs.reference copy' = Some later
            /\ Refs.reference copy' <> Refs.reference copy
            /\ forall a, In a (Refs.addresses copy) ->
                         ~ In a (Refs.addresses copy').
Proof.
  split; [reflexivity |].
  exact (proj2 (proj2 (proj2 (proj2
           (@dollar_default_value_or_fresh_copy RefsDemo.functions
              RefsDemo.article "tags" [("default", RefsDemo.tags)] 3%nat
              eq_refl))))
           eq_refl).
Defined.

(** C8, the claim as stated, fails.  The default [Number] is a function
    and is returned as it is, where calling it gives 0; the default that
    is a Date is an object and two calls return the one Date, the same
    reference. *)
Lemma default_native_is_not_invoked :
  Refs.dollar_default RefsDemo.functions RefsDemo.record "kind" 1%nat
  = (Ret (Refs.RNative "Number"), 1%nat)
  /\ RefsDemo.functions "Number" 1%nat = (Ret (Refs.RNum 0), 1%nat)
  /\ Refs.dollar_default RefsDemo.functions RefsDemo.record "born" 1%nat
     = (Ret (Refs.RInst 0%nat "Date"), 1%nat)
  /\ Refs.dollar_default RefsDemo.functions RefsDemo.record "born" 2%nat
     = (Ret (Refs.RInst 0%nat "Date"), 2%nat)
  /\ Refs.reference (Refs.RInst 0%nat "Date") = Some 0%nat.
Proof. repeat split. Qed.

(** ** Keys that name an inherited member *)

(** [this[key]] is falsy exactly when the key names neither a field
    definition nor a member the instance inherits. *)
Lemma dollar_has_false this key :
  Schema.dollar_has this key = false <->
  Schema.own this key = None
  /\ existsb (String.eqb key) Schema.methods = false
  /\ String.eqb key "constructor" = false
  /\ String.eqb key "__proto__" = false
  /\ existsb (String.eqb key) Schema.Object_prototype = false.
Proof.
  unfold Schema.dollar_has, Schema.field.
  destruct (Schema.own this key) as [def |].
  - cbn. split; [discriminate | intros [H _]; discriminate].
  - destruct (existsb (String.eqb key) Schema.methods);
      [cbn; split; [discriminate | intros [_ [H _]]; discriminate] |].
    destruct (String.eqb key "constructor");
      [cbn; split; [discriminate | intros [_ [_ [H _]]]; discriminate] |].
    destruct (String.eqb key "__proto__");
      [cbn; split; [discriminate | intros [_ [_ [_ [H _]]]]; discriminate] |].
    destruct (existsb (String.eqb key) Schema.Object_prototype);
      cbn; split; try discriminate; intuition discriminate.
Qed.

(** C10, the claim as stated, fails: the demo schema has no definition
    under the key [validate], but [this["validate"]] is the method of that
    name, which is truthy and carries no meta; so [validate] goes past its
    first test, finds nothing disabled, required, typed or to validate,
    and returns the empty array. *)
Lemma validate_inherited_key :
  Schema.own Demo.person "validate" = None
  /\ Schema.field Demo.person "validate" = VFun "Schema.prototype.validate"
  /\ Schema.validate (host := Demo.host) Demo.person "validate" (VStr "x")
       Demo.context []
     = (Ret (VArr []), [])
  /\ ~ (forall (host : Host) (this : Schema.schema) (key : string)
               (value context : val) (t : trace),
           Schema.own this key = None ->
           exists error,
             Schema.validate this key value context t
             = (Ret (VArr [error]), t)).
Proof.
  split; [reflexivity |]. split; [reflexivity |]. split; [reflexivity |].
  intros H.
  destruct (H Demo.host Demo.person "validate" (VStr "x") Demo.context []
              eq_refl) as [error Herror].
  discriminate Herror.
Qed.

(** ** Further runs on the demo schema *)

(** A read-only field given as a string: [set] reports the refusal with
    that string for message and returns [prev]. *)
Lemma set_fixed :
  Schema.set (host := Demo.host) Demo.person "fixed" (VNum 7) (VNum 0)
    Demo.context []
  = (Ret (VNum 0),
     [Reported (Schema.refusal "fixed" (VNum 7) (VNum 0) "readonly"
                  (VStr "no edits"))]).
Proof. reflexivity. Qed.

(** A field that is neither disabled nor read-only: [set] is [$set]. *)
Lemma set_name :
  Schema.set (host := Demo.host) Demo.person "name" (VStr "Ada") (VStr "")
    Demo.context []
  = (Ret (VStr "Ada"), []).
Proof. reflexivity. Qed.

(** A disabled field validates to the empty array. *)
Lemma validate_frozen :
  Schema.validate (host := Demo.host) Demo.person "frozen" VUndef
    Demo.context []
  = (Ret (VArr []), []).
Proof. reflexivity. Qed.

(** An entry of the definitions that is no plain object is left out by
    the constructor. *)
Lemma version_is_no_field :
  Schema.dollar_has Demo.person "version" = false.
Proof. reflexivity. Qed.

(* ================================================================== *)
(** * Further properties of the code *)

(** ** The prototype registry *)

Section RegistryFacts.
Import Prototype.

(** [===] holds between identical values only. *)
Lemma strict_eq_true a b : strict_eq a b = true -> a = b.
Proof.
  destruct a, b; cbn; try discriminate; try reflexivity; intros H.
  - apply Bool.eqb_prop in H. now subst.
  - apply Z.eqb_eq in H. now subst.
  - apply Bool.eqb_prop in H. now subst.
  - apply String.eqb_eq in H. now subst.
  - apply String.eqb_eq in H. now subst.
  - apply String.eqb_eq in H. now subst.
  - apply String.eqb_eq in H. now subst.
  - apply String.eqb_eq in H. now subst.
Qed.

Lemma find_app_None (t u : list item) proto :
  find t proto = None -> find (t ++ u) proto = find u proto.
Proof.
  unfold find. induction t as [| it rest IH]; cbn [List.find app].
  - reflexivity.
  - destruct (strict_eq (fst it) proto); [discriminate | exact IH].
Qed.

Lemma find_app_Some (t u : list item) proto it :
  find t proto = Some it -> find (t ++ u) proto = Some it.
Proof.
  unfold find. induction t as [| it0 rest IH]; cbn [List.find app].
  - discriminate.
  - destruct (strict_eq (fst it0) proto); [trivial | exact IH].
Qed.

Lemma find_replace_same (t : list item) proto validate it :
  find t proto = Some it ->
  find (replace t proto validate) proto = Some (fst it, validate).
Proof.
  unfold find. induction t as [| it0 rest IH]; cbn [List.find replace].
  - discriminate.
  - destruct (strict_eq (fst it0) proto) eqn:E; cbn [List.find fst].
    + rewrite E. intros H. now inversion H.
    + rewrite E. exact IH.
Qed.

Lemma find_replace_other (t : list item) proto validate q :
  strict_eq proto q = false ->
  find (replace t proto validate) q = find t q.
Proof.
  intros Hq. unfold find.
  induction t as [| it0 rest IH]; cbn [List.find replace].
  - reflexivity.
  - destruct (strict_eq (fst it0) proto) eqn:E; cbn [List.find fst].
    + apply strict_eq_true in E. rewrite E, Hq. reflexivity.
    + now rewrite IH.
Qed.

Lemma replace_absent (t : list item) proto validate :
  find t proto = None -> replace t proto validate = t.
Proof.
  unfold find. induction t as [| it0 rest IH]; cbn [List.find replace].
  - reflexivity.
  - destruct (strict_eq (fst it0) proto); [discriminate |].
    intros H. now rewrite IH.
Qed.

Lemma replace_replace (t : list item) proto v1 v2 :
  replace (replace t proto v1) proto v2 = replace t proto v2.
Proof.
  induction t as [| it0 rest IH]; cbn [replace].
  - reflexivity.
  - destruct (strict_eq (fst it0) proto) eqn:E; cbn [replace fst].
    + now rewrite E.
    + now rewrite E, IH.
Qed.

Lemma replace_app_last (t : list item) proto v1 v2 :
  find t proto = None ->
  strict_eq proto proto = true ->
  replace (t ++ [(proto, v1)]) proto v2 = t ++ [(proto, v2)].
Proof.
  unfold find. intros Hnone Hrefl.
  induction t as [| it0 rest IH]; cbn [List.find replace app] in *.
  - cbn [fst]. now rewrite Hrefl.
  - destruct (strict_eq (fst it0) proto); [discriminate |].
    now rewrite IH.
Qed.

(** X1.  What is registered is found, for a token that [===] can
    recognise here, which is a primitive other than NaN, a function or a
    class (a token that is an object is known by its reference, which
    the values do not carry, and is outside this statement): after
    [register(proto, validate)] the table gives [validate] for [proto],
    and for every other token what it gave before. *)
Theorem register_then_find :
  forall (t : list item) (proto : val) (validate : val -> bool) (q : val),
    strict_eq proto proto = true ->
    find (register t proto validate) proto = Some (proto, validate)
    /\ (strict_eq proto q = false ->
        find (register t proto validate) q = find t q).
Proof.
  intros t proto validate q Hrefl. unfold register. split.
  - destruct (find t proto) as [it |] eqn:Hfind.
    + rewrite (find_replace_same t proto validate it Hfind).
      assert (Hit : strict_eq (fst it) proto = true).
      { unfold find in Hfind. apply find_some in Hfind. tauto. }
      apply strict_eq_true in Hit. now rewrite Hit.
    + rewrite (find_app_None t _ proto Hfind).
      unfold find. cbn [List.find fst]. now rewrite Hrefl.
  - intros Hq. destruct (find t proto) as [it |] eqn:Hfind.
    + now apply find_replace_other.
    + destruct (find t q) as [it |] eqn:Hq'.
      * now apply find_app_Some.
      * rewrite (find_app_None t _ q Hq').
        unfold find. cbn [List.find fst]. now rewrite Hq.
Qed.

(** X2.  Registering again a token that [===] can recognise here (a
    primitive other than NaN, a function or a class; not an object)
    replaces its predicate where it stands: the table after two
    registrations of one token is the table after the second alone, and
    a registration adds an entry only for a token the table did not
    have. *)
Theorem register_twice :
  forall (t : list item) (proto : val) (v1 v2 : val -> bool),
    strict_eq proto proto = true ->
    register (register t proto v1) proto v2 = register t proto v2
    /\ length (register t proto v1)
       = match find t proto with
         | Some _ => length t
         | None => S (length t)
         end.
Proof.
  intros t proto v1 v2 Hrefl. split.
  - unfold register at 2 3.
    destruct (find t proto) as [it |] eqn:Hfind.
    + unfold register.
      rewrite (find_replace_same t proto v1 it Hfind).
      apply replace_replace.
    + unfold register. rewrite (find_app_None t _ proto Hfind).
      unfold find at 1. cbn [List.find fst]. rewrite Hrefl.
      now apply replace_app_last.
  - unfold register. destruct (find t proto) as [it |] eqn:Hfind.
    + clear Hfind. induction t as [| it0 rest IH]; cbn [replace length].
      * reflexivity.
      * destruct (strict_eq (fst it0) proto); cbn [length]; congruence.
    + rewrite length_app. cbn [length]. lia.
Qed.

(** X3.  NaN is never found, since [NaN === NaN] is false: whatever the
    table holds, [find(NaN)] gives nothing, and every registration of NaN
    adds one more entry. *)
Theorem NaN_is_never_found :
  forall (t : list item) (validate : val -> bool),
    find t VNaN = None
    /\ register t VNaN validate = t ++ [(VNaN, validate)]
    /\ find (register t VNaN validate) VNaN = None.
Proof.
  assert (Hnone : forall t : list item, find t VNaN = None).
  { unfold find. induction t as [| it rest IH]; cbn [List.find].
    - reflexivity.
    - now destruct (fst it). }
  intros t validate. split; [apply Hnone |].
  split; [| apply Hnone].
  unfold register. now rewrite Hnone.
Qed.

End RegistryFacts.

Section RegistryHostFacts.
Context {host : Host}.


End RegistryHostFacts.

(** ** Tuple *)

Section TupleFacts.
Context {host : Host}.

(** The loop of [assert] returns exactly when every item from [i] on
    passes its check. *)
Lemma Tuple_items_pass this info patterns items rest :
  forall i,
    Types.Tuple_items this info patterns items i rest = Ret tt
    <-> (forall j value,
            nth_error rest j = Some value ->
            item_passes this patterns items (i + j) value).
Proof.
  induction rest as [| value rest IH]; intros i; cbn [Types.Tuple_items].
  - split; [| reflexivity]. intros _ j v Hj. now destruct j.
  - fold (item_check this patterns items i value). split.
    + intros Hrun j v Hj.
      destruct (item_check this patterns items i value) as [error | e] eqn:Hc;
        [| discriminate].
      destruct (truthy error) eqn:Ht; [discriminate |].
      destruct j as [| j]; cbn [nth_error] in Hj.
      * inversion Hj; subst v. rewrite Nat.add_0_r. now exists error.
      * replace (i + S j)%nat with (S i + j)%nat by lia.
        now apply (proj1 (IH (S i)) Hrun).
    + intros Hall.
      destruct (Hall 0%nat value eq_refl) as [error [Hc Ht]].
      rewrite Nat.add_0_r in Hc. rewrite Hc, Ht.
      apply IH. intros j v Hj.
      replace (S i + j)%nat with (i + S j)%nat by lia.
      now apply Hall.
Qed.

(** X5.  What [Tuple.prototype.assert] rejects before it looks at any
    item, whatever the patterns are: a value that is no array is
    [mistaken]; in strict mode an array whose length is not the number of
    patterns is [dirty].  Outside strict mode the empty array passes. *)
Theorem Tuple_assert_before_items :
  forall (this value : val) (items : list val),
    let info := [("value", value); ("pattern", prop this "pattern");
                 ("type", this); ("level", VStr "type");
                 ("action", VStr "assert")] in
    (isArray value = false ->
     Types.Tuple_assert this value = Throw (Types.new_TyError "mistaken" info))
    /\ (value = VArr items ->
        prop this "mode" = VStr "strict" ->
        js_length (prop this "pattern") <> VNum (Z.of_nat (length items)) ->
        Types.Tuple_assert this value
        = Throw (Types.new_TyError "dirty"
                   (info ++ [("length", js_length (prop this "pattern"))])))
    /\ (prop this "mode" <> VStr "strict" ->
        Types.Tuple_assert this (VArr []) = Ret tt).
Proof.
  intros this value items info. split; [| split].
  - intros Harr. unfold Types.Tuple_assert.
    destruct value; try reflexivity. discriminate.
  - intros -> Hmode Hlen. unfold Types.Tuple_assert.
    replace (strict_eq (prop this "mode") (VStr "strict")) with true
      by (rewrite Hmode; reflexivity).
    destruct (strict_eq (VNum (Z.of_nat (length items)))
                (js_length (prop this "pattern"))) eqn:E.
    + apply strict_eq_true in E. congruence.
    + reflexivity.
  - intros Hmode. unfold Types.Tuple_assert.
    destruct (strict_eq (prop this "mode") (VStr "strict")) eqn:E.
    + apply strict_eq_true in E. contradiction.
    + reflexivity.
Qed.

(** X6.  Outside strict mode, [assert] of an array passes exactly when
    each item passes the check against the pattern at its own index;
    patterns beyond the last item are not consulted. *)
Theorem Tuple_assert_passes_iff_items_pass :
  forall (this : val) (items : list val),
    prop this "mode" <> VStr "strict" ->
    (Types.Tuple_assert this (VArr items) = Ret tt
     <-> forall j value,
         nth_error items j = Some value ->
         item_passes this (prop this "pattern") items j value).
Proof.
  intros this items Hmode. unfold Types.Tuple_assert.
  destruct (strict_eq (prop this "mode") (VStr "strict")) eqn:E.
  { apply strict_eq_true in E. contradiction. }
  cbn [andb]. apply (Tuple_items_pass this _ _ items items 0%nat).
Qed.

End TupleFacts.

(** ** The Ty instance: listeners *)

Section ListenerFacts.

Lemma notify_run listeners error :
  forall t,
    Ty.notify listeners error t
    = (Ret tt, t ++ map (fun fn => Scheduled fn error) listeners).
Proof.
  induction listeners as [| fn rest IH]; intros t; cbn [Ty.notify map].
  - unfold ret. now rewrite app_nil_r.
  - unfold bind, emit. rewrite IH. now rewrite <- app_assoc.
Qed.

(** X7.  [dispatch] puts one task on the queue for every listener, in
    the order they were bound, and runs none; [throw] does the same and
    then throws the error, unless the instance is silent. *)
Theorem dispatch_schedules_every_listener :
  forall (this : Ty.instance) (error : val) (t : trace),
    let queued := map (fun fn => Scheduled fn error) (Ty._listeners this) in
    Ty.dispatch this error t = (Ret tt, t ++ queued)
    /\ Ty.throw_ this error t
       = (if Ty._silent this then Ret tt else Throw error, t ++ queued).
Proof.
  intros this error t queued. split.
  - apply notify_run.
  - unfold Ty.throw_, Ty.dispatch, bind. rewrite notify_run.
    now destruct (Ty._silent this).
Qed.

Lemma unbind_from_beyond rounds :
  forall i listeners fn,
    (length listeners <= i)%nat ->
    Ty.unbind_from rounds i listeners fn = listeners.
Proof.
  induction rounds as [| rounds IH]; intros i listeners fn Hi;
    cbn [Ty.unbind_from].
  - reflexivity.
  - destruct (nth_error listeners i) eqn:E.
    + assert (i < length listeners)%nat
        by (apply nth_error_Some; congruence).
      lia.
    + apply IH. lia.
Qed.

Lemma splice1_middle (before : list val) item rest :
  Ty.splice1 (length before) (before ++ item :: rest) = before ++ rest.
Proof.
  unfold Ty.splice1.
  rewrite firstn_app, firstn_all, Nat.sub_diag. cbn [firstn].
  rewrite app_nil_r.
  replace (S (length before)) with (length (before ++ [item]))
    by (rewrite length_app; cbn; lia).
  replace (before ++ item :: rest) with ((before ++ [item]) ++ rest)
    by now rewrite <- app_assoc.
  rewrite skipn_app, skipn_all, Nat.sub_diag. reflexivity.
Qed.

(** The index loop of [unbind] does what [unbind_skipping] says. *)
Lemma unbind_from_skipping rounds :
  forall before rest fn,
    (length rest <= rounds)%nat ->
    Ty.unbind_from rounds (length before) (before ++ rest) fn
    = before ++ unbind_skipping rest fn.
Proof.
  induction rounds as [| rounds IH]; intros before rest fn Hr.
  - destruct rest; [| cbn in Hr; lia]. reflexivity.
  - cbn [Ty.unbind_from].
    destruct rest as [| item rest].
    + rewrite app_nil_r.
      rewrite (proj2 (nth_error_None before (length before)))
        by lia.
      cbn. rewrite app_nil_r. apply unbind_from_beyond. lia.
    + rewrite nth_error_app2 by lia. rewrite Nat.sub_diag.
      cbn [nth_error unbind_skipping]. cbn [length] in Hr.
      destruct (strict_eq item fn).
      * rewrite splice1_middle.
        destruct rest as [| next rest].
        -- rewrite app_nil_r. apply unbind_from_beyond. lia.
        -- specialize (IH (before ++ [next]) rest fn).
           rewrite length_app in IH. cbn [length] in IH, Hr.
           replace (length before + 1)%nat with (S (length before)) in IH
             by lia.
           rewrite <- app_assoc in IH. cbn [app] in IH.
           rewrite IH by lia. now rewrite <- app_assoc.
      * specialize (IH (before ++ [item]) rest fn).
        rewrite length_app in IH. cbn [length] in IH.
        replace (length before + 1)%nat with (S (length before)) in IH
          by lia.
        rewrite <- app_assoc in IH. cbn [app] in IH.
        rewrite IH by lia. now rewrite <- app_assoc.
Qed.

Lemma unbind_listeners this fn :
  Ty._listeners (Ty.unbind this fn)
  = unbind_skipping (Ty._listeners this) fn.
Proof.
  unfold Ty.unbind. cbn [Ty._listeners].
  exact (unbind_from_skipping _ [] (Ty._listeners this) fn (le_n _)).
Qed.

Lemma unbind_skipping_absent listeners fn :
  (forall item, In item listeners -> strict_eq item fn = false) ->
  unbind_skipping listeners fn = listeners.
Proof.
  induction listeners as [| item rest IH]; intros Habs; cbn [unbind_skipping].
  - reflexivity.
  - rewrite (Habs item) by now left.
    rewrite IH; [reflexivity |]. intros x Hx. apply Habs. now right.
Qed.

Lemma unbind_skipping_last listeners fn :
  (forall item, In item listeners -> strict_eq item fn = false) ->
  strict_eq fn fn = true ->
  unbind_skipping (listeners ++ [fn]) fn = listeners.
Proof.
  induction listeners as [| item rest IH]; intros Habs Hrefl;
    cbn [unbind_skipping app].
  - now rewrite Hrefl.
  - rewrite (Habs item) by now left.
    rewrite IH; [reflexivity | | exact Hrefl].
    intros x Hx. apply Habs. now right.
Qed.

(** X8.  Binding a function that was not bound and unbinding it gives
    the instance back; and unbinding what was never bound changes
    nothing. *)
Theorem bind_then_unbind :
  forall (this : Ty.instance) (f : string),
    (forall item, In item (Ty._listeners this) ->
                  strict_eq item (VFun f) = false) ->
    Ty.unbind (Ty.bind this (VFun f)) (VFun f) = this
    /\ Ty.unbind this (VFun f) = this.
Proof.
  intros this f Habs.
  assert (Heq : forall a b : Ty.instance,
             Ty._listeners a = Ty._listeners b ->
             Ty._silent a = Ty._silent b -> a = b).
  { intros [la sa] [lb sb]. cbn. now intros -> ->. }
  split; apply Heq; try reflexivity; rewrite unbind_listeners.
  - unfold Ty.bind. cbn [isFunction Ty._listeners].
    apply unbind_skipping_last; [exact Habs |].
    cbn. apply String.eqb_refl.
  - now apply unbind_skipping_absent.
Qed.

Lemma unbind_skipping_keeps_others listeners fn :
  forall n, (length listeners <= n)%nat ->
  filter (fun item => negb (strict_eq item fn)) (unbind_skipping listeners fn)
  = filter (fun item => negb (strict_eq item fn)) listeners.
Proof.
  intros n. revert listeners.
  induction n as [| n IH]; intros listeners Hn.
  - destruct listeners; [reflexivity | cbn in Hn; lia].
  - destruct listeners as [| item rest]; [reflexivity |].
    cbn [unbind_skipping length] in *.
    destruct (strict_eq item fn) eqn:E.
    + cbn [filter]. rewrite E. cbn [negb].
      destruct rest as [| next rest]; [reflexivity |].
      cbn [filter length] in *. rewrite IH by lia. reflexivity.
    + cbn [filter]. rewrite E. cbn [negb]. rewrite IH by lia. reflexivity.
Qed.

Lemma unbind_skipping_apart listeners fn :
  forall n, (length listeners <= n)%nat ->
  apart listeners fn ->
  unbind_skipping listeners fn
  = filter (fun item => negb (strict_eq item fn)) listeners.
Proof.
  intros n. revert listeners.
  induction n as [| n IH]; intros listeners Hn Hap.
  - destruct listeners; [reflexivity | cbn in Hn; lia].
  - destruct listeners as [| item rest]; [reflexivity |].
    cbn [unbind_skipping filter length] in *.
    destruct (strict_eq item fn) eqn:E; cbn [negb].
    + destruct rest as [| next rest]; [reflexivity |].
      cbn [apart] in Hap. destruct Hap as [Hnext Hrest].
      cbn [filter]. rewrite (Hnext E). cbn [negb].
      cbn [length] in Hn. rewrite IH; [reflexivity | lia |].
      cbn [apart] in Hrest. destruct rest; [exact I | tauto].
    + rewrite IH; [reflexivity | lia |].
      cbn [apart] in Hap. destruct rest; [exact I | tauto].
Qed.

Lemma unbind_skipping_repeat fn :
  strict_eq fn fn = true ->
  forall n, unbind_skipping (repeat fn n) fn = repeat fn (Nat.div2 n).
Proof.
  intros Hrefl.
  assert (H : forall n,
             unbind_skipping (repeat fn n) fn = repeat fn (Nat.div2 n)
             /\ unbind_skipping (repeat fn (S n)) fn
                = repeat fn (Nat.div2 (S n))).
  { induction n as [| n [IH1 IH2]].
    - cbn. now rewrite Hrefl.
    - split; [exact IH2 |].
      cbn [repeat unbind_skipping Nat.div2]. rewrite Hrefl.
      cbn [repeat] in IH1. now rewrite IH1. }
  intros n. apply H.
Qed.

(** X9.  [unbind(fn)] splices inside [forEach], so the listener after
    each one it removes is not looked at.  Every listener other than
    [fn] is kept, in order; [fn] is removed everywhere when no two of
    its occurrences are next to each other; but of [n] occurrences in a
    row, [n / 2] are left. *)
Theorem unbind_skips_after_a_removal :
  forall (this : Ty.instance) (f : string) (n : nat),
    let fn := VFun f in
    let others := fun item => negb (strict_eq item fn) in
    filter others (Ty._listeners (Ty.unbind this fn))
    = filter others (Ty._listeners this)
    /\ (apart (Ty._listeners this) fn ->
        Ty._listeners (Ty.unbind this fn)
        = filter others (Ty._listeners this))
    /\ Ty._listeners
         (Ty.unbind {| Ty._listeners := repeat fn n; Ty._silent := false |} fn)
       = repeat fn (Nat.div2 n).
Proof.
  intros this f n fn others. rewrite !unbind_listeners.
  split; [| split].
  - exact (unbind_skipping_keeps_others _ fn _ (le_n _)).
  - exact (unbind_skipping_apart _ fn _ (le_n _)).
  - cbn [Ty._listeners]. apply unbind_skipping_repeat.
    cbn. apply String.eqb_refl.
Qed.

End ListenerFacts.

(** ** The Ty facade on any instance *)

Section FacadeFacts.
Context {host : Host}.

(** X10.  [is(type).typeof(value)] is [catch(value).by(type)] turned
    into a boolean: it answers [true] exactly when [catch] gives no
    error, and it puts the same tasks on the queue. *)
Theorem is_typeof_is_catch :
  forall (this : Ty.instance) (type value : val) (t : trace),
    Ty.is_typeof this type value t
    = match Ty.catch_by this value type t with
      | (Ret error, t') => (Ret (VBool (negb (truthy error))), t')
      | (Throw x, t') => (Throw x, t')
      end.
Proof.
  intros this type value t. unfold Ty.is_typeof, Ty.catch_by.
  destruct (create_returns type) as [T HT].
  rewrite !(bind_Ret _ _ t T t) by (unfold lift; now rewrite HT).
  unfold bind.
  destruct (truthy (Types.catch T value)) eqn:E.
  - unfold Ty.dispatch. rewrite notify_run. unfold ret. now rewrite E.
  - unfold ret. now rewrite E.
Qed.

(** X11.  On a silent instance [expect(value).to.match(type)] never
    throws: it returns [true] when [assert] passes, and on a mismatch
    it returns [false] after queueing the error for every listener. *)
Theorem expect_on_silent_instance :
  forall (this : Ty.instance) (value type : val) (t : trace),
    Ty._silent this = true ->
    exists T,
      Ty.create type = Ret T
      /\ Ty.expect_to_match this value type t
         = match Types.assert T value with
           | Ret _ => (Ret (VBool true), t)
           | Throw e =>
               (Ret (VBool false),
                t ++ map (fun fn => Scheduled fn e) (Ty._listeners this))
           end.
Proof.
  intros this value type t Hs.
  destruct (create_returns type) as [T HT]. exists T.
  split; [exact HT |].
  rewrite (expect_to_match_run this value type T t HT).
  destruct (Types.assert T value) as [[] | e]; [reflexivity |].
  unfold Ty.dispatch. rewrite notify_run. now rewrite Hs.
Qed.

(** X12.  [create] of rules.js and [Ty.create] test for a Type instance,
    a plain object and an array in different orders, and build the same
    type for every pattern. *)
Theorem create_agrees_with_Ty_create :
  forall type : val, Rules.create type = Ty.create type.
Proof.
  intros type. unfold Rules.create, Ty.create.
  destruct type; reflexivity.
Qed.

End FacadeFacts.

(** ** The schema: definitions and metas given as plain values *)

Section SchemaMetaFacts.
Context {host : Host}.

Lemma own_new_absent defs key :
  ~ In key (map fst defs) -> Schema.own (Schema.new defs) key = None.
Proof.
  induction defs as [| [k d] rest IH]; intros Hnot; [reflexivity |].
  cbn [map fst In] in Hnot.
  assert (Hk : String.eqb key k = false).
  { apply String.eqb_neq. intros ->. apply Hnot. now left. }
  assert (Hrest : Schema.own (Schema.new rest) key = None)
    by (apply IH; tauto).
  unfold Schema.new. cbn [flat_map snd fst].
  destruct d; cbn [app]; try exact Hrest.
  cbn [Schema.own]. rewrite Hk. exact Hrest.
Qed.

(** X13.  The constructor keeps, under its key and in the order given,
    every definition that is a plain object, and nothing else: a key
    whose entry is not a plain object names no field of the schema. *)
Theorem new_keeps_object_definitions :
  forall (defs : list (string * val)) (key : string),
    NoDup (map fst defs) ->
    Schema.own (Schema.new defs) key
    = match lookup key defs with
      | Some (VObj def) => Some def
      | _ => None
      end
    /\ map fst (Schema.new defs)
       = map fst (filter (fun kd => isObject (snd kd)) defs).
Proof.
  intros defs key Hnd. split.
  - induction defs as [| [k d] rest IH]; [reflexivity |].
    cbn [map fst] in Hnd. apply NoDup_cons_iff in Hnd as [Hnotin Hnd].
    specialize (IH Hnd). cbn [lookup].
    destruct (String.eqb key k) eqn:Hk.
    + apply String.eqb_eq in Hk. subst k.
      assert (Hrest := own_new_absent rest key Hnotin).
      unfold Schema.new. cbn [flat_map snd fst].
      destruct d; cbn [app]; try exact Hrest.
      cbn [Schema.own]. now rewrite String.eqb_refl.
    + unfold Schema.new. cbn [flat_map snd fst].
      destruct d; cbn [app]; try exact IH.
      cbn [Schema.own]. rewrite Hk. exact IH.
  - clear Hnd. induction defs as [| [k d] rest IH]; [reflexivity |].
    unfold Schema.new. cbn [flat_map snd fst filter].
    destruct d; cbn [isObject app map fst]; try exact IH.
    f_equal. exact IH.
Qed.

Lemma prop_truthy_lookup def meta node :
  prop (VObj def) meta = node -> truthy node = true ->
  lookup meta def = Some node.
Proof.
  unfold prop. destruct (lookup meta def); intros <- H;
    [reflexivity | discriminate].
Qed.

(** A meta given as a plain value is its own verdict. *)
Lemma determine_plain this key def meta context fallbackRes node t :
  Schema.own this key = Some def ->
  lookup meta def = Some node ->
  plain_meta node ->
  Schema.dollar_determine this key meta context fallbackRes t = (Ret node, t).
Proof.
  intros Hown Hl [Ho Hf]. unfold Schema.dollar_determine.
  rewrite (field_own _ _ _ Hown). unfold inObject, prop. rewrite Hl.
  cbn [truthy negb]. now rewrite Ho, Hf.
Qed.

(** A meta that is absent gives the fallback. *)
Lemma determine_absent this key def meta context fallbackRes t :
  Schema.own this key = Some def ->
  inObject meta (VObj def) = false ->
  Schema.dollar_determine this key meta context fallbackRes t
  = (Ret fallbackRes, t).
Proof.
  intros Hown Hin. unfold Schema.dollar_determine.
  rewrite (field_own _ _ _ Hown). now rewrite Hin.
Qed.

Lemma message_plain this key def meta context node template t :
  Schema.own this key = Some def ->
  prop (VObj def) meta = node ->
  truthy node = true ->
  plain_meta node ->
  Schema.template_of meta Schema.defualtMessages = Some template ->
  Schema.dollar_message this key meta context node t
  = (Ret (plain_message node (interpolate template key)), t).
Proof.
  intros Hown Hprop Htruthy [Ho Hf] Htemplate. unfold Schema.dollar_message.
  rewrite (field_own _ _ _ Hown). cbn [truthy negb].
  rewrite Hprop, Htruthy, Htemplate. cbn [negb]. unfold plain_message.
  destruct node; try discriminate; reflexivity.
Qed.

(** X14.  On a schema with no field named [disabled], [$determine],
    [$message] or [onError], a field whose [disabled] meta is a truthy
    plain value is left alone by every operation: [set] returns the
    previous value and reports the refusal once, with the meta itself for
    message when it is a string and the default message otherwise;
    [validate] returns no error whatever the value; the validator
    selector returns no error whatever it is asked for; and a round of
    [export] leaves the output and (the field having no [flat] function)
    the patch as they were. *)
Theorem disabled_field_is_left_alone :
  forall (this : Schema.schema) (key : string) (def : list (string * val))
         (d context : val),
    Schema.own this key = Some def ->
    unshadowed this ["disabled"; "$determine"; "$message"; "onError"] = true ->
    prop (VObj def) "disabled" = d ->
    truthy d = true ->
    plain_meta d ->
    (forall next prev t,
        Schema.set this key next prev context t
        = (Ret prev,
           t ++ [Reported
                   (Schema.refusal key next prev "disabled"
                      (plain_message d
                         (key ++ " can not be set new value because of disabled.")))]))
    /\ (forall value t,
           Schema.validate this key value context t = (Ret (VArr []), t))
    /\ (forall value args t,
           Schema.dollar_validate this key value context args t = (Ret [], t))
    /\ (forall data value patch output t,
           member data (VStr key) = Ret value ->
           isFunction (prop (VObj def) "flat") = false ->
           Schema.export_field this data context key def (patch, output) t
           = (Ret (patch, output), t)).
Proof.
  intros this key def d context Hown Hun Hprop Htruthy Hplain.
  assert (Hrep : unshadowed this ["$message"; "onError"] = true)
    by (apply (unshadowed_sub _ _ _ Hun); intros m; cbn; tauto).
  assert (Hl := prop_truthy_lookup _ _ _ Hprop Htruthy).
  assert (Hdis : Schema.own this "disabled" = None)
    by (apply (unshadowed_own _ _ _ Hun); cbn; tauto).
  assert (Hd : forall t, Schema.disabled this key context t = (Ret d, t)).
  { intros t. unfold Schema.disabled.
    rewrite (method_run this "$determine")
      by (apply (unshadowed_own _ _ _ Hun); cbn; tauto).
    now apply determine_plain with (def := def). }
  repeat split.
  - intros next prev t. unfold Schema.set.
    rewrite (field_own _ _ _ Hown). cbn [truthy negb].
    rewrite (method_run _ _ _ Hdis).
    rewrite (bind_Ret _ _ _ _ _ (Hd t)). rewrite Htruthy.
    rewrite (bind_Ret _ _ _ _ _
               (report_run this key "disabled" context d _ _ t t
                  Hrep
                  (message_plain this key def "disabled" context d _ t
                     Hown Hprop Htruthy Hplain eq_refl))).
    reflexivity.
  - intros value t. unfold Schema.validate.
    rewrite (field_own _ _ _ Hown). cbn [truthy negb].
    rewrite (method_run _ _ _ Hdis).
    rewrite (bind_Ret _ _ _ _ _ (Hd t)). now rewrite Htruthy.
  - intros value args t. unfold Schema.dollar_validate.
    rewrite (field_own _ _ _ Hown). rewrite (method_run _ _ _ Hdis).
    rewrite (bind_Ret _ _ _ _ _ (Hd t)). now rewrite Htruthy.
  - intros data value patch output t Hvalue Hflat.
    unfold Schema.export_field.
    rewrite (bind_Ret _ _ t value t) by (unfold lift; now rewrite Hvalue).
    unfold Schema.export_flat. rewrite Hflat. rewrite bind_ret.
    rewrite (method_run _ _ _ Hdis).
    rewrite (bind_Ret _ _ _ _ _ (Hd t)). now rewrite Htruthy.
Qed.

(** X15.  On a schema with no field named [disabled], [readonly],
    [$determine], [$message] or [onError], a field that is not disabled
    and whose [readonly] meta is a truthy plain value refuses [set]: the
    previous value is returned and the refusal reported once, with the
    meta itself for message when it is a string and the default message
    otherwise.  [$set] does not look at the meta: on such a field with no
    [compute], no setter function and no type it returns the new value
    and reports nothing. *)
Theorem readonly_refuses_set_not_dollar_set :
  forall (this : Schema.schema) (key : string) (def : list (string * val))
         (r context : val),
    Schema.own this key = Some def ->
    unshadowed this ["disabled"; "readonly"; "$determine"; "$message";
                     "onError"] = true ->
    inObject "disabled" (VObj def) = false ->
    prop (VObj def) "readonly" = r ->
    truthy r = true ->
    plain_meta r ->
    (forall next prev t,
        Schema.set this key next prev context t
        = (Ret prev,
           t ++ [Reported
                   (Schema.refusal key next prev "readonly"
                      (plain_message r
                         (key ++ " can not be set new value because of readonly.")))]))
    /\ (truthy (prop (VObj def) "compute") = false ->
        isFunction (prop (VObj def) "setter") = false ->
        truthy (prop (VObj def) "type") = false ->
        forall value t,
          Schema.dollar_set this key value context t = (Ret value, t)).
Proof.
  intros this key def r context Hown Hun Hdis Hprop Htruthy Hplain.
  assert (Hrep : unshadowed this ["$message"; "onError"] = true)
    by (apply (unshadowed_sub _ _ _ Hun); intros m; cbn; tauto).
  assert (Hl := prop_truthy_lookup _ _ _ Hprop Htruthy).
  assert (Hnone : forall m,
    In m ["disabled"; "readonly"; "$determine"; "$message"; "onError"] ->
    Schema.own this m = None)
    by (intros m; apply (unshadowed_own _ _ _ Hun)).
  split.
  - intros next prev t. unfold Schema.set.
    rewrite (field_own _ _ _ Hown). cbn [truthy negb].
    unfold Schema.disabled, Schema.readonly.
    rewrite (method_run this "disabled"), (method_run this "readonly"),
      !(method_run this "$determine") by (apply Hnone; cbn; tauto).
    rewrite (bind_Ret _ _ _ _ _
               (determine_absent this key def "disabled" context _ t
                  Hown Hdis)).
    cbn [truthy].
    rewrite (bind_Ret _ _ _ _ _
               (determine_plain this key def "readonly" context _ r t
                  Hown Hl Hplain)).
    rewrite Htruthy.
    rewrite (bind_Ret _ _ _ _ _
               (report_run this key "readonly" context r _ _ t t
                  Hrep
                  (message_plain this key def "readonly" context r _ t
                     Hown Hprop Htruthy Hplain eq_refl))).
    reflexivity.
  - intros Hcompute Hsetter Htype value t. unfold Schema.dollar_set.
    rewrite (field_own _ _ _ Hown). cbn [truthy negb].
    rewrite Hcompute, Hsetter. unfold Schema.type_step.
    now rewrite Htype.
Qed.

(** X16.  On a schema with no field named after a method called on
    the way ([disabled], [required], [readonly], [$determine],
    [$message], [$set]), and on a field that is not disabled and whose
    [required] meta is a truthy plain value, [validate] answers an empty
    value with the one [required] error, whose message is the meta itself
    when it is a string and the default message otherwise; neither the
    type nor a validator is looked at.  The meta has no say in [set]:
    with no [readonly] meta either, [set] is [$set], for an empty value
    too. *)
Theorem required_field_rejects_empty :
  forall (this : Schema.schema) (key : string) (def : list (string * val))
         (r context : val),
    Schema.own this key = Some def ->
    unshadowed this ["disabled"; "required"; "readonly"; "$determine";
                     "$message"; "$set"] = true ->
    inObject "disabled" (VObj def) = false ->
    prop (VObj def) "required" = r ->
    truthy r = true ->
    plain_meta r ->
    (forall value t,
        isEmpty value = true ->
        Schema.validate this key value context t
        = (Ret (VArr [VObj [("key", VStr key); ("value", value);
                            ("required", VBool true);
                            ("message",
                             plain_message r
                               (key ++ " is required, but receive empty."))]]),
           t))
    /\ (inObject "readonly" (VObj def) = false ->
        forall next prev t,
          Schema.set this key next prev context t
          = Schema.dollar_set this key next context t).
Proof.
  intros this key def r context Hown Hun Hdis Hprop Htruthy Hplain.
  assert (Hl := prop_truthy_lookup _ _ _ Hprop Htruthy).
  assert (Hnone : forall m,
    In m ["disabled"; "required"; "readonly"; "$determine"; "$message";
          "$set"] ->
    Schema.own this m = None)
    by (intros m; apply (unshadowed_own _ _ _ Hun)).
  split.
  - intros value t Hempty. unfold Schema.validate.
    rewrite (field_own _ _ _ Hown). cbn [truthy negb].
    unfold Schema.disabled, Schema.required.
    rewrite (method_run this "disabled"), (method_run this "required"),
      !(method_run this "$determine") by (apply Hnone; cbn; tauto).
    rewrite (bind_Ret _ _ _ _ _
               (determine_absent this key def "disabled" context _ t
                  Hown Hdis)).
    cbn [truthy].
    rewrite (bind_Ret _ _ _ _ _
               (determine_plain this key def "required" context _ r t
                  Hown Hl Hplain)).
    rewrite Htruthy, Hempty. cbn [andb].
    rewrite (method_run this "$message") by (apply Hnone; cbn; tauto).
    rewrite (bind_Ret _ _ _ _ _
               (message_plain this key def "required" context r _ t
                  Hown Hprop Htruthy Hplain eq_refl)).
    reflexivity.
  - intros Hro next prev t. unfold Schema.set.
    rewrite (field_own _ _ _ Hown). cbn [truthy negb].
    unfold Schema.disabled, Schema.readonly.
    rewrite (method_run this "disabled"), (method_run this "readonly"),
      (method_run this "$set"), !(method_run this "$determine")
      by (apply Hnone; cbn; tauto).
    rewrite (bind_Ret _ _ _ _ _
               (determine_absent this key def "disabled" context _ t
                  Hown Hdis)).
    cbn [truthy].
    rewrite (bind_Ret _ _ _ _ _
               (determine_absent this key def "readonly" context _ t
                  Hown Hro)).
    reflexivity.
Qed.

(** X27.  On a schema with no field named [disabled], [$determine],
    [_trydo], [$message] or [onError]: a [disabled] meta given as an
    object whose [determine] is a function of the program that returns a
    truthy value, and whose [message] is no function: [set] returns the
    previous value and reports the refusal once.  The message is what
    [determine] returned when that is a string; else the object's
    [message] when it is a string that is not empty; else the default
    message. *)
Theorem object_meta_decides_and_words_refusal :
  forall (this : Schema.schema) (key : string) (def node : list (string * val))
         (f : string) (r context : val),
    Schema.own this key = Some def ->
    unshadowed this ["disabled"; "$determine"; "_trydo"; "$message";
                     "onError"] = true ->
    prop (VObj def) "disabled" = VObj node ->
    prop (VObj node) "determine" = VFun f ->
    call f context [] = Ret r ->
    truthy r = true ->
    isFunction (prop (VObj node) "message") = false ->
    forall next prev t,
      Schema.set this key next prev context t
      = (Ret prev,
         t ++ [Reported
                 (Schema.refusal key next prev "disabled"
                    (if isString r then r
                     else if isString (prop (VObj node) "message")
                             && truthy (prop (VObj node) "message")
                     then prop (VObj node) "message"
                     else VStr (key ++ " can not be set new value because of disabled.")))]).
Proof.
  intros this key def node f r context Hown Hun Hnode Hdet Hcall Htruthy Hmsg
    next prev t.
  assert (Hrep : unshadowed this ["$message"; "onError"] = true)
    by (apply (unshadowed_sub _ _ _ Hun); intros m; cbn; tauto).
  assert (Hnone : forall m,
    In m ["disabled"; "$determine"; "_trydo"; "$message"; "onError"] ->
    Schema.own this m = None)
    by (intros m; apply (unshadowed_own _ _ _ Hun)).
  assert (Hl : lookup "disabled" def = Some (VObj node))
    by now apply prop_truthy_lookup.
  assert (Hd : Schema.disabled this key context t = (Ret r, t)).
  { unfold Schema.disabled, Schema.dollar_determine.
    rewrite (method_run this "$determine") by (apply Hnone; cbn; tauto).
    rewrite (field_own _ _ _ Hown). unfold inObject. rewrite Hl.
    cbn [truthy negb]. rewrite Hnode. cbn [isObject]. rewrite Hdet.
    cbn [isFunction].
    rewrite (method_run this "_trydo") by (apply Hnone; cbn; tauto).
    apply trydo_Ret.
    unfold invoke, lift, apply_to. now rewrite Hcall. }
  assert (Hm :
    Schema.dollar_message this key "disabled" context r t
    = (Ret (if isString r then r
            else if isString (prop (VObj node) "message")
                    && truthy (prop (VObj node) "message")
            then prop (VObj node) "message"
            else VStr (key ++ " can not be set new value because of disabled.")),
       t)).
  { unfold Schema.dollar_message. rewrite (field_own _ _ _ Hown).
    cbn [truthy negb]. rewrite Hnode. cbn [truthy negb].
    destruct (isString r); [reflexivity |].
    cbn [isBoolean isString isFunction isObject andb]. rewrite Hmsg.
    destruct (truthy (prop (VObj node) "message"));
      destruct (isString (prop (VObj node) "message")); reflexivity. }
  unfold Schema.set. rewrite (field_own _ _ _ Hown). cbn [truthy negb].
  rewrite (method_run this "disabled") by (apply Hnone; cbn; tauto).
  rewrite (bind_Ret _ _ _ _ _ Hd). rewrite Htruthy.
  rewrite (bind_Ret _ _ _ _ _
             (report_run this key "disabled" context r _ _ t t
                Hrep Hm)).
  reflexivity.
Qed.

End SchemaMetaFacts.

(** ** The schema: reading and writing a value *)

Section SchemaValueFacts.
Context {host : Host}.

(** X17.  On a schema with no field named [_trydo], [$message] or
    [onError]: [$set] on a field with a type and no [compute] checks the
    type of what the setter made of the value, or of the value itself
    when the setter is no function (for [isFunction] of ts-fns, which a
    built-in function or a class is not), and returns that in either
    case: a mismatch is reported once, tagged [type] and carrying the
    error and the field's [message] string, and does not bring the old
    value back. *)
Theorem dollar_set_reports_type_error_and_keeps_value :
  forall (this : Schema.schema) (key : string) (def : list (string * val))
         (value coerced context : val),
    Schema.own this key = Some def ->
    unshadowed this ["_trydo"; "$message"; "onError"] = true ->
    truthy (prop (VObj def) "compute") = false ->
    truthy (prop (VObj def) "type") = true ->
    isString (prop (VObj def) "message") = true ->
    ((isFunction (prop (VObj def) "setter") = false /\ coerced = value)
     \/ exists f, prop (VObj def) "setter" = VFun f
                  /\ call f context [value] = Ret coerced) ->
    exists error,
      settles (Schema.type_error key coerced (prop (VObj def) "type")) error []
      /\ forall t,
          Schema.dollar_set this key value context t
          = (Ret coerced,
             if truthy error then
               t ++ [Reported
                       (VObj [("key", VStr key); ("action", VStr "$set");
                              ("value", coerced); ("type", VBool true);
                              ("error", error);
                              ("message", prop (VObj def) "message")])]
             else t).
Proof.
  intros this key def value coerced context Hown Hun Hcompute Htype Hmsg
    Hsetter.
  assert (Hrep : unshadowed this ["$message"; "onError"] = true)
    by (apply (unshadowed_sub _ _ _ Hun); intros m; cbn; tauto).
  assert (Htry : Schema.own this "_trydo" = None)
    by (apply (unshadowed_own _ _ _ Hun); cbn; tauto).
  destruct (type_error_settles key coerced (prop (VObj def) "type"))
    as [error Herror].
  exists error. split; [exact Herror |].
  intros t. unfold Schema.dollar_set.
  rewrite (field_own _ _ _ Hown). cbn [truthy negb]. rewrite Hcompute.
  rewrite (method_run _ _ _ Htry).
  assert (Hcoerce :
    (if isFunction (prop (VObj def) "setter") then
       Schema._trydo this (invoke (prop (VObj def) "setter") context [value])
         (fun error => Schema.catch_or (prop (VObj def) "catch") context
                         error value)
         [("key", VStr key); ("meta", VStr "setter")] VUndef
     else ret value) t = (Ret coerced, t)).
  { destruct Hsetter as [[Hno ->] | [f [Hf Hcall]]].
    - now rewrite Hno.
    - rewrite Hf. cbn [isFunction]. apply trydo_Ret.
      unfold invoke, lift, apply_to. now rewrite Hcall. }
  rewrite (bind_Ret _ _ _ _ _ Hcoerce).
  assert (Hcheck : Schema.type_error key coerced (prop (VObj def) "type") t
                   = (Ret error, t)).
  { rewrite Herror. now rewrite app_nil_r. }
  assert (Hstep :
    Schema.type_step this key context (VObj def) "$set" coerced t
    = (Ret tt,
       if truthy error then
         t ++ [Reported
                 (VObj [("key", VStr key); ("action", VStr "$set");
                        ("value", coerced); ("type", VBool true);
                        ("error", error);
                        ("message", prop (VObj def) "message")])]
       else t)).
  { unfold Schema.type_step. rewrite Htype.
    rewrite (bind_Ret _ _ _ _ _ Hcheck).
    destruct (truthy error); [| reflexivity].
    rewrite (report_run this key "type" context _ _
               (prop (VObj def) "message") t t Hrep); [reflexivity |].
    unfold Schema.dollar_message. rewrite (field_own _ _ _ Hown).
    cbn [truthy negb]. now rewrite Htype, Hmsg. }
  now rewrite (bind_Ret _ _ _ _ _ Hstep).
Qed.

(** X18.  On a schema with no field named [_trydo], [$message] or
    [onError]: [get] on a field with a [compute] function gives what the
    function gives for the context, as [$set] does, but reports nothing;
    the stored value and the getter have no part in it.  [get] asks
    whether [compute] is a function for [isFunction] of ts-fns, [$set]
    whether it is truthy: when [compute] is a built-in function and the
    field has no getter, [get] returns the stored value where [$set]
    calls the function.  On a field with a getter that throws and no
    [catch] handler, [get] returns the stored value and the error is
    reported once, under the meta name [getter]. *)
Theorem get_computes_or_falls_back :
  forall (this : Schema.schema) (key : string) (def : list (string * val))
         (f : string) (context : val),
    Schema.own this key = Some def ->
    unshadowed this ["_trydo"; "$message"; "onError"] = true ->
    (prop (VObj def) "compute" = VFun f ->
     forall value t,
       Schema.get this key value context t = (call f context [], t)
       /\ fst (Schema.dollar_set this key value context t)
          = call f context [])
    /\ (prop (VObj def) "compute" = VNative f ->
        isFunction (prop (VObj def) "getter") = false ->
        forall value t,
          Schema.get this key value context t = (Ret value, t)
          /\ fst (Schema.dollar_set this key value context t)
             = call f context [])
    /\ (isFunction (prop (VObj def) "compute") = false ->
        prop (VObj def) "getter" = VFun f ->
        isFunction (prop (VObj def) "catch") = false ->
        forall value e t,
          call f context [value] = Throw e ->
          Schema.get this key value context t
          = (Ret value,
             t ++ [Reported (VObj [("key", VStr key); ("meta", VStr "getter");
                                   ("error", e)])])).
Proof.
  intros this key def f context Hown Hun.
  assert (Hrep : unshadowed this ["$message"; "onError"] = true)
    by (apply (unshadowed_sub _ _ _ Hun); intros m; cbn; tauto).
  assert (Htry : Schema.own this "_trydo" = None)
    by (apply (unshadowed_own _ _ _ Hun); cbn; tauto).
  assert (Herr : Schema.own this "onError" = None)
    by (apply (unshadowed_own _ _ _ Hun); cbn; tauto).
  split; [| split].
  - intros Hcompute value t. split.
    + unfold Schema.get. rewrite (field_own _ _ _ Hown).
      cbn [truthy negb]. now rewrite Hcompute.
    + now rewrite (dollar_set_compute this key def f value context t Hown
                     (or_introl Hcompute) Hrep).
  - intros Hcompute Hgetter value t. split.
    + unfold Schema.get. rewrite (field_own _ _ _ Hown).
      cbn [truthy negb]. now rewrite Hcompute, Hgetter.
    + now rewrite (dollar_set_compute this key def f value context t Hown
                     (or_intror Hcompute) Hrep).
  - intros Hcompute Hgetter Hcatch value e t Hcall.
    unfold Schema.get. rewrite (field_own _ _ _ Hown).
    cbn [truthy negb]. rewrite Hcompute, Hgetter. cbn [isFunction].
    rewrite (method_run _ _ _ Htry).
    rewrite (trydo_Throw this _ _ _ VUndef t e t Herr eq_refl)
      by (unfold invoke, lift, apply_to; now rewrite Hcall).
    unfold Schema.catch_or. now rewrite Hcatch.
Qed.

End SchemaValueFacts.

(** ** The schema: selecting validators *)

Section SelectorFacts.
Context {host : Host}.
Variables (this : Schema.schema) (key : string) (value context handle : val).

Lemma member_beyond (vs : list val) (i : Z) :
  Z.of_nat (length vs) <= i ->
  member (VArr vs) (VNum i) = Ret VUndef.
Proof.
  intros Hi. unfold member.
  destruct (i <? 0); [reflexivity |].
  unfold js_index. rewrite nth_overflow by lia. reflexivity.
Qed.

Lemma runOne_beyond dontTry (vs : list val) (i : Z) errors t :
  i < 0 \/ Z.of_nat (length vs) <= i ->
  Schema.runOne this key value context handle dontTry (VArr vs) (VNum i) errors t
  = (Ret errors, t).
Proof.
  intros Hi. unfold Schema.runOne.
  rewrite (bind_Ret _ _ t VUndef t); [reflexivity |].
  unfold lift. f_equal. destruct Hi as [Hneg | Hbig].
  - unfold member. apply Z.ltb_lt in Hneg. now rewrite Hneg.
  - now apply member_beyond.
Qed.

Lemma range_loop_beyond dontTry (vs : list val) n :
  forall i errors t,
    Z.of_nat (length vs) <= i ->
    Schema.range_loop this key value context handle dontTry (VArr vs) n i errors t
    = (Ret errors, t).
Proof.
  induction n as [| n IH]; intros i errors t Hi; [reflexivity |].
  cbn [Schema.range_loop].
  rewrite (bind_Ret _ _ _ _ _
             (runOne_beyond dontTry vs i errors t (or_intror Hi))).
  apply IH. lia.
Qed.

(** A range that ends before the array does runs the validators it
    covers; one that goes on past the end runs those that are there. *)
Lemma range_loop_firstn n :
  forall before rest errors t,
    Schema.range_loop this key value context handle (VNum 0)
      (VArr (before ++ rest)) n (Z.of_nat (length before)) errors t
    = in_order this key value context handle (firstn n rest)
        (Z.of_nat (length before)) errors t.
Proof.
  induction n as [| n IH]; intros before rest errors t; [reflexivity |].
  destruct rest as [| validator rest].
  - cbn [firstn in_order]. apply range_loop_beyond.
    rewrite app_nil_r. lia.
  - cbn [firstn Schema.range_loop in_order].
    assert (Hmember :
      member (VArr (before ++ validator :: rest))
        (VNum (Z.of_nat (length before))) = Ret validator).
    { unfold member.
      destruct (Z.of_nat (length before) <? 0) eqn:Hneg;
        [apply Z.ltb_lt in Hneg; lia |].
      rewrite Nat2Z.id. unfold js_index.
      rewrite app_nth2 by lia. now rewrite Nat.sub_diag. }
    assert (Hnext : forall errors' t',
      Schema.range_loop this key value context handle (VNum 0)
        (VArr (before ++ validator :: rest)) n
        (Z.of_nat (length before) + 1) errors' t'
      = in_order this key value context handle (firstn n rest)
          (Z.of_nat (length before) + 1) errors' t').
    { intros errors' t'.
      specialize (IH (before ++ [validator]) rest errors' t').
      rewrite <- app_assoc in IH. cbn [app] in IH.
      rewrite length_app in IH. cbn [length] in IH.
      replace (Z.of_nat (length before + 1)) with (Z.of_nat (length before) + 1)
        in IH by lia.
      exact IH. }
    apply bind_congr; [| exact Hnext].
    now apply runOne_in_order.
Qed.

(** The indexes [a, a + 1, ...] taken one by one are the range. *)
Lemma each_index_seq dontTry validators n :
  forall a errors t,
    Schema.each_index this key value context handle dontTry validators
      (map (fun i => VNum (Z.of_nat i)) (seq a n)) errors t
    = Schema.range_loop this key value context handle dontTry validators n
        (Z.of_nat a) errors t.
Proof.
  induction n as [| n IH]; intros a errors t; [reflexivity |].
  cbn [seq map Schema.each_index Schema.range_loop].
  apply bind_congr; [reflexivity |].
  intros errors' t'. rewrite IH.
  now replace (Z.of_nat (S a)) with (Z.of_nat a + 1) by lia.
Qed.

Lemma each_index_beyond dontTry (vs : list val) indexes :
  Forall (fun i => exists z, i = VNum z
                             /\ (z < 0 \/ Z.of_nat (length vs) <= z)) indexes ->
  forall errors t,
    Schema.each_index this key value context handle dontTry (VArr vs) indexes
      errors t
    = (Ret errors, t).
Proof.
  induction 1 as [| i rest [z [-> Hz]] _ IH]; intros errors t;
    [reflexivity |].
  cbn [Schema.each_index].
  rewrite (bind_Ret _ _ _ _ _ (runOne_beyond dontTry vs z errors t Hz)).
  apply IH.
Qed.

(** A validator with nothing to decide whether it runs, whose [validate]
    function throws: under the force flag the exception escapes. *)
Lemma run_validator_forced_throw validator index dontTry f e t :
  Schema.own this "_trydo" = None ->
  isBoolean (js_get validator "determine") = false ->
  isFunction (js_get validator "determine") = false ->
  js_get validator "validate" = VFun f ->
  call f context [value; VStr key] = Throw e ->
  truthy dontTry = true ->
  Schema.run_validator this key value context handle validator index dontTry t
  = (Throw e, t).
Proof.
  intros Htry Hb Hf Hvalidate Hcall Hforce. unfold Schema.run_validator.
  rewrite (bind_Ret _ _ t false t)
    by (unfold Schema.validator_skipped; now rewrite Hb, Hf).
  apply bind_Throw. unfold Schema.validator_result.
  rewrite (method_run _ _ _ Htry).
  rewrite trydo_force by assumption.
  rewrite Hvalidate. unfold invoke, lift, apply_to. now rewrite Hcall.
Qed.

(** Without the flag and without a handler, the exception is reported
    and the validator has passed. *)
Lemma run_validator_caught validator index dontTry f e t :
  Schema.own this "_trydo" = None ->
  Schema.own this "onError" = None ->
  isBoolean (js_get validator "determine") = false ->
  isFunction (js_get validator "determine") = false ->
  js_get validator "validate" = VFun f ->
  call f context [value; VStr key] = Throw e ->
  truthy dontTry = false ->
  isFunction handle = false ->
  Schema.run_validator this key value context handle validator index dontTry t
  = (Ret VUndef,
     t ++ [Reported
             (VObj [("key", VStr key);
                    ("meta",
                     VStr ("validators[" ++ to_string index ++ "].validate"));
                    ("error", e)])]).
Proof.
  intros Htry Herr Hb Hf Hvalidate Hcall Hforce Hhandle.
  unfold Schema.run_validator.
  rewrite (bind_Ret _ _ t false t)
    by (unfold Schema.validator_skipped; now rewrite Hb, Hf).
  rewrite (bind_Ret _ _ t (VBool true)
             (t ++ [Reported
                      (VObj [("key", VStr key);
                             ("meta",
                              VStr ("validators[" ++ to_string index
                                    ++ "].validate"));
                             ("error", e)])])).
  - reflexivity.
  - unfold Schema.validator_result. rewrite (method_run _ _ _ Htry).
    rewrite (trydo_Throw this _ _ _ dontTry t e t Herr Hforce)
      by (rewrite Hvalidate; unfold invoke, lift, apply_to;
          now rewrite Hcall).
    unfold Schema.catch_or. rewrite Hhandle. reflexivity.
Qed.

End SelectorFacts.

Section SelectorTheorems.
Context {host : Host}.

(** X19.  On a schema with no field named [disabled], and on an
    enabled field whose validators are an array, asking the selector for
    the indexes [0, 1, ..., n - 1] of all [n] validators is asking it for
    all of them: the validators run in order, once each.  An index below
    zero or past the end selects nothing, and is no error. *)
Theorem indexes_select_in_order :
  forall (this : Schema.schema) (key : string) (def : list (string * val))
         (value context : val) (vs : list val) (d : val) (delta1 : trace),
    Schema.own this key = Some def ->
    unshadowed this ["disabled"] = true ->
    prop (VObj def) "validators" = VArr vs ->
    settles (Schema.disabled this key context) d delta1 ->
    truthy d = false ->
    (forall t,
        Schema.dollar_validate this key value context
          (map (fun i => VNum (Z.of_nat i)) (seq 0 (length vs))) t
        = in_order this key value context (prop (VObj def) "catch") vs 0 []
            (t ++ delta1)
        /\ Schema.dollar_validate this key value context
             (map (fun i => VNum (Z.of_nat i)) (seq 0 (length vs))) t
           = Schema.dollar_validate this key value context [VArr []] t)
    /\ (forall z indexes t,
           Forall (fun i => exists z, i = VNum z
                                      /\ (z < 0 \/ Z.of_nat (length vs) <= z))
             (VNum z :: indexes) ->
           Schema.dollar_validate this key value context (VNum z :: indexes) t
           = (Ret [], t ++ delta1)).
Proof.
  intros this key def value context vs d delta1 Hown Hun Hvs Hd Htd.
  assert (Hdis : Schema.own this "disabled" = None)
    by (apply (unshadowed_own _ _ _ Hun); cbn; tauto).
  assert (Hall : forall t,
    Schema.dollar_validate this key value context [VArr []] t
    = in_order this key value context (prop (VObj def) "catch") vs 0 []
        (t ++ delta1)).
  { intros t. apply dollar_validate_all_array with (d := d); auto.
    unfold validators_of. now rewrite Hvs. }
  assert (Hsel : forall t,
    Schema.dollar_validate this key value context
      (map (fun i => VNum (Z.of_nat i)) (seq 0 (length vs))) t
    = in_order this key value context (prop (VObj def) "catch") vs 0 []
        (t ++ delta1)).
  { intros t. unfold Schema.dollar_validate.
    rewrite (field_own _ _ _ Hown). rewrite (method_run _ _ _ Hdis).
    rewrite (bind_Ret _ _ _ _ _ (Hd t)). rewrite Htd. rewrite Hvs.
    destruct vs as [| v vs']; [reflexivity |].
    cbn [length seq map nth isArray isNumber andb].
    unfold Schema.validateByIndexes.
    etransitivity;
      [exact (each_index_seq this key value context _ (VNum 0)
                (VArr (v :: vs')) (length (v :: vs')) 0%nat []
                (t ++ delta1)) |].
    exact (range_loop_in_order this key value context _ (v :: vs') [] []
             (t ++ delta1)). }
  split.
  - intros t. split; [apply Hsel |]. now rewrite Hsel, Hall.
  - intros z indexes t Hout. unfold Schema.dollar_validate.
    rewrite (field_own _ _ _ Hown). rewrite (method_run _ _ _ Hdis).
    rewrite (bind_Ret _ _ _ _ _ (Hd t)). rewrite Htd. rewrite Hvs.
    cbn [nth isArray isNumber andb].
    unfold Schema.validateByIndexes. now apply each_index_beyond.
Qed.

(** X20.  On a schema with no field named [disabled], and on an
    enabled field whose validators are an array, the selector given a
    range [[a, b]] of two integers with [a] not negative runs the
    validators at the indexes [a] to [b] that the array has, in order:
    the slice of [b - a + 1] validators from index [a] on, cut short at
    the end of the array, and none when [b] is below [a]. *)
Theorem range_selects_slice :
  forall (this : Schema.schema) (key : string) (def : list (string * val))
         (value context : val) (vs : list val) (d : val) (delta1 : trace)
         (a b : Z),
    Schema.own this key = Some def ->
    unshadowed this ["disabled"] = true ->
    prop (VObj def) "validators" = VArr vs ->
    settles (Schema.disabled this key context) d delta1 ->
    truthy d = false ->
    0 <= a ->
    forall t,
      Schema.dollar_validate this key value context [VArr [VNum a; VNum b]] t
      = in_order this key value context (prop (VObj def) "catch")
          (firstn (Z.to_nat (b - a + 1)) (skipn (Z.to_nat a) vs)) a []
          (t ++ delta1).
Proof.
  intros this key def value context vs d delta1 a b Hown Hun Hvs Hd Htd Ha t.
  assert (Hdis : Schema.own this "disabled" = None)
    by (apply (unshadowed_own _ _ _ Hun); cbn; tauto).
  unfold Schema.dollar_validate.
  rewrite (field_own _ _ _ Hown). rewrite (method_run _ _ _ Hdis).
  rewrite (bind_Ret _ _ _ _ _ (Hd t)). rewrite Htd. rewrite Hvs.
  cbn [nth isArray js_index Schema.typeof_object andb].
  rewrite Bool.andb_false_r.
  unfold Schema.validateByRange. cbn [js_index nth]. rewrite bind_ret.
  destruct (Nat.le_gt_cases (Z.to_nat a) (length vs)) as [Hin | Hout].
  - pose proof (range_loop_firstn this key value context
                  (prop (VObj def) "catch")
                  (Z.to_nat (b - a + 1)) (firstn (Z.to_nat a) vs)
                  (skipn (Z.to_nat a) vs) [] (t ++ delta1)) as H.
    rewrite firstn_skipn in H. rewrite length_firstn in H.
    rewrite Nat.min_l in H by exact Hin.
    rewrite Z2Nat.id in H by exact Ha. exact H.
  - rewrite skipn_all2 by lia. rewrite firstn_nil. cbn [in_order].
    apply range_loop_beyond. lia.
Qed.

(** X21.  A validator whose [validate] function throws, on a schema
    with no field named [disabled], [_trydo] or [onError] and an enabled
    field with no [catch] handler.  As the first of the field's own
    validators it counts as passed: the exception is reported once, under
    the meta name [validators[0].validate], no error is recorded for it,
    and the validators after it run.  Passed to the selector as a custom
    validator it runs bare: the exception reaches the caller and nothing
    is reported for it. *)
Theorem throwing_validator_passes_or_escapes :
  forall (this : Schema.schema) (key : string) (def : list (string * val))
         (value context validator : val) (rest : list val) (f : string)
         (e d : val) (delta1 : trace),
    Schema.own this key = Some def ->
    unshadowed this ["disabled"; "_trydo"; "onError"] = true ->
    settles (Schema.disabled this key context) d delta1 ->
    truthy d = false ->
    isFunction (prop (VObj def) "catch") = false ->
    isObject validator = true ->
    isBoolean (js_get validator "determine") = false ->
    isFunction (js_get validator "determine") = false ->
    js_get validator "validate" = VFun f ->
    call f context [value; VStr key] = Throw e ->
    (prop (VObj def) "validators" = VArr (validator :: rest) ->
     forall t,
       Schema.dollar_validate this key value context [VArr []] t
       = in_order this key value context (prop (VObj def) "catch") rest 1 []
           (t ++ delta1
            ++ [Reported (VObj [("key", VStr key);
                                ("meta", VStr "validators[0].validate");
                                ("error", e)])]))
    /\ (forall t,
           Schema.dollar_validate this key value context
             [VArr (validator :: rest)] t
           = (Throw e, t ++ delta1)).
Proof.
  intros this key def value context validator rest f e d delta1 Hown Hun Hd
    Htd Hcatch Hobj Hb Hf Hvalidate Hcall.
  assert (Hnone : forall m,
    In m ["disabled"; "_trydo"; "onError"] -> Schema.own this m = None)
    by (intros m; apply (unshadowed_own _ _ _ Hun)).
  assert (Hdis : Schema.own this "disabled" = None)
    by (apply Hnone; cbn; tauto).
  assert (Htry : Schema.own this "_trydo" = None)
    by (apply Hnone; cbn; tauto).
  assert (Herr : Schema.own this "onError" = None)
    by (apply Hnone; cbn; tauto).
  assert (Htruthy : truthy validator = true)
    by (destruct validator; try discriminate; reflexivity).
  split.
  - intros Hvs t.
    rewrite (dollar_validate_all_array this key def value context
               (validator :: rest) d delta1 Hown Hdis)
      by (auto; unfold validators_of; now rewrite Hvs).
    cbn [in_order]. rewrite Htruthy.
    rewrite (bind_Ret _ _ _ _ _
               (bind_Ret _ _ _ _ _
                  (run_validator_caught this key value context _ validator
                     (VNum 0) (VNum 0) f e (t ++ delta1) Htry Herr Hb Hf
                     Hvalidate Hcall eq_refl Hcatch))).
    cbn [truthy ret]. now rewrite <- app_assoc.
  - intros t. unfold Schema.dollar_validate.
    rewrite (field_own _ _ _ Hown). rewrite (method_run _ _ _ Hdis).
    rewrite (bind_Ret _ _ _ _ _ (Hd t)). rewrite Htd.
    cbn [nth isArray js_index andb]. rewrite Htruthy.
    replace (Schema.typeof_object validator) with true
      by (destruct validator; try discriminate; reflexivity).
    cbn [andb]. unfold Schema.validateByRange. cbn [js_index nth].
    rewrite (bind_Ret _ _ _
               (VNum (Z.of_nat (length (validator :: rest)) - 1))
               (t ++ delta1)) by reflexivity.
    replace (Z.to_nat (Z.of_nat (length (validator :: rest)) - 1 - 0 + 1))
      with (S (length rest)) by (cbn [length]; lia).
    cbn [Schema.range_loop]. apply bind_Throw.
    unfold Schema.runOne.
    rewrite (bind_Ret _ _ _ validator (t ++ delta1)) by reflexivity.
    rewrite Htruthy. cbn [negb]. apply bind_Throw.
    now apply run_validator_forced_throw with (f := f).
Qed.

End SelectorTheorems.

(** ** The schema: parse and export *)

Section ParseExportFacts.
Context {host : Host}.

Lemma own_In (this : Schema.schema) key def :
  NoDup (map fst this) -> In (key, def) this ->
  Schema.own this key = Some def.
Proof.
  induction this as [| [k d] rest IH]; intros Hnd Hin; [contradiction |].
  cbn [map fst] in Hnd. apply NoDup_cons_iff in Hnd as [Hnotin Hnd].
  cbn [Schema.own]. destruct Hin as [Heq | Hin].
  - injection Heq as -> ->. now rewrite String.eqb_refl.
  - destruct (String.eqb key k) eqn:Hk.
    + apply String.eqb_eq in Hk. subst k. exfalso. apply Hnotin.
      change key with (fst (key, def)). now apply in_map.
    + now apply IH.
Qed.

Lemma member_VObj fs key :
  member (VObj fs) (VStr key) = Ret (js_get (VObj fs) key).
Proof. reflexivity. Qed.





(** The rounds of [parse] over plain definitions. *)
Lemma parse_fields_plain this fs context fields :
  Schema.own this "$default" = None ->
  (forall key def, In (key, def) fields -> Schema.own this key = Some def) ->
  Forall (fun kd => plain_for_parse (snd kd)) fields ->
  forall t,
    Schema.parse_fields this (VObj fs) context fields t
    = (Ret (map (stored_or_default (VObj fs)) fields), t).
Proof.
  intros Hdefault_own.
  induction fields as [| [key def] rest IH]; intros Hown Hplain t;
    [reflexivity |].
  apply Forall_cons_iff in Hplain as [[Hcreate [Hdefault Htype]] Hplain].
  cbn [snd] in Hcreate, Hdefault, Htype.
  cbn [Schema.parse_fields map].
  assert (Hfield :
    Schema.parse_field this (VObj fs) context key def t
    = (Ret (snd (stored_or_default (VObj fs) (key, def))), t)).
  { unfold Schema.parse_field.
    rewrite (bind_Ret _ _ t (js_get (VObj fs) key) t)
      by (unfold lift; now rewrite member_VObj).
    rewrite Hcreate. rewrite bind_ret.
    unfold Schema.type_step. rewrite Htype.
    unfold stored_or_default. cbn [fst snd].
    destruct (isUndefined (js_get (VObj fs) key)); [| reflexivity].
    rewrite (method_run _ _ _ Hdefault_own).
    rewrite (bind_Ret _ _ t (prop (VObj def) "default") t); [reflexivity |].
    unfold Schema.dollar_default.
    rewrite (field_own _ _ _ (Hown key def (or_introl eq_refl))).
    rewrite Hdefault. unfold Schema.clone.
    now destruct (isObject (prop (VObj def) "default")
                  || isArray (prop (VObj def) "default")). }
  rewrite (bind_Ret _ _ _ _ _ Hfield).
  rewrite (bind_Ret _ _ _ _ _
             (IH (fun k d H => Hown k d (or_intror H)) Hplain t)).
  reflexivity.
Qed.


(** X22.  Whenever [parse] returns, what it returns is an object with the
    schema's keys, in the schema's order, whatever the data has beside
    them and whatever the definitions hold. *)
Theorem parse_has_the_schema_keys :
  forall (this : Schema.schema) (data context : val) (out : val)
         (t t' : trace),
    Schema.parse this data context t = (Ret out, t') ->
    exists output, out = VObj output /\ map fst output = map fst this.
Proof.
  intros this data context out t t' H. unfold Schema.parse in H.
  apply bind_inv in H as [output [t1 [Hfields Hret]]].
  injection Hret as <- _. exists output. split; [reflexivity |].
  clear t'. revert output t t1 Hfields.
  generalize this at 2 3 as fields.
  induction fields as [| [key def] rest IH]; intros output t t1 H.
  - injection H as <- _. reflexivity.
  - cbn [Schema.parse_fields] in H.
    apply bind_inv in H as [coming [t2 [_ H]]].
    apply bind_inv in H as [output' [t3 [Hrest Hret]]].
    injection Hret as <- _. cbn [map fst]. f_equal.
    eapply IH. exact Hrest.
Qed.

(** X23.  For a schema of plain definitions (no [create] function, no
    default function, no type) with distinct keys and no field named
    [$default], [parse] of an object returns, reporting nothing, the
    object that has for each field what the data has under the key, as
    an own property or from its prototype chain, or the field's default
    when that is undefined; keys of the data that name no field are left
    out. *)
Theorem parse_takes_stored_or_default :
  forall (this : Schema.schema) (fs : list (string * val)) (context : val)
         (t : trace),
    NoDup (map fst this) ->
    unshadowed this ["$default"] = true ->
    Forall (fun kd => plain_for_parse (snd kd)) this ->
    Schema.parse this (VObj fs) context t
    = (Ret (VObj (map (stored_or_default (VObj fs)) this)), t).
Proof.
  intros this fs context t Hnd Hun Hplain. unfold Schema.parse.
  rewrite (bind_Ret _ _ _ _ _
             (parse_fields_plain this fs context this
                (unshadowed_own _ _ "$default" Hun (or_introl eq_refl))
                (fun k d H => own_In this k d Hnd H) Hplain t)).
  reflexivity.
Qed.





End ParseExportFacts.

(** ** List *)

Section ListFacts.
Context {host : Host}.

(** X26.  [new List(pattern)] returns for an array pattern and for
    nothing else; the empty pattern stands for [Array].  The type it
    returns is a Type, and its [assert] passes exactly the arrays for
    which [validate] against the pattern returns no error; a value that is
    no array is [mistaken], and [validate] is not asked. *)
Theorem List_asserts_arrays_that_validate :
  forall pattern value : val,
    ((exists T, Types.new_List pattern = Ret T) <-> isArray pattern = true)
    /\ forall T,
        Types.new_List pattern = Ret T ->
        prop T "pattern" = (if isEmpty pattern then VNative "Array" else pattern)
        /\ isInstanceOf T "Type" = true
        /\ (Types.assert T value = Ret tt
            <-> isArray value = true
                /\ exists error,
                    Types.Type_validate T value (prop T "pattern") = Ret error
                    /\ truthy error = false)
        /\ (isArray value = false ->
            exists e, Types.assert T value = Throw e
                      /\ Types.kind_of e = VStr "mistaken").
Proof.
  intros pattern value. split.
  - unfold Types.new_List.
    destruct (isArray pattern); cbn [negb]; split; intros H;
      try reflexivity; try discriminate.
    + eexists. reflexivity.
    + destruct H as [T H]. discriminate.
  - intros T HT. unfold Types.new_List in HT.
    destruct (isArray pattern); cbn [negb] in HT; [| discriminate].
    injection HT as <-.
    set (p := if isEmpty pattern then VNative "Array" else pattern).
    split; [reflexivity | split; [reflexivity |]].
    change (Types.assert (Types.subtype "List" p) value)
      with (Types.List_assert (Types.subtype "List" p) value).
    unfold Types.List_assert.
    change (prop (Types.subtype "List" p) "pattern") with p.
    destruct (isArray value); cbn [negb].
    + split; [| intros; discriminate]. split.
      * intros H. split; [reflexivity |].
        destruct (Types.Type_validate _ value p) as [error | e];
          [| discriminate].
        exists error. split; [reflexivity |].
        destruct (truthy error); [discriminate | reflexivity].
      * intros [_ [error [Hv Ht]]]. rewrite Hv, Ht. reflexivity.
    + split.
      * split; [intros; discriminate | intros [H _]; discriminate].
      * intros _. eexists. split; reflexivity.
Qed.

End ListFacts.

(** ** Concrete runs of the further properties *)

Lemma distinct_NoDup keys : distinct keys = true -> NoDup keys.
Proof.
  induction keys as [| k rest IH]; intros H; [constructor |].
  cbn [distinct] in H. apply andb_prop in H as [Hk Hrest].
  constructor; [| now apply IH].
  intros Hin. apply Bool.negb_true_iff in Hk.
  assert (existsb (String.eqb k) rest = true); [| congruence].
  apply existsb_exists. exists k. split; [exact Hin | apply String.eqb_refl].
Qed.

Ltac plain_definitions :=
  repeat (constructor;
          [repeat split; try reflexivity; cbn; discriminate |]);
  constructor.

(** Registering [Date] in the module's table. *)
Lemma register_then_find_witness :
  Prototype.find
    (Prototype.register Prototype.prototypes (VNative "Date") isObject)
    (VNative "Date")
  = Some (VNative "Date", isObject)
  /\ Prototype.find
       (Prototype.register Prototype.prototypes (VNative "Date") isObject)
       (VNative "Number")
     = Prototype.find Prototype.prototypes (VNative "Number").
Proof.
  destruct (register_then_find Prototype.prototypes (VNative "Date") isObject
              (VNative "Number") eq_refl) as [H1 H2].
  split; [exact H1 | exact (H2 eq_refl)].
Defined.

(** Registering [Number], which the table has, twice. *)
Lemma register_twice_witness :
  Prototype.register
    (Prototype.register Prototype.prototypes (VNative "Number") isString)
    (VNative "Number") isNumber
  = Prototype.register Prototype.prototypes (VNative "Number") isNumber
  /\ length (Prototype.register Prototype.prototypes (VNative "Number") isString)
     = length Prototype.prototypes.
Proof.
  exact (register_twice Prototype.prototypes (VNative "Number") isString
           isNumber eq_refl).
Defined.


(** The pair type in strict mode, given one item. *)
Lemma Tuple_assert_before_items_witness :
  (exists e,
      Types.Tuple_assert (host := Demo.host) Demo.pair (VStr "x") = Throw e
      /\ Types.kind_of e = VStr "mistaken")
  /\ (exists e,
         Types.Tuple_assert (host := Demo.host)
           (Types.with_mode Demo.pair "strict") (VArr [VNum 1])
         = Throw e
         /\ Types.kind_of e = VStr "dirty")
  /\ Types.Tuple_assert (host := Demo.host) Demo.pair (VArr []) = Ret tt.
Proof.
  pose proof (@Tuple_assert_before_items Demo.host Demo.pair (VStr "x") [])
    as H1.
  pose proof (@Tuple_assert_before_items Demo.host
                (Types.with_mode Demo.pair "strict") (VArr [VNum 1]) [VNum 1])
    as H2.
  cbv zeta in H1, H2.
  destruct H1 as [H1 [_ H3]]. destruct H2 as [_ [H2 _]].
  split; [| split].
  - eexists. split; [exact (H1 eq_refl) | reflexivity].
  - eexists. split.
    + apply (H2 eq_refl eq_refl). cbn. discriminate.
    + reflexivity.
  - apply H3. cbn. discriminate.
Defined.

(** The pair type, loose, given a number and a string. *)
Lemma Tuple_assert_passes_iff_items_pass_witness :
  Types.Tuple_assert (host := Demo.host) Demo.pair (VArr [VNum 1; VStr "a"])
  = Ret tt
  <-> forall j value,
      nth_error [VNum 1; VStr "a"] j = Some value ->
      item_passes (host := Demo.host) Demo.pair (prop Demo.pair "pattern")
        [VNum 1; VStr "a"] j value.
Proof.
  apply (@Tuple_assert_passes_iff_items_pass Demo.host Demo.pair
           [VNum 1; VStr "a"]).
  cbn. discriminate.
Defined.

(** An instance with two listeners, neither of them [trace]. *)
Lemma bind_then_unbind_witness :
  Ty.unbind (Ty.bind Form.listeners (VFun "trace")) (VFun "trace")
  = Form.listeners
  /\ Ty.unbind Form.listeners (VFun "trace") = Form.listeners.
Proof.
  apply (bind_then_unbind Form.listeners "trace").
  intros item [<- | [<- | []]]; reflexivity.
Defined.

(** Unbinding [log] from [log, warn], and from five [log] in a row. *)
Lemma unbind_skips_after_a_removal_witness :
  Ty._listeners (Ty.unbind Form.listeners (VFun "log")) = [VFun "warn"]
  /\ Ty._listeners
       (Ty.unbind {| Ty._listeners := repeat (VFun "log") 5;
                     Ty._silent := false |} (VFun "log"))
     = repeat (VFun "log") 2.
Proof.
  pose proof (unbind_skips_after_a_removal Form.listeners "log" 5) as H.
  cbv zeta in H. destruct H as [_ [H1 H2]].
  split; [exact (H1 (conj (fun _ => eq_refl) I)) | exact H2].
Defined.

(** A mismatch on a silent instance with two listeners. *)
Lemma expect_on_silent_instance_witness :
  exists e,
    Ty.expect_to_match (host := Form.host) Form.listeners (VNum 1)
      (VNative "String") []
    = (Ret (VBool false),
       [Scheduled (VFun "log") e; Scheduled (VFun "warn") e]).
Proof.
  destruct (@expect_on_silent_instance Form.host Form.listeners (VNum 1)
              (VNative "String") [] eq_refl) as [T [HT H]].
  cbn in HT. injection HT as <-. eexists. exact H.
Defined.

(** The form schema: [email] is a definition, [note] is not. *)
Lemma new_keeps_object_definitions_witness :
  Schema.own Form.form "email"
  = Some [("default", VStr ""); ("required", VStr "Fill it in")]
  /\ Schema.own Form.form "note" = None
  /\ map fst Form.form
     = ["email"; "code"; "nick"; "seal"; "gone"; "shown"; "sum"; "stamp";
        "risky"; "held"].
Proof.
  pose proof (new_keeps_object_definitions Form.defs "email"
                (distinct_NoDup (map fst Form.defs) eq_refl)) as [H1 H2].
  pose proof (new_keeps_object_definitions Form.defs "note"
                (distinct_NoDup (map fst Form.defs) eq_refl)) as [H3 _].
  split; [exact H1 | split; [exact H3 | exact H2]].
Defined.

(** The field [gone], disabled by a string. *)
Lemma disabled_field_is_left_alone_witness :
  Schema.set (host := Form.host) Form.form "gone" (VStr "new") (VStr "old")
    Form.context []
  = (Ret (VStr "old"),
     [Reported (Schema.refusal "gone" (VStr "new") (VStr "old") "disabled"
                  (VStr "switched off"))])
  /\ Schema.validate (host := Form.host) Form.form "gone" VNull Form.context []
     = (Ret (VArr []), [])
  /\ Schema.dollar_validate (host := Form.host) Form.form "gone" VNull
       Form.context [VNum 0] []
     = (Ret [], [])
  /\ Schema.export_field (host := Form.host) Form.form
       (VObj [("gone", VStr "old")]) Form.context "gone"
       [("default", VStr ""); ("disabled", VStr "switched off")] ([], []) []
     = (Ret ([], []), []).
Proof.
  destruct (@disabled_field_is_left_alone Form.host Form.form "gone"
              [("default", VStr ""); ("disabled", VStr "switched off")]
              (VStr "switched off") Form.context eq_refl eq_refl eq_refl
              eq_refl (conj eq_refl eq_refl)) as [H1 [H2 [H3 H4]]].
  split; [exact (H1 _ _ _) |].
  split; [exact (H2 _ _) |].
  split; [exact (H3 _ _ _) |].
  exact (H4 (VObj [("gone", VStr "old")]) (VStr "old") [] [] [] eq_refl
           eq_refl).
Defined.

(** The field [seal], read-only. *)
Lemma readonly_refuses_set_not_dollar_set_witness :
  Schema.set (host := Form.host) Form.form "seal" (VStr "new") (VStr "old")
    Form.context []
  = (Ret (VStr "old"),
     [Reported (Schema.refusal "seal" (VStr "new") (VStr "old") "readonly"
                  (VStr "seal can not be set new value because of readonly."))])
  /\ Schema.dollar_set (host := Form.host) Form.form "seal" (VStr "new")
       Form.context []
     = (Ret (VStr "new"), []).
Proof.
  destruct (@readonly_refuses_set_not_dollar_set Form.host Form.form "seal"
              [("default", VStr ""); ("readonly", VBool true)]
              (VBool true) Form.context eq_refl eq_refl eq_refl eq_refl
              eq_refl (conj eq_refl eq_refl)) as [H1 H2].
  split; [exact (H1 _ _ _) | exact (H2 eq_refl eq_refl eq_refl _ _)].
Defined.

(** The field [email], required with a message of its own. *)
Lemma required_field_rejects_empty_witness :
  Schema.validate (host := Form.host) Form.form "email" (VStr "")
    Form.context []
  = (Ret (VArr [VObj [("key", VStr "email"); ("value", VStr "");
                      ("required", VBool true);
                      ("message", VStr "Fill it in")]]), [])
  /\ Schema.set (host := Form.host) Form.form "email" (VStr "") (VStr "a")
       Form.context []
     = Schema.dollar_set (host := Form.host) Form.form "email" (VStr "")
         Form.context [].
Proof.
  destruct (@required_field_rejects_empty Form.host Form.form "email"
              [("default", VStr ""); ("required", VStr "Fill it in")]
              (VStr "Fill it in") Form.context eq_refl eq_refl eq_refl
              eq_refl eq_refl (conj eq_refl eq_refl)) as [H1 H2].
  split; [exact (H1 (VStr "") [] eq_refl) | exact (H2 eq_refl _ _ _)].
Defined.

(** The field [nick], a string: the setter gives a number, which is
    returned and is no string. *)
Lemma dollar_set_reports_type_error_and_keeps_value_witness :
  exists error,
    Types.kind_of error = VStr "mistaken"
    /\ Schema.dollar_set (host := Form.host) Form.form "nick" (VStr "ada")
         Form.context []
       = (Ret (VNum 3),
          [Reported
             (VObj [("key", VStr "nick"); ("action", VStr "$set");
                    ("value", VNum 3); ("type", VBool true);
                    ("error", error);
                    ("message", VStr "it should be a string")])]).
Proof.
  destruct (@dollar_set_reports_type_error_and_keeps_value Form.host
              Form.form "nick"
              [("default", VStr ""); ("setter", VFun "count");
               ("type", VNative "String");
               ("message", VStr "it should be a string")]
              (VStr "ada") (VNum 3) Form.context
              eq_refl eq_refl eq_refl eq_refl eq_refl
              (or_intror (ex_intro _ "count" (conj eq_refl eq_refl))))
    as [error [Herror H]].
  pose proof (Herror []) as E. cbn in E. injection E as E. subst error.
  eexists. split; [| exact (H [])]. reflexivity.
Defined.

(** The computed field [sum]; the field [stamp], whose [compute] is a
    built-in function; and the field [shown], whose getter throws. *)
Lemma get_computes_or_falls_back_witness :
  Schema.get (host := Form.host) Form.form "sum" (VStr "x") Form.context []
  = (Ret (VNum 42), [])
  /\ (Schema.get (host := Form.host) Form.form "stamp" (VNum 1) Form.context []
      = (Ret (VNum 1), [])
      /\ fst (Schema.dollar_set (host := Form.host) Form.form "stamp" (VNum 1)
                Form.context [])
         = Ret (VNum 1700))
  /\ Schema.get (host := Form.host) Form.form "shown" (VStr "x")
       Form.context []
     = (Ret (VStr "x"),
        [Reported (VObj [("key", VStr "shown"); ("meta", VStr "getter");
                         ("error", VStr "broken")])]).
Proof.
  destruct (@get_computes_or_falls_back Form.host Form.form "sum"
              [("compute", VFun "total")] "total" Form.context eq_refl
              eq_refl)
    as [H1 _].
  destruct (@get_computes_or_falls_back Form.host Form.form "stamp"
              [("compute", VNative "now")] "now" Form.context eq_refl
              eq_refl)
    as [_ [H2 _]].
  destruct (@get_computes_or_falls_back Form.host Form.form "shown"
              [("default", VStr ""); ("getter", VFun "fail")] "fail"
              Form.context eq_refl eq_refl)
    as [_ [_ H3]].
  split; [exact (proj1 (H1 eq_refl _ _)) |].
  split; [exact (H2 eq_refl eq_refl (VNum 1) []) |].
  exact (H3 eq_refl eq_refl eq_refl (VStr "x") (VStr "broken") [] eq_refl).
Defined.

(** The three validators of the field [code], by index. *)
Lemma indexes_select_in_order_witness :
  Schema.dollar_validate (host := Form.host) Form.form "code" (VStr "x")
    Form.context [VNum 0; VNum 1; VNum 2] []
  = (Ret [VObj [("key", VStr "code"); ("value", VStr "x"); ("at", VNum 0);
                ("message", VStr "first")];
          VObj [("key", VStr "code"); ("value", VStr "x"); ("at", VNum 2);
                ("message", VStr "third")]], [])
  /\ Schema.dollar_validate (host := Form.host) Form.form "code" (VStr "x")
       Form.context [VNum 7; VNum (-1)] []
     = (Ret [], []).
Proof.
  destruct (@indexes_select_in_order Form.host Form.form "code"
              [("default", VStr "x"); ("validators", VArr Form.checks)]
              (VStr "x") Form.context Form.checks (VBool false) []
              eq_refl eq_refl eq_refl (settles_ret (VBool false)) eq_refl)
    as [H1 H2].
  split; [exact (proj1 (H1 [])) |].
  apply (H2 7 [VNum (-1)] []).
  repeat constructor; eexists; (split; [reflexivity | cbn; lia]).
Defined.

(** The range from 1 to 5 over the three validators of [code]. *)
Lemma range_selects_slice_witness :
  Schema.dollar_validate (host := Form.host) Form.form "code" (VStr "x")
    Form.context [VArr [VNum 1; VNum 5]] []
  = (Ret [VObj [("key", VStr "code"); ("value", VStr "x"); ("at", VNum 2);
                ("message", VStr "third")]], []).
Proof.
  exact (@range_selects_slice Form.host Form.form "code"
           [("default", VStr "x"); ("validators", VArr Form.checks)]
           (VStr "x") Form.context Form.checks (VBool false) [] 1 5
           eq_refl eq_refl eq_refl (settles_ret (VBool false)) eq_refl
           ltac:(lia) []).
Defined.

(** The field [risky], whose one validator throws. *)
Lemma throwing_validator_passes_or_escapes_witness :
  Schema.dollar_validate (host := Form.host) Form.form "risky" (VStr "x")
    Form.context [VArr []] []
  = (Ret [],
     [Reported (VObj [("key", VStr "risky");
                      ("meta", VStr "validators[0].validate");
                      ("error", VStr "broken")])])
  /\ Schema.dollar_validate (host := Form.host) Form.form "risky" (VStr "x")
       Form.context [VArr [Form.breaking]] []
     = (Throw (VStr "broken"), []).
Proof.
  destruct (@throwing_validator_passes_or_escapes Form.host Form.form "risky"
              [("default", VStr ""); ("validators", VArr [Form.breaking])]
              (VStr "x") Form.context Form.breaking [] "fail" (VStr "broken")
              (VBool false) [] eq_refl eq_refl (settles_ret (VBool false))
              eq_refl eq_refl eq_refl eq_refl eq_refl eq_refl eq_refl)
    as [H1 H2].
  split; [exact (H1 eq_refl []) | exact (H2 [])].
Defined.

(** The card schema and data that lack a title and have a colour. *)
Lemma parse_has_the_schema_keys_witness :
  exists output,
    VObj [("title", VStr "untitled"); ("size", VNum 3)] = VObj output
    /\ map fst output = map fst Form.card.
Proof.
  exact (@parse_has_the_schema_keys Form.host Form.card Form.card_data
           Form.context _ [] [] eq_refl).
Defined.

Lemma parse_takes_stored_or_default_witness :
  Schema.parse (host := Form.host) Form.card Form.card_data Form.context []
  = (Ret (VObj [("title", VStr "untitled"); ("size", VNum 3)]), []).
Proof.
  refine (@parse_takes_stored_or_default Form.host Form.card
            [("size", VNum 3); ("colour", VStr "red")] Form.context []
            (distinct_NoDup (map fst Form.card) eq_refl) eq_refl _).
  plain_definitions.
Defined.



(** The field [held], disabled by an object with a message. *)
Lemma object_meta_decides_and_words_refusal_witness :
  Schema.set (host := Form.host) Form.form "held" (VStr "new") (VStr "old")
    Form.context []
  = (Ret (VStr "old"),
     [Reported (Schema.refusal "held" (VStr "new") (VStr "old") "disabled"
                  (VStr "held back"))]).
Proof.
  exact (@object_meta_decides_and_words_refusal Form.host Form.form "held"
           [("default", VStr "");
            ("disabled", VObj [("determine", VFun "accept");
                               ("message", VStr "held back")])]
           [("determine", VFun "accept"); ("message", VStr "held back")]
           "accept" (VBool true) Form.context
           eq_refl eq_refl eq_refl eq_refl eq_refl eq_refl eq_refl
           (VStr "new") (VStr "old") []).
Defined.
